(** * Case converters of Anythink-Market: camelCase, kebab-case, dot.case

    A shallow embedding of [src/refined_prompt.js] (toCamelCase, toDotCase)
    and of the kebab-case unit (toKebabCase), with the properties of their
    shared tokenisation pipeline.

    Strings are JavaScript strings: finite sequences of UTF-16 code units.
    The Unicode tables of the engine (normalisation forms, general
    categories, case mappings), its test of a language tag and its printing
    of a number are not code of the repository; they are the fields of the
    class [Host], and the facts about them that a proof needs are the fields
    of [HostOk]. A call returns a text or raises: the converters raise
    their own TypeError, and they do not catch what the engine raises for a
    language tag that it rejects, nor what the printing of an object
    raises. *)

From Stdlib Require Import String Ascii DecimalString.
From Stdlib Require Import List NArith ZArith Bool Arith Lia.
Import ListNotations.

(** ** JavaScript strings *)

Abbreviation char := N (only parsing).
Abbreviation jstr := (list N) (only parsing).

(** An ASCII literal as a JavaScript string. *)
Definition js (s : string) : jstr := map N_of_ascii (list_ascii_of_string s).

Definition between (lo hi c : N) : bool := ((lo <=? c) && (c <=? hi))%N.

Module JS.

(** [s.charAt(i)]; [None] stands for the empty string that an index out of
    range gives. *)
Definition charAt (s : jstr) (i : nat) : option char := nth_error s i.

(** [x >= lo && x <= hi] for [x] the result of [charAt] and [lo], [hi]
    one-character literals: comparison of strings by code unit; the empty
    string is below every character. *)
Definition inRange (x : option char) (lo hi : N) : bool :=
  match x with
  | Some c => between lo hi c
  | None => false
  end.

(** [s.slice(start, end)] for non-negative arguments. *)
Definition slice (s : jstr) (start end_ : nat) : jstr :=
  firstn (end_ - start) (skipn start s).

(** [s.slice(start)]. *)
Definition sliceFrom (s : jstr) (start : nat) : jstr := skipn start s.

(** [parts.join(sep)]. *)
Fixpoint join (sep : jstr) (parts : list jstr) : jstr :=
  match parts with
  | [] => []
  | [p] => p
  | p :: rest => p ++ sep ++ join sep rest
  end.

(** [s.split(c)] for a one-character separator: never the empty list. *)
Fixpoint split (sep : N) (s : jstr) : list jstr :=
  match s with
  | [] => [[]]
  | c :: t =>
      if (c =? sep)%N then [] :: split sep t
      else match split sep t with
           | h :: r => (c :: h) :: r
           | [] => [[c]]
           end
  end.

(** The class [\s] of regular expressions, which is also what [trim]
    removes: WhiteSpace and LineTerminator of ECMAScript. *)
Definition isWhiteSpace (c : char) : bool :=
  between 9 13 c || (c =? 32)%N || (c =? 160)%N || (c =? 0x1680)%N
  || between 0x2000 0x200A c || (c =? 0x2028)%N || (c =? 0x2029)%N
  || (c =? 0x202F)%N || (c =? 0x205F)%N || (c =? 0x3000)%N
  || (c =? 0xFEFF)%N.

Fixpoint dropWhile (p : char -> bool) (s : jstr) : jstr :=
  match s with
  | [] => []
  | c :: t => if p c then dropWhile p t else s
  end.

(** [s.trim()]. *)
Definition trim (s : jstr) : jstr :=
  rev (dropWhile isWhiteSpace (rev (dropWhile isWhiteSpace s))).

(** [s.replace(/[cls]+/g, ' ')]: every maximal run of characters of the
    class becomes one space. [inRun] tells that the previous character was
    of the class. *)
Fixpoint replaceRunsFrom (cls : char -> bool) (inRun : bool) (s : jstr) : jstr :=
  match s with
  | [] => []
  | c :: t =>
      if cls c then
        if inRun then replaceRunsFrom cls true t
        else 32%N :: replaceRunsFrom cls true t
      else c :: replaceRunsFrom cls false t
  end.

Definition replaceRuns (cls : char -> bool) (s : jstr) : jstr :=
  replaceRunsFrom cls false s.

Definition isHighSurrogate (c : char) : bool := between 0xD800 0xDBFF c.
Definition isLowSurrogate (c : char) : bool := between 0xDC00 0xDFFF c.
Definition codePoint (h l : char) : N :=
  (0x10000 + (h - 0xD800) * 0x400 + (l - 0xDC00))%N.

(** [s.replace(/[cls]+/gu, '')]: with the [u] flag the expression reads
    code points, a surrogate pair being one of them, and every code point
    of the class is deleted. *)
Fixpoint deleteCodePoints (cls : N -> bool) (s : jstr) : jstr :=
  match s with
  | [] => []
  | h :: t =>
      match t with
      | l :: t' =>
          if isHighSurrogate h && isLowSurrogate l then
            if cls (codePoint h l) then deleteCodePoints cls t'
            else h :: l :: deleteCodePoints cls t'
          else if cls h then deleteCodePoints cls t
          else h :: deleteCodePoints cls t
      | [] => if cls h then [] else [h]
      end
  end.

(** [/^\d+$/.test(s)]: [\d] is the ASCII digits, with or without [u]. *)
Definition testDigits (s : jstr) : bool :=
  negb (Nat.eqb (length s) 0) && forallb (between 48 57) s.

(** [/^[A-Z0-9]+$/.test(s)]. *)
Definition testUpperOrDigits (s : jstr) : bool :=
  negb (Nat.eqb (length s) 0)
  && forallb (fun c => between 65 90 c || between 48 57 c) s.

End JS.

(** ** Errors and results

    What a call can raise: the TypeError of a converter, with its message;
    the RangeError of the engine for a language tag that it rejects; and
    whatever the code of an object given by the caller raises. *)

Inductive error :=
| TypeError (message : string)
| RangeError (tag : jstr)
| Raised (what : string).

Inductive result (A : Type) : Type :=
| Return (a : A)
| Throw (e : error).

Arguments Return {A} a.
Arguments Throw {A} e.

Definition bind {A B} (m : result A) (k : A -> result B) : result B :=
  match m with
  | Return a => k a
  | Throw e => Throw e
  end.

Notation "x <- m ;; k" := (bind m (fun x => k))
  (at level 61, m at next level, right associativity).

(** A loop whose body may raise: [acc] is the state before the first
    iteration, and the first error ends the loop. *)
Fixpoint forEach {A B} (body : A -> B -> result A) (l : list B) (acc : A)
  : result A :=
  match l with
  | [] => Return acc
  | x :: rest => acc' <- body acc x ;; forEach body rest acc'
  end.

(** [l.map(f)] for an [f] that may raise: the elements are visited from
    the left, and the first error ends the visit. *)
Fixpoint mapEach {A B} (f : A -> result B) (l : list A) : result (list B) :=
  match l with
  | [] => Return []
  | x :: rest => y <- f x ;; ys <- mapEach f rest ;; Return (y :: ys)
  end.

Definition quoted (name : string) : string :=
  (String (ascii_of_nat 34) name ++ String (ascii_of_nat 34) EmptyString)%string.

(** ** JavaScript values

    The values a caller can pass as input, as an element of an input array
    or as the value of an option. [VNumber z] is the number of integer value
    [z], for a [z] that a number holds exactly, and [VNaN] the number NaN;
    how a number prints is a field of the engine. [VObject text] is an
    object that is not an array, and [text] is what [String] of it gives:
    the text that its [toString] or [valueOf] returns, or the error that
    the conversion raises; for a plain object the text is
    [[object Object]]. *)

#[warnings="-register-all"]
Inductive value : Type :=
| VUndefined
| VNull
| VBool (b : bool)
| VNumber (z : Z)
| VNaN
| VString (s : jstr)
| VArray (elems : list value)
| VObject (text : result jstr).

Inductive jstype := TUndefined | TObject | TBoolean | TNumber | TString.

Definition typeof (v : value) : jstype :=
  match v with
  | VUndefined => TUndefined
  | VNull | VArray _ | VObject _ => TObject
  | VBool _ => TBoolean
  | VNumber _ | VNaN => TNumber
  | VString _ => TString
  end.

Definition isBoolean (v : value) : bool :=
  match typeof v with TBoolean => true | _ => false end.

Definition isString (v : value) : bool :=
  match typeof v with TString => true | _ => false end.

(** [v == null]. *)
Definition isNullish (v : value) : bool :=
  match v with VUndefined | VNull => true | _ => false end.

(** [Boolean(v)], which is also the test of [if (v)] and of [v ? a : b]. *)
Definition truthy (v : value) : bool :=
  match v with
  | VUndefined | VNull | VNaN => false
  | VBool b => b
  | VNumber z => negb (z =? 0)%Z
  | VString s => negb (Nat.eqb (length s) 0)
  | VArray _ | VObject _ => true
  end.

(** ** The engine

    Its Unicode tables, its test of a language tag and its printing of a
    number. *)

Class Host := {
  (** [s.normalize('NFC')] and [s.normalize('NFD')] *)
  normalize_NFC : jstr -> jstr;
  normalize_NFD : jstr -> jstr;
  (** the properties [\p{Diacritic}], [\p{L}], [\p{N}], [\p{Zs}],
      [\p{Emoji_Presentation}], [\p{Extended_Pictographic}] of a code point *)
  is_Diacritic : N -> bool;
  is_L : N -> bool;
  is_N : N -> bool;
  is_Zs : N -> bool;
  is_Emoji_Presentation : N -> bool;
  is_Extended_Pictographic : N -> bool;
  (** [s.toLowerCase()] and [s.toUpperCase()] *)
  toLowerCase : jstr -> jstr;
  toUpperCase : jstr -> jstr;
  (** whether the engine accepts a text as a language tag: an engine with
      the internationalisation API accepts the tags that are well formed,
      an engine without it accepts every text *)
  isStructurallyValidLanguageTag : jstr -> bool;
  (** the case mappings in the locale of a tag that the engine accepts,
      the tag first; for a tag that it rejects they are not called, and
      their value there is of no consequence *)
  localeLowerCase : jstr -> jstr -> jstr;
  localeUpperCase : jstr -> jstr -> jstr;
  (** [String(x)] for the number of integer value [x] *)
  Number_toString : Z -> jstr
}.

(** [s.toLocaleLowerCase(locales)] and [s.toLocaleUpperCase(locales)] for
    a string [locales], the tag first: the engine raises a RangeError when
    it does not accept the tag. *)
Definition toLocaleLowerCase {H : Host} (locales s : jstr) : result jstr :=
  if isStructurallyValidLanguageTag locales
  then Return (localeLowerCase locales s)
  else Throw (RangeError locales).

Definition toLocaleUpperCase {H : Host} (locales s : jstr) : result jstr :=
  if isStructurallyValidLanguageTag locales
  then Return (localeUpperCase locales s)
  else Throw (RangeError locales).

(** [String(v)]. The elements of an array are printed from the left and
    joined with commas, [null] and [undefined] as the empty text; an
    object is printed by its own code, which may raise. *)
Fixpoint String_ {H : Host} (v : value) : result jstr :=
  match v with
  | VUndefined => Return (js "undefined")
  | VNull => Return (js "null")
  | VBool true => Return (js "true")
  | VBool false => Return (js "false")
  | VNumber z => Return (Number_toString z)
  | VNaN => Return (js "NaN")
  | VString s => Return s
  | VArray elems =>
      texts <-
        (fix each (l : list value) : result (list jstr) :=
           match l with
           | [] => Return []
           | e :: rest =>
               t <- match e with
                    | VUndefined | VNull => Return []
                    | _ => String_ e
                    end ;;
               ts <- each rest ;;
               Return (t :: ts)
           end) elems ;;
      Return (JS.join (js ",") texts)
  | VObject text => text
  end.

(** The class [[\s_\-./\\]] of the first replacement of the three converters:
    white space, underscore, hyphen, period, slash, backslash. *)
Definition separatorClass (c : char) : bool :=
  JS.isWhiteSpace c || (c =? 95)%N || (c =? 45)%N || (c =? 46)%N
  || (c =? 47)%N || (c =? 92)%N.

(** The class
    [[^\p{L}\p{N}\p{Zs}\p{Emoji_Presentation}\p{Extended_Pictographic} ]]
    of their second replacement. *)
Definition punctuationClass {H : Host} (cp : N) : bool :=
  negb (is_L cp || is_N cp || is_Zs cp || is_Emoji_Presentation cp
        || is_Extended_Pictographic cp || (cp =? 32)%N).

(** ** Options

    [OptionsArg] is the object the caller passes: a key is absent ([None])
    or carries a value of any type. [Opts] is the object [opts] that
    [Object.assign] builds from the defaults and the caller's keys. *)

Record OptionsArg := {
  arg_preserveAcronyms : option value;
  arg_locale : option value;
  arg_normalizeDiacritics : option value;
  arg_throwOnInvalid : option value;
  arg_preserveNumbers : option value;
  arg_pascalCase : option value
}.

Record Opts := {
  preserveAcronyms : value;
  locale : value;
  normalizeDiacritics : value;
  throwOnInvalid : value;
  preserveNumbers : value;
  pascalCase : value
}.

Definition noOptions : OptionsArg :=
  {| arg_preserveAcronyms := None; arg_locale := None;
     arg_normalizeDiacritics := None; arg_throwOnInvalid := None;
     arg_preserveNumbers := None; arg_pascalCase := None |}.

Definition orDefault (given : option value) (default : value) : value :=
  match given with Some v => v | None => default end.

(** [opts.locale ? f(opts.locale) : g]: after validation [opts.locale] is a
    string, [null] or [undefined], and only a non-empty string is truthy. *)
Definition localeTag (v : value) : option jstr :=
  match v with
  | VString l => if truthy v then Some l else None
  | _ => None
  end.

(** ** toKebabCase (the kebab-case unit, lines 32 to 115) *)

Module Kebab.
Section WithHost.
Context {H : Host}.

Definition stripDiacritics (value : jstr) : jstr :=
  normalize_NFC (JS.deleteCodePoints is_Diacritic (normalize_NFD value)).

(** The state of the splitter's loop: the parts pushed so far and the
    start of the current one. *)
Record splitter := { parts : list jstr; start : nat }.

(** One iteration of [for (let i = 1; i < token.length; i += 1)]. *)
Definition splitStep (token : jstr) (st : splitter) (i : nat) : splitter :=
  let a := JS.charAt token (i - 1) in
  let b := JS.charAt token i in
  let aIsLower := JS.inRange a 97 122 in
  let aIsUpper := JS.inRange a 65 90 in
  let bIsLower := JS.inRange b 97 122 in
  let bIsUpper := JS.inRange b 65 90 in
  let aIsDigit := JS.inRange a 48 57 in
  let bIsDigit := JS.inRange b 48 57 in
  if (aIsLower && bIsUpper) || (aIsDigit && negb bIsDigit) || (negb aIsDigit && bIsDigit)
  then {| parts := parts st ++ [JS.slice token (start st) i]; start := i |}
  else st.

Definition splitOnCaseAndNumberTransitions (token : jstr) : list jstr :=
  let st := fold_left (splitStep token) (seq 1 (length token - 1))
              {| parts := []; start := 0 |} in
  parts st ++ [JS.sliceFrom token (start st)].

(** The keys this converter does not know are copied by [Object.assign]
    and never read. *)
Definition defaults (options : OptionsArg) : Opts :=
  {| preserveAcronyms := orDefault (arg_preserveAcronyms options) VUndefined;
     locale := orDefault (arg_locale options) VUndefined;
     normalizeDiacritics := orDefault (arg_normalizeDiacritics options) (VBool false);
     throwOnInvalid := orDefault (arg_throwOnInvalid options) (VBool false);
     preserveNumbers := orDefault (arg_preserveNumbers options) (VBool true);
     pascalCase := orDefault (arg_pascalCase options) VUndefined |}.

Definition validateOptions (opts : Opts) : result Opts :=
  opts <-
    (if negb (isNullish (locale opts)) && negb (isString (locale opts)) then
       if truthy (throwOnInvalid opts)
       then Throw (TypeError ("Option " ++ quoted "locale" ++ " must be a string"))
       else Return {| preserveAcronyms := preserveAcronyms opts;
                      locale := VUndefined;
                      normalizeDiacritics := normalizeDiacritics opts;
                      throwOnInvalid := throwOnInvalid opts;
                      preserveNumbers := preserveNumbers opts;
                      pascalCase := pascalCase opts |}
     else Return opts) ;;
  Return
    {| preserveAcronyms := preserveAcronyms opts;
       locale := locale opts;
       normalizeDiacritics :=
         if negb (isBoolean (normalizeDiacritics opts))
         then VBool (truthy (normalizeDiacritics opts)) else normalizeDiacritics opts;
       throwOnInvalid :=
         if negb (isBoolean (throwOnInvalid opts))
         then VBool (truthy (throwOnInvalid opts)) else throwOnInvalid opts;
       preserveNumbers :=
         if negb (isBoolean (preserveNumbers opts))
         then VBool (truthy (preserveNumbers opts)) else preserveNumbers opts;
       pascalCase := pascalCase opts |}.

Definition clean (opts : Opts) (input : jstr) : jstr :=
  let working := normalize_NFC input in
  let working :=
    if truthy (normalizeDiacritics opts) then stripDiacritics working else working in
  let working :=
    JS.replaceRuns separatorClass working in
  let working :=
    JS.deleteCodePoints punctuationClass working in
  JS.replaceRuns JS.isWhiteSpace (JS.trim working).

(** One iteration of the loop over [sub], and one of the loop over
    [tokens]. *)
Definition pushPart (opts : Opts) (outParts : list jstr) (part : jstr)
  : result (list jstr) :=
  if length part =? 0 then Return outParts
  else
    lowered <-
      match localeTag (locale opts) with
      | Some l => toLocaleLowerCase l part
      | None => Return (toLowerCase part)
      end ;;
    Return (outParts ++ [lowered]).

Definition tokenStep (opts : Opts) (outParts : list jstr) (token : jstr)
  : result (list jstr) :=
  if length token =? 0 then Return outParts
  else if JS.testDigits token then
    Return (if truthy (preserveNumbers opts) then outParts ++ [token] else outParts)
  else
    let sub := splitOnCaseAndNumberTransitions token in
    forEach (pushPart opts) sub outParts.

Definition collectParts (opts : Opts) (tokens : list jstr) : result (list jstr) :=
  forEach (tokenStep opts) tokens [].

Definition tokenize (opts : Opts) (working : jstr) : result (list jstr) :=
  let tokens := JS.split 32 working in
  collectParts opts tokens.

Definition convertText (opts : Opts) (input : jstr) : result jstr :=
  let working := clean opts input in
  if length working =? 0 then Return []
  else
    outParts <- tokenize opts working ;;
    Return (JS.join (js "-") outParts).

Definition toKebabCase (input : value) (options : OptionsArg) : result jstr :=
  opts <- validateOptions (defaults options) ;;
  match input with
  | VUndefined | VNull =>
      if truthy (throwOnInvalid opts)
      then Throw (TypeError "Input is null or undefined")
      else Return []
  | VArray elems =>
      texts <- mapEach (fun p => if isNullish p then Return [] else String_ p)
                 elems ;;
      convertText opts (JS.join (js " ") texts)
  | VString s => convertText opts s
  | _ =>
      if truthy (throwOnInvalid opts)
      then Throw (TypeError "Input must be a string or an array of strings")
      else Return []
  end.

End WithHost.
End Kebab.

(** ** toDotCase ([src/refined_prompt.js], lines 319 to 402) *)

Module Dot.
Section WithHost.
Context {H : Host}.

Definition stripDiacritics (value : jstr) : jstr :=
  normalize_NFC (JS.deleteCodePoints is_Diacritic (normalize_NFD value)).

(** The state of the splitter's loop: the parts pushed so far and the
    start of the current one. *)
Record splitter := { parts : list jstr; start : nat }.

(** One iteration of [for (let i = 1; i < token.length; i += 1)]. *)
Definition splitStep (token : jstr) (st : splitter) (i : nat) : splitter :=
  let a := JS.charAt token (i - 1) in
  let b := JS.charAt token i in
  let aIsLower := JS.inRange a 97 122 in
  let aIsUpper := JS.inRange a 65 90 in
  let bIsLower := JS.inRange b 97 122 in
  let bIsUpper := JS.inRange b 65 90 in
  let aIsDigit := JS.inRange a 48 57 in
  let bIsDigit := JS.inRange b 48 57 in
  if (aIsLower && bIsUpper) || (aIsDigit && negb bIsDigit) || (negb aIsDigit && bIsDigit)
  then {| parts := parts st ++ [JS.slice token (start st) i]; start := i |}
  else st.

Definition splitOnCaseAndNumberTransitions (token : jstr) : list jstr :=
  let st := fold_left (splitStep token) (seq 1 (length token - 1))
              {| parts := []; start := 0 |} in
  parts st ++ [JS.sliceFrom token (start st)].

(** The keys this converter does not know are copied by [Object.assign]
    and never read. *)
Definition defaults (options : OptionsArg) : Opts :=
  {| preserveAcronyms := orDefault (arg_preserveAcronyms options) VUndefined;
     locale := orDefault (arg_locale options) VUndefined;
     normalizeDiacritics := orDefault (arg_normalizeDiacritics options) (VBool false);
     throwOnInvalid := orDefault (arg_throwOnInvalid options) (VBool false);
     preserveNumbers := orDefault (arg_preserveNumbers options) (VBool true);
     pascalCase := orDefault (arg_pascalCase options) VUndefined |}.

Definition validateOptions (opts : Opts) : result Opts :=
  opts <-
    (if negb (isNullish (locale opts)) && negb (isString (locale opts)) then
       if truthy (throwOnInvalid opts)
       then Throw (TypeError ("Option " ++ quoted "locale" ++ " must be a string"))
       else Return {| preserveAcronyms := preserveAcronyms opts;
                      locale := VUndefined;
                      normalizeDiacritics := normalizeDiacritics opts;
                      throwOnInvalid := throwOnInvalid opts;
                      preserveNumbers := preserveNumbers opts;
                      pascalCase := pascalCase opts |}
     else Return opts) ;;
  Return
    {| preserveAcronyms := preserveAcronyms opts;
       locale := locale opts;
       normalizeDiacritics :=
         if negb (isBoolean (normalizeDiacritics opts))
         then VBool (truthy (normalizeDiacritics opts)) else normalizeDiacritics opts;
       throwOnInvalid :=
         if negb (isBoolean (throwOnInvalid opts))
         then VBool (truthy (throwOnInvalid opts)) else throwOnInvalid opts;
       preserveNumbers :=
         if negb (isBoolean (preserveNumbers opts))
         then VBool (truthy (preserveNumbers opts)) else preserveNumbers opts;
       pascalCase := pascalCase opts |}.

Definition clean (opts : Opts) (input : jstr) : jstr :=
  let working := normalize_NFC input in
  let working :=
    if truthy (normalizeDiacritics opts) then stripDiacritics working else working in
  let working :=
    JS.replaceRuns separatorClass working in
  let working :=
    JS.deleteCodePoints punctuationClass working in
  JS.replaceRuns JS.isWhiteSpace (JS.trim working).

(** One iteration of the loop over [sub], and one of the loop over
    [tokens]. *)
Definition pushPart (opts : Opts) (outParts : list jstr) (part : jstr)
  : result (list jstr) :=
  if length part =? 0 then Return outParts
  else
    lowered <-
      match localeTag (locale opts) with
      | Some l => toLocaleLowerCase l part
      | None => Return (toLowerCase part)
      end ;;
    Return (outParts ++ [lowered]).

Definition tokenStep (opts : Opts) (outParts : list jstr) (token : jstr)
  : result (list jstr) :=
  if length token =? 0 then Return outParts
  else if JS.testDigits token then
    Return (if truthy (preserveNumbers opts) then outParts ++ [token] else outParts)
  else
    let sub := splitOnCaseAndNumberTransitions token in
    forEach (pushPart opts) sub outParts.

Definition collectParts (opts : Opts) (tokens : list jstr) : result (list jstr) :=
  forEach (tokenStep opts) tokens [].

Definition tokenize (opts : Opts) (working : jstr) : result (list jstr) :=
  let tokens := JS.split 32 working in
  collectParts opts tokens.

Definition convertText (opts : Opts) (input : jstr) : result jstr :=
  let working := clean opts input in
  if length working =? 0 then Return []
  else
    outParts <- tokenize opts working ;;
    Return (JS.join (js ".") outParts).

Definition toDotCase (input : value) (options : OptionsArg) : result jstr :=
  opts <- validateOptions (defaults options) ;;
  match input with
  | VUndefined | VNull =>
      if truthy (throwOnInvalid opts)
      then Throw (TypeError "Input is null or undefined")
      else Return []
  | VArray elems =>
      texts <- mapEach (fun p => if isNullish p then Return [] else String_ p)
                 elems ;;
      convertText opts (JS.join (js " ") texts)
  | VString s => convertText opts s
  | _ =>
      if truthy (throwOnInvalid opts)
      then Throw (TypeError "Input must be a string or an array of strings")
      else Return []
  end.

End WithHost.
End Dot.

(** ** toCamelCase ([src/refined_prompt.js], lines 80 to 285)

    The file declares [stripDiacritics] and
    [splitOnCaseAndNumberTransitions] twice in one scope, at lines 80 and 91
    and again at lines 319 and 323. Function declarations are hoisted and
    the later one replaces the earlier: when toCamelCase runs, both names are
    bound to the declarations of lines 319 and 323, which the module [Dot]
    holds. The declarations of lines 80 and 91 are kept here under their
    names; no call reaches them. *)

Module Camel.
Section WithHost.
Context {H : Host}.

Definition stripDiacritics (value : jstr) : jstr :=
  normalize_NFC (JS.deleteCodePoints is_Diacritic (normalize_NFD value)).

(** The state of the splitter's loop: the segments pushed so far and the
    start of the current one. *)
Record splitter := { segments : list jstr; segmentStart : nat }.

Definition pushSegment (token : jstr) (st : splitter) (end_ : nat) : splitter :=
  {| segments :=
       if segmentStart st <? end_
       then segments st ++ [JS.slice token (segmentStart st) end_]
       else segments st;
     segmentStart := end_ |}.

(** One iteration of [for (let index = 1; index < length; index += 1)]. *)
Definition splitStep (token : jstr) (st : splitter) (index : nat) : splitter :=
  let length := length token in
  let prev := JS.charAt token (index - 1) in
  let curr := JS.charAt token index in
  let next := if index + 1 <? length then JS.charAt token (index + 1) else None in
  let prevIsUpper := JS.inRange prev 65 90 in
  let prevIsLower := JS.inRange prev 97 122 in
  let currIsUpper := JS.inRange curr 65 90 in
  let currIsLower := JS.inRange curr 97 122 in
  let prevIsDigit := JS.inRange prev 48 57 in
  let currIsDigit := JS.inRange curr 48 57 in
  if prevIsLower && currIsUpper then pushSegment token st index
  else if (prevIsDigit && negb currIsDigit) || (negb prevIsDigit && currIsDigit)
  then pushSegment token st index
  else if prevIsUpper && currIsUpper && JS.inRange next 97 122
  then pushSegment token st index
  else st.

Definition splitOnCaseAndNumberTransitions (token : jstr) (preserveAcronyms : bool)
  : list jstr :=
  let length := length token in
  let st := fold_left (splitStep token) (seq 1 (length - 1))
              {| segments := []; segmentStart := 0 |} in
  segments (pushSegment token st length).

Definition defaults (options : OptionsArg) : Opts :=
  {| preserveAcronyms := orDefault (arg_preserveAcronyms options) (VBool false);
     locale := orDefault (arg_locale options) VUndefined;
     normalizeDiacritics := orDefault (arg_normalizeDiacritics options) (VBool false);
     throwOnInvalid := orDefault (arg_throwOnInvalid options) (VBool false);
     preserveNumbers := orDefault (arg_preserveNumbers options) (VBool true);
     pascalCase := orDefault (arg_pascalCase options) (VBool false) |}.

(** Lines 157 to 178: the options are checked one after the other, and a
    value of the wrong type raises or is replaced. *)
Definition validateOptions (opts : Opts) : result Opts :=
  opts <-
    (if negb (isBoolean (preserveAcronyms opts)) then
       if truthy (throwOnInvalid opts)
       then Throw (TypeError ("Option " ++ quoted "preserveAcronyms" ++ " must be a boolean"))
       else Return {| preserveAcronyms := VBool (truthy (preserveAcronyms opts));
                      locale := locale opts;
                      normalizeDiacritics := normalizeDiacritics opts;
                      throwOnInvalid := throwOnInvalid opts;
                      preserveNumbers := preserveNumbers opts;
                      pascalCase := pascalCase opts |}
     else Return opts) ;;
  opts <-
    (if negb (isNullish (locale opts)) && negb (isString (locale opts)) then
       if truthy (throwOnInvalid opts)
       then Throw (TypeError ("Option " ++ quoted "locale" ++ " must be a string"))
       else Return {| preserveAcronyms := preserveAcronyms opts;
                      locale := VUndefined;
                      normalizeDiacritics := normalizeDiacritics opts;
                      throwOnInvalid := throwOnInvalid opts;
                      preserveNumbers := preserveNumbers opts;
                      pascalCase := pascalCase opts |}
     else Return opts) ;;
  opts <-
    (if negb (isBoolean (normalizeDiacritics opts)) then
       if truthy (throwOnInvalid opts)
       then Throw (TypeError ("Option " ++ quoted "normalizeDiacritics" ++ " must be a boolean"))
       else Return {| preserveAcronyms := preserveAcronyms opts;
                      locale := locale opts;
                      normalizeDiacritics := VBool (truthy (normalizeDiacritics opts));
                      throwOnInvalid := throwOnInvalid opts;
                      preserveNumbers := preserveNumbers opts;
                      pascalCase := pascalCase opts |}
     else Return opts) ;;
  Return
    {| preserveAcronyms := preserveAcronyms opts;
       locale := locale opts;
       normalizeDiacritics := normalizeDiacritics opts;
       throwOnInvalid :=
         if negb (isBoolean (throwOnInvalid opts))
         then VBool (truthy (throwOnInvalid opts)) else throwOnInvalid opts;
       preserveNumbers :=
         if negb (isBoolean (preserveNumbers opts))
         then VBool (truthy (preserveNumbers opts)) else preserveNumbers opts;
       pascalCase :=
         if negb (isBoolean (pascalCase opts))
         then VBool (truthy (pascalCase opts)) else pascalCase opts |}.

(** Lines 198 to 213: normalisation, separators, punctuation, spaces.
    [stripDiacritics] is the declaration of line 319. *)
Definition clean (opts : Opts) (input : jstr) : jstr :=
  let working := normalize_NFC input in
  let working :=
    if truthy (normalizeDiacritics opts) then Dot.stripDiacritics working
    else working in
  let working :=
    JS.replaceRuns separatorClass working in
  let working :=
    JS.deleteCodePoints punctuationClass working in
  JS.replaceRuns JS.isWhiteSpace (JS.trim working).

(** Lines 219 to 240: one iteration of the loop over [rawTokens], and one
    of the loop over [subParts]. The call
    [splitOnCaseAndNumberTransitions(token, opts.preserveAcronyms)] of line
    233 runs the declaration of line 323, which has one parameter: the
    second argument is dropped. *)
Definition pushPart (words : list jstr) (part : jstr) : list jstr :=
  if length part =? 0 then words else words ++ [part].

Definition wordsStep (opts : Opts) (words : list jstr) (token : jstr) : list jstr :=
  if length token =? 0 then words
  else if JS.testDigits token then
    if truthy (preserveNumbers opts) then words ++ [token] else words
  else
    let subParts := Dot.splitOnCaseAndNumberTransitions token in
    fold_left pushPart subParts words.

Definition collectWords (opts : Opts) (rawTokens : list jstr) : list jstr :=
  fold_left (wordsStep opts) rawTokens [].

Definition tokenize (opts : Opts) (working : jstr) : list jstr :=
  let rawTokens := JS.split 32 working in
  collectWords opts rawTokens.

Definition lowerWithLocale (opts : Opts) (value : jstr) : result jstr :=
  match localeTag (locale opts) with
  | Some l => toLocaleLowerCase l value
  | None => Return (toLowerCase value)
  end.

Definition upperFirst (opts : Opts) (value : jstr) : result jstr :=
  if length value =? 0 then Return value
  else
    let first := JS.slice value 0 1 in
    let rest := JS.sliceFrom value 1 in
    upper <-
      match localeTag (locale opts) with
      | Some l => toLocaleUpperCase l first
      | None => Return (toUpperCase first)
      end ;;
    lower <-
      match localeTag (locale opts) with
      | Some l => toLocaleLowerCase l rest
      | None => Return (toLowerCase rest)
      end ;;
    Return (upper ++ lower).

(** [opts.preserveAcronyms && /^[A-Z0-9]+$/.test(w) && w.length > 1] *)
Definition keptAsAcronym (opts : Opts) (w : jstr) : bool :=
  truthy (preserveAcronyms opts) && JS.testUpperOrDigits w && (1 <? length w).

(** One iteration of [for (let k = 0; k < normalizedWords.length; k += 1)]. *)
Definition assembleStep (opts : Opts) (words normalizedWords : list jstr)
    (result_ : jstr) (k : nat) : result jstr :=
  let word := nth k normalizedWords [] in
  if k =? 0 then
    if keptAsAcronym opts (nth 0 words []) then Return (result_ ++ nth 0 words [])
    else if truthy (pascalCase opts) then
      capitalised <- upperFirst opts word ;; Return (result_ ++ capitalised)
    else Return (result_ ++ word)
  else
    if keptAsAcronym opts (nth k words []) then Return (result_ ++ nth k words [])
    else capitalised <- upperFirst opts word ;; Return (result_ ++ capitalised).

Definition assemble (opts : Opts) (words : list jstr) : result jstr :=
  normalizedWords <-
    mapEach (fun w => if keptAsAcronym opts w then Return w
                      else lowerWithLocale opts w) words ;;
  forEach (assembleStep opts words normalizedWords)
    (seq 0 (length normalizedWords)) [].

(** Lines 198 to 284, on the text of the input. *)
Definition convertText (opts : Opts) (input : jstr) : result jstr :=
  let working := clean opts input in
  if length working =? 0 then Return []
  else
    let words := tokenize opts working in
    if length words =? 0 then Return [] else assemble opts words.

Definition toCamelCase (input : value) (options : OptionsArg) : result jstr :=
  opts <- validateOptions (defaults options) ;;
  match input with
  | VUndefined | VNull =>
      if truthy (throwOnInvalid opts)
      then Throw (TypeError "Input is null or undefined")
      else Return []
  | VArray parts =>
      texts <- mapEach (fun part =>
                          if isNullish part then Return []
                          else if negb (isString part) then String_ part
                          else match part with
                               | VString s => Return s
                               | _ => String_ part
                               end)
                 parts ;;
      convertText opts (JS.join (js " ") texts)
  | VString s => convertText opts s
  | _ =>
      if truthy (throwOnInvalid opts)
      then Throw (TypeError "Input must be a string or an array of strings")
      else Return []
  end.

End WithHost.
End Camel.

(** ** The three entry points as one function of the style *)

Inductive style := camel | kebab | dot.

Definition convert {H : Host} (st : style) (input : value) (options : OptionsArg)
  : result jstr :=
  match st with
  | camel => Camel.toCamelCase input options
  | kebab => Kebab.toKebabCase input options
  | dot => Dot.toDotCase input options
  end.

(** The joiner of a style, when it has one. *)
Definition joiner (st : style) : option char :=
  match st with
  | camel => None
  | kebab => Some 45%N
  | dot => Some 46%N
  end.

(** ** A reference engine for ASCII text

    On text made of ASCII characters the tables of every engine agree with
    these: normalisation changes nothing, the letters are [A-Za-z], the
    numbers [0-9], the only space separator is the space, no character is an
    emoji, the diacritics are the circumflex and the grave accent, and the
    case mappings shift the 26 letters. The case mappings do not look at the
    locale; a text is accepted as a language tag when it has the shape of
    one; an integer is printed with its decimal digits, as every engine
    prints one that a number holds exactly. *)

Definition isAscii (c : N) : bool := (c <? 128)%N.
Definition asciiLower (c : char) : char := if between 65 90 c then (c + 32)%N else c.
Definition asciiUpper (c : char) : char := if between 97 122 c then (c - 32)%N else c.
Definition isAsciiLetter (c : N) : bool := between 65 90 c || between 97 122 c.
Definition isAsciiDigit (c : N) : bool := between 48 57 c.

(** A text shaped like a language tag: subtags of one to eight ASCII
    letters and digits joined by hyphens, the first one made of two, three
    or five to eight letters. The well-formed tags have this shape; a text
    that does not have it, en_US for one, is rejected by every engine that
    tests its tags. *)
Definition tagShaped (l : jstr) : bool :=
  match JS.split 45 l with
  | [] => false
  | language :: subtags =>
      forallb isAsciiLetter language
      && (((2 <=? length language) && (length language <=? 3))
          || ((5 <=? length language) && (length language <=? 8)))
      && forallb (fun t => forallb (fun c => isAsciiLetter c || isAsciiDigit c) t
                           && (1 <=? length t) && (length t <=? 8))
           subtags
  end.

(** The decimal digits of an integer, with its sign. *)
Definition decimal (z : Z) : jstr := js (NilZero.string_of_int (Z.to_int z)).

Definition asciiHost : Host :=
  {| normalize_NFC := fun s => s;
     normalize_NFD := fun s => s;
     is_Diacritic := fun cp => (cp =? 94)%N || (cp =? 96)%N;
     is_L := isAsciiLetter;
     is_N := isAsciiDigit;
     is_Zs := fun cp => (cp =? 32)%N;
     is_Emoji_Presentation := fun _ => false;
     is_Extended_Pictographic := fun _ => false;
     toLowerCase := map asciiLower;
     toUpperCase := map asciiUpper;
     isStructurallyValidLanguageTag := tagShaped;
     localeLowerCase := fun _ => map asciiLower;
     localeUpperCase := fun _ => map asciiUpper;
     Number_toString := decimal |}.

(** An engine that knows, beyond ASCII, the capital I with a dot above
    (U+0130): as in Unicode it is a letter, and its lowercase is the letter
    i followed by the combining dot above (U+0307), which is a mark and not
    a letter. Normalisation is the identity, as it is in Unicode on the two
    texts this engine is run on: U+0130 alone, and i followed by U+0307. *)

Definition dottedLower (c : char) : jstr :=
  if (c =? 0x130)%N then [0x69; 0x307]%N else [asciiLower c].

Definition dottedHost : Host :=
  {| normalize_NFC := fun s => s;
     normalize_NFD := fun s => s;
     is_Diacritic := fun cp => (cp =? 94)%N || (cp =? 96)%N || (cp =? 0x307)%N;
     is_L := fun cp => isAsciiLetter cp || (cp =? 0x130)%N;
     is_N := isAsciiDigit;
     is_Zs := fun cp => (cp =? 32)%N;
     is_Emoji_Presentation := fun _ => false;
     is_Extended_Pictographic := fun _ => false;
     toLowerCase := flat_map dottedLower;
     toUpperCase := map asciiUpper;
     isStructurallyValidLanguageTag := tagShaped;
     localeLowerCase := fun _ => flat_map dottedLower;
     localeUpperCase := fun _ => map asciiUpper;
     Number_toString := decimal |}.

(** Texts made of ASCII characters, and texts free of separators. *)
Definition allAscii (s : jstr) : bool := forallb isAscii s.
Definition noSeparator (s : jstr) : bool := forallb (fun c => negb (separatorClass c)) s.

(** What the proofs use of an engine. Each field is a fact of Unicode and of
    ECMAScript: ASCII text is in normal form, its letters, digits and space
    are classified as such and nothing else of it is kept, its case mappings
    are those of the 26 letters; no case mapping, with or without a locale,
    erases a text or makes a separator appear in it; and an integer that a
    number holds exactly (one between the two bounds of the safe integers)
    is printed with its decimal digits. *)
Class HostOk (H : Host) : Prop := {
  nfc_ascii : forall s, allAscii s = true -> normalize_NFC s = s;
  L_ascii : forall c, isAscii c = true -> is_L c = isAsciiLetter c;
  N_ascii : forall c, isAscii c = true -> is_N c = isAsciiDigit c;
  Zs_ascii : forall c, isAscii c = true -> is_Zs c = (c =? 32)%N;
  Emoji_Presentation_ascii :
    forall c, isAscii c = true -> is_Emoji_Presentation c = false;
  Extended_Pictographic_ascii :
    forall c, isAscii c = true -> is_Extended_Pictographic c = false;
  lower_ascii : forall s, allAscii s = true -> toLowerCase s = map asciiLower s;
  upper_ascii : forall s, allAscii s = true -> toUpperCase s = map asciiUpper s;
  lower_noSeparator :
    forall s, noSeparator s = true -> noSeparator (toLowerCase s) = true;
  upper_noSeparator :
    forall s, noSeparator s = true -> noSeparator (toUpperCase s) = true;
  localeLower_noSeparator :
    forall l s, noSeparator s = true -> noSeparator (localeLowerCase l s) = true;
  localeUpper_noSeparator :
    forall l s, noSeparator s = true -> noSeparator (localeUpperCase l s) = true;
  lower_nonempty : forall s, toLowerCase s = [] -> s = [];
  localeLower_nonempty : forall l s, localeLowerCase l s = [] -> s = [];
  Number_toString_safe :
    forall z, (Z.abs z <= 9007199254740991)%Z -> Number_toString z = decimal z
}.

(** ** The converters when no call of the engine raises

    The loops of the three converters without their error path: what they
    compute on an engine that accepts the locale, or when no locale is
    given. The proofs go through these functions; the lemmas [*_run] of the
    section on the errors of the engine relate them to the converters. *)

Module KebabText.
Section WithHost.
Context {H : Host}.

Definition pushPart (opts : Opts) (outParts : list jstr) (part : jstr) : list jstr :=
  if length part =? 0 then outParts
  else
    let lowered :=
      match localeTag (locale opts) with
      | Some l => localeLowerCase l part
      | None => toLowerCase part
      end in
    outParts ++ [lowered].

Definition tokenStep (opts : Opts) (outParts : list jstr) (token : jstr) : list jstr :=
  if length token =? 0 then outParts
  else if JS.testDigits token then
    if truthy (preserveNumbers opts) then outParts ++ [token] else outParts
  else
    let sub := Kebab.splitOnCaseAndNumberTransitions token in
    fold_left (pushPart opts) sub outParts.

Definition collectParts (opts : Opts) (tokens : list jstr) : list jstr :=
  fold_left (tokenStep opts) tokens [].

Definition tokenize (opts : Opts) (working : jstr) : list jstr :=
  let tokens := JS.split 32 working in
  collectParts opts tokens.

Definition convertText (opts : Opts) (input : jstr) : jstr :=
  let working := Kebab.clean opts input in
  if length working =? 0 then []
  else JS.join (js "-") (tokenize opts working).

End WithHost.
End KebabText.

Module DotText.
Section WithHost.
Context {H : Host}.

Definition pushPart (opts : Opts) (outParts : list jstr) (part : jstr) : list jstr :=
  if length part =? 0 then outParts
  else
    let lowered :=
      match localeTag (locale opts) with
      | Some l => localeLowerCase l part
      | None => toLowerCase part
      end in
    outParts ++ [lowered].

Definition tokenStep (opts : Opts) (outParts : list jstr) (token : jstr) : list jstr :=
  if length token =? 0 then outParts
  else if JS.testDigits token then
    if truthy (preserveNumbers opts) then outParts ++ [token] else outParts
  else
    let sub := Dot.splitOnCaseAndNumberTransitions token in
    fold_left (pushPart opts) sub outParts.

Definition collectParts (opts : Opts) (tokens : list jstr) : list jstr :=
  fold_left (tokenStep opts) tokens [].

Definition tokenize (opts : Opts) (working : jstr) : list jstr :=
  let tokens := JS.split 32 working in
  collectParts opts tokens.

Definition convertText (opts : Opts) (input : jstr) : jstr :=
  let working := Dot.clean opts input in
  if length working =? 0 then []
  else JS.join (js ".") (tokenize opts working).

End WithHost.
End DotText.

Module CamelText.
Section WithHost.
Context {H : Host}.

Definition lowerWithLocale (opts : Opts) (value : jstr) : jstr :=
  match localeTag (locale opts) with
  | Some l => localeLowerCase l value
  | None => toLowerCase value
  end.

Definition upperFirst (opts : Opts) (value : jstr) : jstr :=
  if length value =? 0 then value
  else
    let first := JS.slice value 0 1 in
    let rest := JS.sliceFrom value 1 in
    match localeTag (locale opts) with
    | Some l => localeUpperCase l first
    | None => toUpperCase first
    end
    ++
    match localeTag (locale opts) with
    | Some l => localeLowerCase l rest
    | None => toLowerCase rest
    end.

Definition assembleStep (opts : Opts) (words normalizedWords : list jstr)
    (result : jstr) (k : nat) : jstr :=
  let word := nth k normalizedWords [] in
  if k =? 0 then
    if Camel.keptAsAcronym opts (nth 0 words []) then result ++ nth 0 words []
    else if truthy (pascalCase opts) then result ++ upperFirst opts word
    else result ++ word
  else
    if Camel.keptAsAcronym opts (nth k words []) then result ++ nth k words []
    else result ++ upperFirst opts word.

Definition assemble (opts : Opts) (words : list jstr) : jstr :=
  let normalizedWords :=
    map (fun w => if Camel.keptAsAcronym opts w then w else lowerWithLocale opts w) words in
  fold_left (assembleStep opts words normalizedWords)
    (seq 0 (length normalizedWords)) [].

Definition convertText (opts : Opts) (input : jstr) : jstr :=
  let working := Camel.clean opts input in
  if length working =? 0 then []
  else
    let words := Camel.tokenize opts working in
    if length words =? 0 then [] else assemble opts words.


(** What the assembly appends for the word [w] at the index [k]: the word
    itself when it is kept as an acronym, else its lowercase form,
    capitalised unless it is the first word of a text that is not asked in
    PascalCase. *)
Definition renderWord (opts : Opts) (k : nat) (w : jstr) : jstr :=
  if Camel.keptAsAcronym opts w then w
  else if (k =? 0) && negb (truthy (pascalCase opts))
       then lowerWithLocale opts w
       else upperFirst opts (lowerWithLocale opts w).

Fixpoint renderAll (opts : Opts) (k : nat) (words : list jstr) : jstr :=
  match words with
  | [] => []
  | w :: rest => renderWord opts k w ++ renderAll opts (S k) rest
  end.

End WithHost.
End CamelText.

(** ** The first toCamelCase ([src/basic_prompt.js], lines 31 to 35)

    [str.toLowerCase().replace(/[_\s-]+(.)/g, (_, char) => char.toUpperCase())],
    for [str] a string. *)

Module Basic.
Section WithHost.
Context {H : Host}.

(** The class [[_\s-]]. *)
Definition separatorClass (c : char) : bool :=
  (c =? 95)%N || JS.isWhiteSpace c || (c =? 45)%N.

(** What the dot of an expression without the [s] flag does not match: the
    line terminators, which are all in [\s]. *)
Definition isLineTerminator (c : char) : bool :=
  (c =? 10)%N || (c =? 13)%N || (c =? 0x2028)%N || (c =? 0x2029)%N.

(** A run of the class that the end of the text follows. The expression
    gives characters of the run back, one at a time, until the dot has a
    character that it matches: the match ends at the last character of the
    run, the first one apart, that is no line terminator, and this
    character is the captured one; the line terminators after it match
    nothing. When no character but the first is left to the dot, nothing of
    the run is matched. *)
Definition replaceAtEnd (run : jstr) : jstr :=
  match run with
  | [] => []
  | first :: others =>
      match JS.dropWhile isLineTerminator (rev others) with
      | [] => run
      | char :: _ =>
          toUpperCase [char]
          ++ rev (firstn (length others
                          - length (JS.dropWhile isLineTerminator (rev others)))
                    (rev others))
      end
  end.

(** [s.replace(/[_\s-]+(.)/g, (_, char) => char.toUpperCase())]: [run] is
    the run of the class being read. A character out of the class that
    follows a run is no line terminator: the dot matches it and the match,
    run and character, is replaced by the character in upper case. *)
Fixpoint replaceFrom (run : jstr) (s : jstr) : jstr :=
  match s with
  | [] => replaceAtEnd run
  | c :: t =>
      if separatorClass c then replaceFrom (run ++ [c]) t
      else
        match run with
        | [] => c :: replaceFrom [] t
        | _ :: _ => toUpperCase [c] ++ replaceFrom [] t
        end
  end.

Definition toCamelCase (str : jstr) : jstr :=
  replaceFrom [] (toLowerCase str).

End WithHost.
End Basic.

(** ** The boundary rules, as the specification words them

    [prev] and [curr] are two adjacent characters of a token and [next] the
    character after [curr], when there is one. *)

Definition isUpperLetter (c : char) : bool := between 65 90 c.
Definition isLowerLetter (c : char) : bool := between 97 122 c.

(** Lower to upper, or exactly one of the two a digit, or two capitals
    followed by a lowercase letter (section 4.3). *)
Definition specBoundary (prev curr : char) (next : option char) : bool :=
  (isLowerLetter prev && isUpperLetter curr)
  || xorb (isAsciiDigit prev) (isAsciiDigit curr)
  || (isUpperLetter prev && isUpperLetter curr
      && match next with Some n => isLowerLetter n | None => false end).

(** The same without the rule of the acronyms. *)
Definition caseDigitBoundary (prev curr : char) (next : option char) : bool :=
  (isLowerLetter prev && isUpperLetter curr)
  || xorb (isAsciiDigit prev) (isAsciiDigit curr).

(** The segments of a text cut before every character where [rule] holds:
    [cur] is the segment being read, [prev] its last character so far and
    [s] the characters not read yet. *)
Fixpoint cutFrom (rule : char -> char -> option char -> bool)
    (cur : jstr) (prev : char) (s : jstr) : list jstr :=
  match s with
  | [] => [cur ++ [prev]]
  | c :: t =>
      if rule prev c (hd_error t)
      then (cur ++ [prev]) :: cutFrom rule [] c t
      else cutFrom rule (cur ++ [prev]) c t
  end.

Definition cut (rule : char -> char -> option char -> bool) (token : jstr)
  : list jstr :=
  match token with
  | [] => []
  | c :: t => cutFrom rule [] c t
  end.

(** The predicates of the statements below. *)

Definition isThrow {A} (r : result A) : bool :=
  match r with Throw _ => true | Return _ => false end.

Definition startsWith (j : char) (s : jstr) : bool :=
  match s with c :: _ => (c =? j)%N | [] => false end.

Definition endsWith (j : char) (s : jstr) : bool := startsWith j (rev s).

Definition isAsciiAlnum (c : char) : bool := isAsciiLetter c || isAsciiDigit c.

(** The text an element of an input array stands for, or the error that
    printing it raises. *)
Definition elementText {H : Host} (v : value) : result jstr :=
  if isNullish v then Return [] else String_ v.

(** The engine rejects the locale of the options: the tag is a string that
    is not empty and that the engine does not accept. Every call of
    [toLocaleLowerCase] and of [toLocaleUpperCase] with it raises
    [localeError]. *)
Definition localeRejected {H : Host} (opts : Opts) : bool :=
  match localeTag (locale opts) with
  | Some l => negb (isStructurallyValidLanguageTag l)
  | None => false
  end.

Definition localeError (opts : Opts) : error :=
  RangeError (match localeTag (locale opts) with Some l => l | None => [] end).

(** A raw token that the kebab and dot converters cut and put in lower
    case: it is not empty and not a number. *)
Definition isWord (token : jstr) : bool :=
  negb (length token =? 0) && negb (JS.testDigits token).

(** The input is neither a string nor an array. *)
Definition inputRejected (input : value) : bool :=
  match input with
  | VString _ | VArray _ => false
  | _ => true
  end.

(** The caller asked for errors: [opts.throwOnInvalid] is truthy. *)
Definition throwRequested (o : OptionsArg) : bool :=
  truthy (orDefault (arg_throwOnInvalid o) (VBool false)).

(** A key that is present with a value of the wrong type. *)
Definition wrongFlag (given : option value) : bool :=
  match given with
  | Some v => negb (isBoolean v)
  | None => false
  end.

Definition wrongLocale (given : option value) : bool :=
  match given with
  | Some v => negb (isNullish v) && negb (isString v)
  | None => false
  end.

(** The options a converter checks before it runs: the three first ones of
    the camel converter, the locale alone for the two others. *)
Definition checkedOptionWrong (st : style) (o : OptionsArg) : bool :=
  match st with
  | camel =>
      wrongFlag (arg_preserveAcronyms o) || wrongLocale (arg_locale o)
      || wrongFlag (arg_normalizeDiacritics o)
  | kebab | dot => wrongLocale (arg_locale o)
  end.

(** Some option the converter reads has a value of the wrong type. *)
Definition someOptionWrong (st : style) (o : OptionsArg) : bool :=
  wrongLocale (arg_locale o) || wrongFlag (arg_normalizeDiacritics o)
  || wrongFlag (arg_throwOnInvalid o) || wrongFlag (arg_preserveNumbers o)
  || match st with
     | camel => wrongFlag (arg_preserveAcronyms o) || wrongFlag (arg_pascalCase o)
     | kebab | dot => false
     end.

(** The options with every value of the wrong type replaced: a flag by its
    truth value, a locale by [undefined]. *)
Definition coerceFlag (given : option value) : option value :=
  match given with
  | Some v => if isBoolean v then Some v else Some (VBool (truthy v))
  | None => None
  end.

Definition coerceLocale (given : option value) : option value :=
  match given with
  | Some v => if negb (isNullish v) && negb (isString v) then Some VUndefined else Some v
  | None => None
  end.

Definition coerced (st : style) (o : OptionsArg) : OptionsArg :=
  {| arg_preserveAcronyms :=
       match st with
       | camel => coerceFlag (arg_preserveAcronyms o)
       | kebab | dot => arg_preserveAcronyms o
       end;
     arg_locale := coerceLocale (arg_locale o);
     arg_normalizeDiacritics := coerceFlag (arg_normalizeDiacritics o);
     arg_throwOnInvalid := coerceFlag (arg_throwOnInvalid o);
     arg_preserveNumbers := coerceFlag (arg_preserveNumbers o);
     arg_pascalCase :=
       match st with
       | camel => coerceFlag (arg_pascalCase o)
       | kebab | dot => arg_pascalCase o
       end |}.

(** The options a converter works with once it has validated them. *)
Definition validated (st : style) (o : OptionsArg) : Opts :=
  match st with
  | camel => Camel.defaults (coerced st o)
  | kebab => Kebab.defaults (coerced st o)
  | dot => Dot.defaults (coerced st o)
  end.

(** The conversion of a text calls the engine with the locale: the kebab
    and dot converters for a raw token that is a word, the camel converter
    for a word that it does not keep as an acronym. *)
Definition callsLocale {H : Host} (st : style) (opts : Opts) (s : jstr) : bool :=
  match st with
  | camel =>
      existsb (fun w => negb (Camel.keptAsAcronym opts w))
        (Camel.tokenize opts (Camel.clean opts s))
  | kebab => existsb isWord (JS.split 32 (Kebab.clean opts s))
  | dot => existsb isWord (JS.split 32 (Dot.clean opts s))
  end.

(** The messages of the errors. *)
Definition inputMessage (input : value) : string :=
  if isNullish input then "Input is null or undefined"%string
  else "Input must be a string or an array of strings"%string.

Definition optionMessage (field kind : string) : string :=
  ("Option " ++ quoted field ++ " must be a " ++ kind)%string.

(** The options a converter checks, in the order of the checks: the name,
    the type asked for, and whether the caller's value has another type. *)
Definition checkedFields (st : style) (o : OptionsArg)
  : list (string * string * bool) :=
  match st with
  | camel =>
      [("preserveAcronyms"%string, "boolean"%string,
        wrongFlag (arg_preserveAcronyms o));
       ("locale"%string, "string"%string, wrongLocale (arg_locale o));
       ("normalizeDiacritics"%string, "boolean"%string,
        wrongFlag (arg_normalizeDiacritics o))]
  | kebab | dot => [("locale"%string, "string"%string, wrongLocale (arg_locale o))]
  end.

(** The first of them that is wrong. *)
Definition firstWrong (fields : list (string * string * bool))
  : option (string * string) :=
  match find snd fields with
  | Some (field, kind, _) => Some (field, kind)
  | None => None
  end.

(** The error of the first option that is wrong. *)
Definition optionError (st : style) (o : OptionsArg) : error :=
  match firstWrong (checkedFields st o) with
  | Some (field, kind) => TypeError (optionMessage field kind)
  | None => TypeError EmptyString
  end.

(** The text of an input that is a string or an array: the string, or the
    texts of the elements joined with one space; or the error of the first
    element whose printing raises. *)
Definition textOf {H : Host} (input : value) : result jstr :=
  match input with
  | VArray elems =>
      texts <- mapEach elementText elems ;; Return (JS.join (js " ") texts)
  | VString s => Return s
  | _ => Return []
  end.

(** What the converter of a style computes from a text when no call of
    the engine raises. *)
Definition converted {H : Host} (st : style) (opts : Opts) (s : jstr) : jstr :=
  match st with
  | camel => CamelText.convertText opts s
  | kebab => KebabText.convertText opts s
  | dot => DotText.convertText opts s
  end.

(** The input is a text or a sequence of texts. *)
Definition isTextual (input : value) : bool :=
  match input with
  | VString _ => true
  | VArray elems => forallb isString elems
  | _ => false
  end.

Definition withThrowOnInvalid (v : value) : OptionsArg :=
  {| arg_preserveAcronyms := None; arg_locale := None;
     arg_normalizeDiacritics := None; arg_throwOnInvalid := Some v;
     arg_preserveNumbers := None; arg_pascalCase := None |}.

Definition withLocale (l : jstr) : OptionsArg :=
  {| arg_preserveAcronyms := None; arg_locale := Some (VString l);
     arg_normalizeDiacritics := None; arg_throwOnInvalid := None;
     arg_preserveNumbers := None; arg_pascalCase := None |}.

Definition withPreserveNumbers (v : value) : OptionsArg :=
  {| arg_preserveAcronyms := None; arg_locale := None;
     arg_normalizeDiacritics := None; arg_throwOnInvalid := None;
     arg_preserveNumbers := Some v; arg_pascalCase := None |}.

(** A part of the output: not empty, and free of separators. *)
Definition goodPart (p : jstr) : Prop := p <> [] /\ noSeparator p = true.

(** The hyphen replaced by the period. *)
Definition hyphenToPeriod (c : char) : char := if (c =? 45)%N then 46%N else c.

Definition mapResult {A B} (f : A -> B) (r : result A) : result B :=
  match r with
  | Return a => Return (f a)
  | Throw e => Throw e
  end.

(** The options with another value for preserveNumbers. *)
Definition setPreserveNumbers (opts : Opts) (v : value) : Opts :=
  {| preserveAcronyms := preserveAcronyms opts;
     locale := locale opts;
     normalizeDiacritics := normalizeDiacritics opts;
     throwOnInvalid := throwOnInvalid opts;
     preserveNumbers := v;
     pascalCase := pascalCase opts |}.

(** A raw token that is not a number. *)
Definition notNumber (token : jstr) : bool := negb (JS.testDigits token).

(** The options [{ preserveAcronyms: true, pascalCase: true }]. *)
Definition acronymsAndPascal : OptionsArg :=
  {| arg_preserveAcronyms := Some (VBool true); arg_locale := None;
     arg_normalizeDiacritics := None; arg_throwOnInvalid := None;
     arg_preserveNumbers := None; arg_pascalCase := Some (VBool true) |}.

(** A part that a second run leaves as it is: not empty, and made of ASCII
    digits only or of lowercase ASCII letters only. *)
Definition stablePart (p : jstr) : Prop :=
  p <> [] /\ (forallb isAsciiDigit p = true \/ forallb isLowerLetter p = true).

(** No two capitals follow each other in the text. *)
Fixpoint noCapitalPair (s : jstr) : bool :=
  match s with
  | [] => true
  | a :: t =>
      match t with
      | b :: _ => negb (isUpperLetter a && isUpperLetter b)
      | [] => true
      end && noCapitalPair t
  end.

(** Every option a converter reads has a value of its type: the flags are
    booleans and the locale is a string, [null] or [undefined]. *)
Definition wellTyped (st : style) (opts : Opts) : bool :=
  isBoolean (normalizeDiacritics opts) && isBoolean (throwOnInvalid opts)
  && isBoolean (preserveNumbers opts)
  && (isNullish (locale opts) || isString (locale opts))
  && match st with
     | camel => isBoolean (preserveAcronyms opts) && isBoolean (pascalCase opts)
     | kebab | dot => true
     end.

(** The caller's options with other values, or none, for the two keys that
    only the camel converter knows. *)
Definition withCamelKeys (o : OptionsArg) (pa pc : option value) : OptionsArg :=
  {| arg_preserveAcronyms := pa;
     arg_locale := arg_locale o;
     arg_normalizeDiacritics := arg_normalizeDiacritics o;
     arg_throwOnInvalid := arg_throwOnInvalid o;
     arg_preserveNumbers := arg_preserveNumbers o;
     arg_pascalCase := pc |}.

(** What the assembly of the camel converter appends for the word [w] at
    the index [k]: the word itself when it is kept as an acronym, else its
    lowercase form, capitalised unless it is the first word of a text that
    is not asked in PascalCase. *)
Definition renderWord {H : Host} (opts : Opts) (k : nat) (w : jstr) : result jstr :=
  if Camel.keptAsAcronym opts w then Return w
  else if (k =? 0) && negb (truthy (pascalCase opts))
       then Camel.lowerWithLocale opts w
       else lowered <- Camel.lowerWithLocale opts w ;; Camel.upperFirst opts lowered.

Fixpoint renderAll {H : Host} (opts : Opts) (k : nat) (words : list jstr)
  : result jstr :=
  match words with
  | [] => Return []
  | w :: rest =>
      first <- renderWord opts k w ;;
      others <- renderAll opts (S k) rest ;;
      Return (first ++ others)
  end.

(** The options with another value for pascalCase. *)
Definition setPascalCase (opts : Opts) (v : value) : Opts :=
  {| preserveAcronyms := preserveAcronyms opts;
     locale := locale opts;
     normalizeDiacritics := normalizeDiacritics opts;
     throwOnInvalid := throwOnInvalid opts;
     preserveNumbers := preserveNumbers opts;
     pascalCase := v |}.

(** A text with its first character in the upper case of ASCII. *)
Definition capitalised (s : jstr) : jstr :=
  match s with
  | [] => []
  | x :: t => asciiUpper x :: t
  end.

(** * Properties *)

(** ** Lists and the built-in functions *)

Lemma nth_error_middle (A : Type) (pre : list A) (x : A) (post : list A) :
  nth_error (pre ++ x :: post) (length pre) = Some x.
Proof.
  induction pre as [|a pre IH]; simpl; auto.
Qed.

Lemma slice_middle (pre mid post : jstr) :
  JS.slice (pre ++ mid ++ post) (length pre) (length pre + length mid) = mid.
Proof.
  unfold JS.slice.
  replace (length pre + length mid - length pre) with (length mid) by lia.
  rewrite skipn_app, skipn_all, Nat.sub_diag. simpl.
  rewrite firstn_app, firstn_all, Nat.sub_diag. simpl.
  now rewrite app_nil_r.
Qed.

Lemma sliceFrom_app (pre post : jstr) :
  JS.sliceFrom (pre ++ post) (length pre) = post.
Proof.
  unfold JS.sliceFrom. rewrite skipn_app, skipn_all, Nat.sub_diag. reflexivity.
Qed.

Lemma inRange_Some (c : char) (lo hi : N) :
  JS.inRange (Some c) lo hi = between lo hi c.
Proof. reflexivity. Qed.

(** ** The splitters cut a token with their rule *)

Lemma Camel_splitStep_rule (token pre cur : jstr) (prev c : char) (t : jstr)
    (st : Camel.splitter) :
  token = pre ++ cur ++ prev :: c :: t ->
  Camel.splitStep token st (length pre + length cur + 1) =
  if specBoundary prev c (hd_error t)
  then Camel.pushSegment token st (length pre + length cur + 1)
  else st.
Proof.
  intros E.
  assert (Ep : JS.charAt token (length pre + length cur + 1 - 1) = Some prev).
  { subst token. unfold JS.charAt.
    replace (length pre + length cur + 1 - 1) with (length (pre ++ cur))
      by (rewrite length_app; lia).
    rewrite app_assoc. apply nth_error_middle. }
  assert (Ec : JS.charAt token (length pre + length cur + 1) = Some c).
  { subst token. unfold JS.charAt.
    replace (length pre + length cur + 1) with (length (pre ++ cur ++ [prev]))
      by (rewrite !length_app; simpl; lia).
    replace (pre ++ cur ++ prev :: c :: t) with ((pre ++ cur ++ [prev]) ++ c :: t)
      by (rewrite <- !app_assoc; reflexivity).
    apply nth_error_middle. }
  assert (En : (if length pre + length cur + 1 + 1 <? length token
                then JS.charAt token (length pre + length cur + 1 + 1)
                else None) = hd_error t).
  { subst token. unfold JS.charAt.
    replace (pre ++ cur ++ prev :: c :: t) with ((pre ++ cur ++ [prev; c]) ++ t)
      by (rewrite <- !app_assoc; reflexivity).
    replace (length pre + length cur + 1 + 1) with (length (pre ++ cur ++ [prev; c]))
      by (rewrite !length_app; simpl; lia).
    destruct t as [|n t].
    - rewrite app_nil_r, Nat.ltb_irrefl. reflexivity.
    - rewrite nth_error_middle.
      rewrite (length_app _ (n :: t)). simpl.
      destruct (Nat.ltb_spec (length (pre ++ cur ++ [prev; c]))
                  (length (pre ++ cur ++ [prev; c]) + S (length t))); [reflexivity | lia]. }
  unfold Camel.splitStep. rewrite Ep, Ec, En. rewrite !inRange_Some.
  unfold specBoundary, isLowerLetter, isUpperLetter, isAsciiDigit.
  destruct (between 97 122 prev), (between 65 90 c), (between 48 57 prev),
    (between 48 57 c), (between 65 90 prev); simpl; try reflexivity;
    destruct (hd_error t); simpl; try reflexivity;
    destruct (between 97 122 _); reflexivity.
Qed.

Lemma Camel_loop_cut (s : jstr) :
  forall (token pre cur : jstr) (prev : char) (segs : list jstr),
  token = pre ++ cur ++ prev :: s ->
  Camel.segments
    (Camel.pushSegment token
       (fold_left (Camel.splitStep token)
          (seq (length pre + length cur + 1) (length s))
          {| Camel.segments := segs; Camel.segmentStart := length pre |})
       (length token))
  = segs ++ cutFrom specBoundary cur prev s.
Proof.
  induction s as [|c t IH]; intros token pre cur prev segs E.
  - simpl. unfold Camel.pushSegment. simpl.
    assert (L : length token = length pre + length (cur ++ [prev])).
    { subst token. rewrite !length_app. simpl. lia. }
    destruct (Nat.ltb_spec (length pre) (length token)) as [_|Hle].
    + rewrite L. subst token.
      replace (pre ++ cur ++ [prev]) with (pre ++ (cur ++ [prev]) ++ [])
        by now rewrite app_nil_r.
      now rewrite slice_middle.
    + rewrite L, length_app in Hle. simpl in Hle. lia.
  - cbn [length seq fold_left cutFrom].
    rewrite (Camel_splitStep_rule token pre cur prev c t _ E).
    destruct (specBoundary prev c (hd_error t)).
    + unfold Camel.pushSegment at 2. cbn [Camel.segmentStart Camel.segments].
      destruct (Nat.ltb_spec (length pre) (length pre + length cur + 1)) as [_|Hle];
        [|lia].
      assert (Es : JS.slice token (length pre) (length pre + length cur + 1)
                   = cur ++ [prev]).
      { subst token.
        replace (length pre + length cur + 1) with (length pre + length (cur ++ [prev]))
          by (rewrite length_app; simpl; lia).
        replace (pre ++ cur ++ prev :: c :: t) with (pre ++ (cur ++ [prev]) ++ c :: t)
          by (rewrite <- !app_assoc; reflexivity).
        apply slice_middle. }
      rewrite Es.
      assert (K : length (pre ++ cur ++ [prev]) = length pre + length cur + 1)
        by (rewrite !length_app; simpl; lia).
      rewrite <- K.
      replace (S (length (pre ++ cur ++ [prev])))
        with (length (pre ++ cur ++ [prev]) + length (@nil char) + 1)
        by (simpl; lia).
      rewrite (IH token (pre ++ cur ++ [prev]) [] c).
      * now rewrite <- app_assoc.
      * subst token. rewrite <- !app_assoc. reflexivity.
    + replace (S (length pre + length cur + 1))
        with (length pre + length (cur ++ [prev]) + 1)
        by (rewrite length_app; simpl; lia).
      apply IH. subst token. rewrite <- !app_assoc. reflexivity.
Qed.

(** The splitter of the camel converter cuts a token exactly where the rule
    of the specification holds. *)
Lemma Camel_split_cut (token : jstr) (preserveAcronyms : bool) :
  Camel.splitOnCaseAndNumberTransitions token preserveAcronyms
  = cut specBoundary token.
Proof.
  unfold Camel.splitOnCaseAndNumberTransitions.
  destruct token as [|c t]; [reflexivity|].
  cbn [cut].
  pose proof (Camel_loop_cut t (c :: t) [] [] c [] eq_refl) as L.
  cbn [length Nat.add app Nat.sub] in L |- *.
  rewrite ?Nat.sub_0_r. exact L.
Qed.

Lemma Kebab_splitStep_rule (token pre cur : jstr) (prev c : char) (t : jstr)
    (st : Kebab.splitter) :
  token = pre ++ cur ++ prev :: c :: t ->
  Kebab.splitStep token st (length pre + length cur + 1) =
  if caseDigitBoundary prev c (hd_error t)
  then {| Kebab.parts :=
            Kebab.parts st
            ++ [JS.slice token (Kebab.start st) (length pre + length cur + 1)];
          Kebab.start := length pre + length cur + 1 |}
  else st.
Proof.
  intros E.
  assert (Ep : JS.charAt token (length pre + length cur + 1 - 1) = Some prev).
  { subst token. unfold JS.charAt.
    replace (length pre + length cur + 1 - 1) with (length (pre ++ cur))
      by (rewrite length_app; lia).
    rewrite app_assoc. apply nth_error_middle. }
  assert (Ec : JS.charAt token (length pre + length cur + 1) = Some c).
  { subst token. unfold JS.charAt.
    replace (length pre + length cur + 1) with (length (pre ++ cur ++ [prev]))
      by (rewrite !length_app; simpl; lia).
    replace (pre ++ cur ++ prev :: c :: t) with ((pre ++ cur ++ [prev]) ++ c :: t)
      by (rewrite <- !app_assoc; reflexivity).
    apply nth_error_middle. }
  unfold Kebab.splitStep. rewrite Ep, Ec. rewrite !inRange_Some.
  unfold caseDigitBoundary, isLowerLetter, isUpperLetter, isAsciiDigit.
  destruct (between 97 122 prev), (between 65 90 c), (between 48 57 prev),
    (between 48 57 c); reflexivity.
Qed.

Lemma Kebab_loop_cut (s : jstr) :
  forall (token pre cur : jstr) (prev : char) (ps : list jstr),
  token = pre ++ cur ++ prev :: s ->
  (let st := fold_left (Kebab.splitStep token)
               (seq (length pre + length cur + 1) (length s))
               {| Kebab.parts := ps; Kebab.start := length pre |} in
   Kebab.parts st ++ [JS.sliceFrom token (Kebab.start st)])
  = ps ++ cutFrom caseDigitBoundary cur prev s.
Proof.
  induction s as [|c t IH]; intros token pre cur prev ps E.
  - simpl. subst token. now rewrite sliceFrom_app.
  - cbn [length seq fold_left cutFrom].
    rewrite (Kebab_splitStep_rule token pre cur prev c t _ E).
    destruct (caseDigitBoundary prev c (hd_error t)).
    + cbn [Kebab.parts Kebab.start].
      assert (Es : JS.slice token (length pre) (length pre + length cur + 1)
                   = cur ++ [prev]).
      { subst token.
        replace (length pre + length cur + 1) with (length pre + length (cur ++ [prev]))
          by (rewrite length_app; simpl; lia).
        replace (pre ++ cur ++ prev :: c :: t) with (pre ++ (cur ++ [prev]) ++ c :: t)
          by (rewrite <- !app_assoc; reflexivity).
        apply slice_middle. }
      rewrite Es.
      assert (K : length (pre ++ cur ++ [prev]) = length pre + length cur + 1)
        by (rewrite !length_app; simpl; lia).
      rewrite <- K.
      replace (S (length (pre ++ cur ++ [prev])))
        with (length (pre ++ cur ++ [prev]) + length (@nil char) + 1)
        by (simpl; lia).
      rewrite (IH token (pre ++ cur ++ [prev]) [] c).
      * now rewrite <- app_assoc.
      * subst token. rewrite <- !app_assoc. reflexivity.
    + replace (S (length pre + length cur + 1))
        with (length pre + length (cur ++ [prev]) + 1)
        by (rewrite length_app; simpl; lia).
      apply IH. subst token. rewrite <- !app_assoc. reflexivity.
Qed.

(** The splitter of the kebab converter cuts a token where the case or the
    digits change, and nowhere else. *)
Lemma Kebab_split_cut (token : jstr) :
  Kebab.splitOnCaseAndNumberTransitions token
  = match token with [] => [[]] | _ => cut caseDigitBoundary token end.
Proof.
  unfold Kebab.splitOnCaseAndNumberTransitions.
  destruct token as [|c t]; [reflexivity|].
  cbn [cut].
  pose proof (Kebab_loop_cut t (c :: t) [] [] c [] eq_refl) as L.
  cbn [length Nat.add app Nat.sub] in L |- *.
  rewrite ?Nat.sub_0_r. exact L.
Qed.

Lemma Dot_splitStep_rule (token pre cur : jstr) (prev c : char) (t : jstr)
    (st : Dot.splitter) :
  token = pre ++ cur ++ prev :: c :: t ->
  Dot.splitStep token st (length pre + length cur + 1) =
  if caseDigitBoundary prev c (hd_error t)
  then {| Dot.parts :=
            Dot.parts st
            ++ [JS.slice token (Dot.start st) (length pre + length cur + 1)];
          Dot.start := length pre + length cur + 1 |}
  else st.
Proof.
  intros E.
  assert (Ep : JS.charAt token (length pre + length cur + 1 - 1) = Some prev).
  { subst token. unfold JS.charAt.
    replace (length pre + length cur + 1 - 1) with (length (pre ++ cur))
      by (rewrite length_app; lia).
    rewrite app_assoc. apply nth_error_middle. }
  assert (Ec : JS.charAt token (length pre + length cur + 1) = Some c).
  { subst token. unfold JS.charAt.
    replace (length pre + length cur + 1) with (length (pre ++ cur ++ [prev]))
      by (rewrite !length_app; simpl; lia).
    replace (pre ++ cur ++ prev :: c :: t) with ((pre ++ cur ++ [prev]) ++ c :: t)
      by (rewrite <- !app_assoc; reflexivity).
    apply nth_error_middle. }
  unfold Dot.splitStep. rewrite Ep, Ec. rewrite !inRange_Some.
  unfold caseDigitBoundary, isLowerLetter, isUpperLetter, isAsciiDigit.
  destruct (between 97 122 prev), (between 65 90 c), (between 48 57 prev),
    (between 48 57 c); reflexivity.
Qed.

Lemma Dot_loop_cut (s : jstr) :
  forall (token pre cur : jstr) (prev : char) (ps : list jstr),
  token = pre ++ cur ++ prev :: s ->
  (let st := fold_left (Dot.splitStep token)
               (seq (length pre + length cur + 1) (length s))
               {| Dot.parts := ps; Dot.start := length pre |} in
   Dot.parts st ++ [JS.sliceFrom token (Dot.start st)])
  = ps ++ cutFrom caseDigitBoundary cur prev s.
Proof.
  induction s as [|c t IH]; intros token pre cur prev ps E.
  - simpl. subst token. now rewrite sliceFrom_app.
  - cbn [length seq fold_left cutFrom].
    rewrite (Dot_splitStep_rule token pre cur prev c t _ E).
    destruct (caseDigitBoundary prev c (hd_error t)).
    + cbn [Dot.parts Dot.start].
      assert (Es : JS.slice token (length pre) (length pre + length cur + 1)
                   = cur ++ [prev]).
      { subst token.
        replace (length pre + length cur + 1) with (length pre + length (cur ++ [prev]))
          by (rewrite length_app; simpl; lia).
        replace (pre ++ cur ++ prev :: c :: t) with (pre ++ (cur ++ [prev]) ++ c :: t)
          by (rewrite <- !app_assoc; reflexivity).
        apply slice_middle. }
      rewrite Es.
      assert (K : length (pre ++ cur ++ [prev]) = length pre + length cur + 1)
        by (rewrite !length_app; simpl; lia).
      rewrite <- K.
      replace (S (length (pre ++ cur ++ [prev])))
        with (length (pre ++ cur ++ [prev]) + length (@nil char) + 1)
        by (simpl; lia).
      rewrite (IH token (pre ++ cur ++ [prev]) [] c).
      * now rewrite <- app_assoc.
      * subst token. rewrite <- !app_assoc. reflexivity.
    + replace (S (length pre + length cur + 1))
        with (length pre + length (cur ++ [prev]) + 1)
        by (rewrite length_app; simpl; lia).
      apply IH. subst token. rewrite <- !app_assoc. reflexivity.
Qed.

(** The splitter of the dot converter cuts a token where the case or the
    digits change, and nowhere else. *)
Lemma Dot_split_cut (token : jstr) :
  Dot.splitOnCaseAndNumberTransitions token
  = match token with [] => [[]] | _ => cut caseDigitBoundary token end.
Proof.
  unfold Dot.splitOnCaseAndNumberTransitions.
  destruct token as [|c t]; [reflexivity|].
  cbn [cut].
  pose proof (Dot_loop_cut t (c :: t) [] [] c [] eq_refl) as L.
  cbn [length Nat.add app Nat.sub] in L |- *.
  rewrite ?Nat.sub_0_r. exact L.
Qed.

Lemma Dot_split_nonempty (token : jstr) :
  (length token =? 0) = false ->
  Dot.splitOnCaseAndNumberTransitions token = cut caseDigitBoundary token.
Proof.
  intros E. rewrite Dot_split_cut. destruct token; [discriminate E | reflexivity].
Qed.

(** ** The boundary rule in the three converters *)

(** C10. In the camel converter the splitter never consults its second
    parameter, and the list of words is the same whatever the value of the
    option preserveAcronyms: the option acts on the assembly only. *)
Theorem C10_tokens_independent_of_preserveAcronyms :
  (forall token,
     Camel.splitOnCaseAndNumberTransitions token true
     = Camel.splitOnCaseAndNumberTransitions token false)
  /\ (forall opts v working,
        Camel.tokenize
          {| preserveAcronyms := v;
             locale := locale opts;
             normalizeDiacritics := normalizeDiacritics opts;
             throwOnInvalid := throwOnInvalid opts;
             preserveNumbers := preserveNumbers opts;
             pascalCase := pascalCase opts |} working
        = Camel.tokenize opts working).
Proof.
  split.
  - intros token. now rewrite !Camel_split_cut.
  - intros opts v working. unfold Camel.tokenize, Camel.collectWords.
    generalize (@nil jstr) as words.
    induction (JS.split 32 working) as [|token raw IH]; intros words;
      [reflexivity|].
    cbn [fold_left]. rewrite IH. reflexivity.
Qed.

(** ** The errors of the engine

    A converter calls the engine with the locale of the options for every
    part that it puts in lower or in upper case. When the engine rejects
    the tag the first of these calls raises, and when it accepts it, or when
    no locale is given, the converter computes what the functions of the
    modules [KebabText], [DotText] and [CamelText] compute. *)

Lemma forEach_run (A B : Type) (body : A -> B -> result A) (g : A -> B -> A)
    (bad : B -> bool) (e : error) (l : list B) :
  (forall acc x, In x l ->
     body acc x = if bad x then Throw e else Return (g acc x)) ->
  forall acc,
    forEach body l acc
    = if existsb bad l then Throw e else Return (fold_left g l acc).
Proof.
  induction l as [|x rest IH]; intros Hb acc; [reflexivity|].
  cbn [forEach existsb fold_left]. rewrite (Hb acc x) by now left.
  destruct (bad x); [reflexivity|]. cbn [bind orb].
  apply IH. intros acc' y Hy. apply Hb. now right.
Qed.

Lemma mapEach_run (A B : Type) (f : A -> result B) (g : A -> B)
    (bad : A -> bool) (e : error) (l : list A) :
  (forall x, In x l -> f x = if bad x then Throw e else Return (g x)) ->
  mapEach f l = if existsb bad l then Throw e else Return (map g l).
Proof.
  induction l as [|x rest IH]; intros Hf; [reflexivity|].
  cbn [mapEach existsb map]. rewrite (Hf x) by now left.
  destruct (bad x); [reflexivity|]. cbn [bind orb].
  rewrite IH by (intros y Hy; apply Hf; now right).
  destruct (existsb bad rest); reflexivity.
Qed.

Lemma mapEach_ext (A B : Type) (f g : A -> result B) (l : list A) :
  (forall x, In x l -> f x = g x) -> mapEach f l = mapEach g l.
Proof.
  induction l as [|x rest IH]; intros Hf; [reflexivity|].
  cbn [mapEach]. rewrite (Hf x) by now left.
  rewrite IH by (intros y Hy; apply Hf; now right). reflexivity.
Qed.

Lemma existsb_and (A : Type) (b : bool) (p : A -> bool) (l : list A) :
  existsb (fun x => b && p x) l = b && existsb p l.
Proof.
  induction l as [|x rest IH]; simpl; [now rewrite andb_false_r|].
  rewrite IH. destruct b; reflexivity.
Qed.

Lemma existsb_false (A : Type) (l : list A) : existsb (fun _ => false) l = false.
Proof. induction l; simpl; auto. Qed.

Lemma toLocaleLowerCase_run {H : Host} (opts : Opts) (value : jstr) :
  match localeTag (locale opts) with
  | Some l => toLocaleLowerCase l value
  | None => Return (toLowerCase value)
  end
  = if localeRejected opts then Throw (localeError opts)
    else Return (match localeTag (locale opts) with
                 | Some l => localeLowerCase l value
                 | None => toLowerCase value
                 end).
Proof.
  unfold localeRejected, localeError, toLocaleLowerCase.
  destruct (localeTag (locale opts)) as [l|]; [|reflexivity].
  destruct (isStructurallyValidLanguageTag l); reflexivity.
Qed.

Lemma toLocaleUpperCase_run {H : Host} (opts : Opts) (value : jstr) :
  match localeTag (locale opts) with
  | Some l => toLocaleUpperCase l value
  | None => Return (toUpperCase value)
  end
  = if localeRejected opts then Throw (localeError opts)
    else Return (match localeTag (locale opts) with
                 | Some l => localeUpperCase l value
                 | None => toUpperCase value
                 end).
Proof.
  unfold localeRejected, localeError, toLocaleUpperCase.
  destruct (localeTag (locale opts)) as [l|]; [|reflexivity].
  destruct (isStructurallyValidLanguageTag l); reflexivity.
Qed.

(** The first segment of a token that is not empty is not empty. *)
Lemma cutFrom_head (rule : char -> char -> option char -> bool) (s : jstr) :
  forall cur prev,
    existsb (fun part => negb (length part =? 0)) (cutFrom rule cur prev s) = true.
Proof.
  induction s as [|x t IH]; intros cur prev; simpl.
  - rewrite length_app. simpl. rewrite Nat.add_1_r. reflexivity.
  - destruct (rule prev x (hd_error t)); [|apply IH].
    simpl. rewrite length_app. simpl. rewrite Nat.add_1_r. reflexivity.
Qed.

Lemma Kebab_split_word (token : jstr) :
  (length token =? 0) = false ->
  existsb (fun part => negb (length part =? 0))
    (Kebab.splitOnCaseAndNumberTransitions token) = true.
Proof.
  intros E. rewrite Kebab_split_cut.
  destruct token as [|c t]; [discriminate E|]. apply cutFrom_head.
Qed.

Lemma Dot_split_word (token : jstr) :
  (length token =? 0) = false ->
  existsb (fun part => negb (length part =? 0))
    (Dot.splitOnCaseAndNumberTransitions token) = true.
Proof.
  intros E. rewrite Dot_split_cut.
  destruct token as [|c t]; [discriminate E|]. apply cutFrom_head.
Qed.

Lemma Kebab_pushPart_run {H : Host} (opts : Opts) (outParts : list jstr)
    (part : jstr) :
  Kebab.pushPart opts outParts part
  = if localeRejected opts && negb (length part =? 0)
    then Throw (localeError opts)
    else Return (KebabText.pushPart opts outParts part).
Proof.
  unfold Kebab.pushPart, KebabText.pushPart.
  destruct (length part =? 0); [now rewrite andb_false_r|].
  rewrite toLocaleLowerCase_run, andb_true_r.
  destruct (localeRejected opts); reflexivity.
Qed.

Lemma Kebab_tokenStep_run {H : Host} (opts : Opts) (outParts : list jstr)
    (token : jstr) :
  Kebab.tokenStep opts outParts token
  = if localeRejected opts && isWord token
    then Throw (localeError opts)
    else Return (KebabText.tokenStep opts outParts token).
Proof.
  unfold Kebab.tokenStep, KebabText.tokenStep, isWord.
  destruct (length token =? 0) eqn:E0; [now rewrite andb_false_r|].
  destruct (JS.testDigits token); [now rewrite andb_false_r|].
  cbv zeta.
  rewrite (forEach_run _ _ _ (KebabText.pushPart opts)
             (fun part => localeRejected opts && negb (length part =? 0))
             (localeError opts))
    by (intros; apply Kebab_pushPart_run).
  now rewrite existsb_and, (Kebab_split_word token E0).
Qed.

Lemma Kebab_collectParts_run {H : Host} (opts : Opts) (tokens : list jstr) :
  Kebab.collectParts opts tokens
  = if localeRejected opts && existsb isWord tokens
    then Throw (localeError opts)
    else Return (KebabText.collectParts opts tokens).
Proof.
  unfold Kebab.collectParts, KebabText.collectParts.
  rewrite (forEach_run _ _ _ (KebabText.tokenStep opts)
             (fun token => localeRejected opts && isWord token)
             (localeError opts))
    by (intros; apply Kebab_tokenStep_run).
  now rewrite existsb_and.
Qed.

Lemma Kebab_convertText_run {H : Host} (opts : Opts) (input : jstr) :
  Kebab.convertText opts input
  = if localeRejected opts
       && existsb isWord (JS.split 32 (Kebab.clean opts input))
    then Throw (localeError opts)
    else Return (KebabText.convertText opts input).
Proof.
  unfold Kebab.convertText, KebabText.convertText, Kebab.tokenize,
    KebabText.tokenize. cbv zeta.
  destruct (Kebab.clean opts input) as [|c w] eqn:E.
  - cbn. now rewrite andb_false_r.
  - cbn [length Nat.eqb]. rewrite Kebab_collectParts_run.
    destruct (localeRejected opts && existsb isWord (JS.split 32 (c :: w)));
      reflexivity.
Qed.

Lemma Dot_pushPart_run {H : Host} (opts : Opts) (outParts : list jstr)
    (part : jstr) :
  Dot.pushPart opts outParts part
  = if localeRejected opts && negb (length part =? 0)
    then Throw (localeError opts)
    else Return (DotText.pushPart opts outParts part).
Proof.
  unfold Dot.pushPart, DotText.pushPart.
  destruct (length part =? 0); [now rewrite andb_false_r|].
  rewrite toLocaleLowerCase_run, andb_true_r.
  destruct (localeRejected opts); reflexivity.
Qed.

Lemma Dot_tokenStep_run {H : Host} (opts : Opts) (outParts : list jstr)
    (token : jstr) :
  Dot.tokenStep opts outParts token
  = if localeRejected opts && isWord token
    then Throw (localeError opts)
    else Return (DotText.tokenStep opts outParts token).
Proof.
  unfold Dot.tokenStep, DotText.tokenStep, isWord.
  destruct (length token =? 0) eqn:E0; [now rewrite andb_false_r|].
  destruct (JS.testDigits token); [now rewrite andb_false_r|].
  cbv zeta.
  rewrite (forEach_run _ _ _ (DotText.pushPart opts)
             (fun part => localeRejected opts && negb (length part =? 0))
             (localeError opts))
    by (intros; apply Dot_pushPart_run).
  now rewrite existsb_and, (Dot_split_word token E0).
Qed.

Lemma Dot_collectParts_run {H : Host} (opts : Opts) (tokens : list jstr) :
  Dot.collectParts opts tokens
  = if localeRejected opts && existsb isWord tokens
    then Throw (localeError opts)
    else Return (DotText.collectParts opts tokens).
Proof.
  unfold Dot.collectParts, DotText.collectParts.
  rewrite (forEach_run _ _ _ (DotText.tokenStep opts)
             (fun token => localeRejected opts && isWord token)
             (localeError opts))
    by (intros; apply Dot_tokenStep_run).
  now rewrite existsb_and.
Qed.

Lemma Dot_convertText_run {H : Host} (opts : Opts) (input : jstr) :
  Dot.convertText opts input
  = if localeRejected opts
       && existsb isWord (JS.split 32 (Dot.clean opts input))
    then Throw (localeError opts)
    else Return (DotText.convertText opts input).
Proof.
  unfold Dot.convertText, DotText.convertText, Dot.tokenize, DotText.tokenize.
  cbv zeta.
  destruct (Dot.clean opts input) as [|c w] eqn:E.
  - cbn. now rewrite andb_false_r.
  - cbn [length Nat.eqb]. rewrite Dot_collectParts_run.
    destruct (localeRejected opts && existsb isWord (JS.split 32 (c :: w)));
      reflexivity.
Qed.

Lemma Camel_lowerWithLocale_run {H : Host} (opts : Opts) (value : jstr) :
  Camel.lowerWithLocale opts value
  = if localeRejected opts then Throw (localeError opts)
    else Return (CamelText.lowerWithLocale opts value).
Proof. apply toLocaleLowerCase_run. Qed.

Lemma Camel_upperFirst_run {H : Host} (opts : Opts) (value : jstr) :
  Camel.upperFirst opts value
  = if localeRejected opts && negb (length value =? 0)
    then Throw (localeError opts)
    else Return (CamelText.upperFirst opts value).
Proof.
  unfold Camel.upperFirst, CamelText.upperFirst.
  destruct (length value =? 0); [now rewrite andb_false_r|].
  cbv zeta. rewrite toLocaleUpperCase_run, toLocaleLowerCase_run, andb_true_r.
  destruct (localeRejected opts); reflexivity.
Qed.

(** A step of the assembly raises nothing when the engine accepts the
    locale, and nothing for a word kept as an acronym. *)
Lemma Camel_assembleStep_run {H : Host} (opts : Opts)
    (words normalizedWords : list jstr) (acc : jstr) (k : nat) :
  localeRejected opts = false
  \/ Camel.keptAsAcronym opts (nth k words []) = true ->
  Camel.assembleStep opts words normalizedWords acc k
  = Return (CamelText.assembleStep opts words normalizedWords acc k).
Proof.
  intros Hk. unfold Camel.assembleStep, CamelText.assembleStep. cbv zeta.
  rewrite !Camel_upperFirst_run.
  destruct (k =? 0) eqn:E0.
  - apply Nat.eqb_eq in E0. subst k.
    destruct (Camel.keptAsAcronym opts (nth 0 words [])); [reflexivity|].
    destruct Hk as [Hk|Hk]; [|discriminate Hk]. rewrite Hk.
    destruct (truthy (pascalCase opts)); reflexivity.
  - destruct (Camel.keptAsAcronym opts (nth k words [])); [reflexivity|].
    destruct Hk as [Hk|Hk]; [|discriminate Hk]. now rewrite Hk.
Qed.

Lemma Camel_assemble_run {H : Host} (opts : Opts) (words : list jstr) :
  Camel.assemble opts words
  = if localeRejected opts
       && existsb (fun w => negb (Camel.keptAsAcronym opts w)) words
    then Throw (localeError opts)
    else Return (CamelText.assemble opts words).
Proof.
  unfold Camel.assemble, CamelText.assemble.
  rewrite (mapEach_run _ _ _
             (fun w => if Camel.keptAsAcronym opts w then w
                       else CamelText.lowerWithLocale opts w)
             (fun w => localeRejected opts && negb (Camel.keptAsAcronym opts w))
             (localeError opts))
    by (intros w _; rewrite Camel_lowerWithLocale_run;
        destruct (Camel.keptAsAcronym opts w), (localeRejected opts); reflexivity).
  rewrite existsb_and.
  destruct (localeRejected opts
            && existsb (fun w => negb (Camel.keptAsAcronym opts w)) words) eqn:B;
    [reflexivity|].
  cbn [bind]. cbv zeta.
  set (normalizedWords :=
         map (fun w => if Camel.keptAsAcronym opts w then w
                       else CamelText.lowerWithLocale opts w) words).
  rewrite (forEach_run _ _ _ (CamelText.assembleStep opts words normalizedWords)
             (fun _ => false) (localeError opts)).
  - now rewrite existsb_false.
  - intros acc k Hk. apply Camel_assembleStep_run.
    apply andb_false_iff in B. destruct B as [B|B]; [now left | right].
    apply in_seq in Hk. unfold normalizedWords in Hk. rewrite length_map in Hk.
    assert (Hin : In (nth k words []) words) by (apply nth_In; lia).
    destruct (Camel.keptAsAcronym opts (nth k words [])) eqn:K; [reflexivity|].
    assert (X : existsb (fun w => negb (Camel.keptAsAcronym opts w)) words = true).
    { apply existsb_exists. exists (nth k words []). now rewrite K. }
    rewrite X in B. discriminate B.
Qed.

Lemma Camel_convertText_run {H : Host} (opts : Opts) (input : jstr) :
  Camel.convertText opts input
  = if localeRejected opts
       && existsb (fun w => negb (Camel.keptAsAcronym opts w))
            (Camel.tokenize opts (Camel.clean opts input))
    then Throw (localeError opts)
    else Return (CamelText.convertText opts input).
Proof.
  unfold Camel.convertText, CamelText.convertText. cbv zeta.
  destruct (Camel.clean opts input) as [|c w] eqn:E.
  - cbn. now rewrite andb_false_r.
  - cbn [length Nat.eqb].
    destruct (Camel.tokenize opts (c :: w)) as [|word words] eqn:T.
    + cbn. now rewrite andb_false_r.
    + cbn [length Nat.eqb]. apply Camel_assemble_run.
Qed.

(** ** Validation of the options and of the input *)

Lemma coerceFlag_value (given : option value) (d : bool) :
  orDefault (coerceFlag given) (VBool d)
  = (if negb (isBoolean (orDefault given (VBool d)))
     then VBool (truthy (orDefault given (VBool d)))
     else orDefault given (VBool d)).
Proof.
  destruct given as [v|]; [|reflexivity].
  simpl. destruct (isBoolean v); reflexivity.
Qed.


Lemma coerceFlag_truthy (given : option value) (d : bool) :
  truthy (orDefault (coerceFlag given) (VBool d))
  = truthy (orDefault given (VBool d)).
Proof.
  destruct given as [v|]; [|reflexivity].
  simpl. destruct (isBoolean v); reflexivity.
Qed.

Lemma coerceLocale_value (given : option value) :
  orDefault (coerceLocale given) VUndefined
  = (if negb (isNullish (orDefault given VUndefined))
        && negb (isString (orDefault given VUndefined))
     then VUndefined else orDefault given VUndefined).
Proof.
  destruct given as [v|]; [|reflexivity].
  simpl. destruct (negb (isNullish v) && negb (isString v)); reflexivity.
Qed.


Lemma wrongFlag_default (given : option value) (d : bool) :
  negb (isBoolean (orDefault given (VBool d))) = wrongFlag given.
Proof. destruct given; reflexivity. Qed.

Lemma wrongLocale_default (given : option value) :
  negb (isNullish (orDefault given VUndefined))
  && negb (isString (orDefault given VUndefined)) = wrongLocale given.
Proof. destruct given; reflexivity. Qed.

Lemma coerceFlag_wrong (given : option value) (d : bool) :
  orDefault (coerceFlag given) (VBool d)
  = (if wrongFlag given
     then VBool (truthy (orDefault given (VBool d)))
     else orDefault given (VBool d)).
Proof. rewrite coerceFlag_value, wrongFlag_default. reflexivity. Qed.

Lemma coerceLocale_wrong (given : option value) :
  orDefault (coerceLocale given) VUndefined
  = (if wrongLocale given then VUndefined else orDefault given VUndefined).
Proof. rewrite coerceLocale_value, wrongLocale_default. reflexivity. Qed.

Lemma Camel_validateOptions_spec (o : OptionsArg) :
  Camel.validateOptions (Camel.defaults o)
  = if throwRequested o && wrongFlag (arg_preserveAcronyms o)
    then Throw (TypeError (optionMessage "preserveAcronyms" "boolean"))
    else if throwRequested o && wrongLocale (arg_locale o)
    then Throw (TypeError (optionMessage "locale" "string"))
    else if throwRequested o && wrongFlag (arg_normalizeDiacritics o)
    then Throw (TypeError (optionMessage "normalizeDiacritics" "boolean"))
    else Return (Camel.defaults (coerced camel o)).
Proof.
  destruct o as [pa loc nd toi pn pc].
  unfold Camel.validateOptions, Camel.defaults, throwRequested, coerced, bind.
  cbn [arg_preserveAcronyms arg_locale arg_normalizeDiacritics arg_throwOnInvalid
       arg_preserveNumbers arg_pascalCase preserveAcronyms locale
       normalizeDiacritics throwOnInvalid preserveNumbers pascalCase].
  rewrite !coerceFlag_wrong, coerceLocale_wrong.
  rewrite !wrongFlag_default.
  destruct (truthy (orDefault toi (VBool false))) eqn:T;
    destruct (wrongFlag pa) eqn:A; destruct (wrongLocale loc) eqn:L;
    destruct (wrongFlag nd) eqn:D;
    repeat (progress (cbn -[orDefault truthy wrongFlag wrongLocale];
                      rewrite ?wrongLocale_default, ?wrongFlag_default,
                        ?T, ?A, ?L, ?D));
    reflexivity.
Qed.

Lemma Kebab_validateOptions_spec (o : OptionsArg) :
  Kebab.validateOptions (Kebab.defaults o)
  = if throwRequested o && wrongLocale (arg_locale o)
    then Throw (TypeError (optionMessage "locale" "string"))
    else Return (Kebab.defaults (coerced kebab o)).
Proof.
  destruct o as [pa loc nd toi pn pc].
  unfold Kebab.validateOptions, Kebab.defaults, throwRequested, coerced, bind.
  cbn [arg_preserveAcronyms arg_locale arg_normalizeDiacritics arg_throwOnInvalid
       arg_preserveNumbers arg_pascalCase preserveAcronyms locale
       normalizeDiacritics throwOnInvalid preserveNumbers pascalCase].
  rewrite !coerceFlag_wrong, coerceLocale_wrong.
  rewrite ?wrongFlag_default.
  destruct (truthy (orDefault toi (VBool false))) eqn:T;
    destruct (wrongLocale loc) eqn:L;
    repeat (progress (cbn -[orDefault truthy wrongFlag wrongLocale];
                      rewrite ?wrongLocale_default, ?wrongFlag_default, ?T, ?L));
    reflexivity.
Qed.

Lemma Dot_validateOptions_spec (o : OptionsArg) :
  Dot.validateOptions (Dot.defaults o)
  = if throwRequested o && wrongLocale (arg_locale o)
    then Throw (TypeError (optionMessage "locale" "string"))
    else Return (Dot.defaults (coerced dot o)).
Proof.
  destruct o as [pa loc nd toi pn pc].
  unfold Dot.validateOptions, Dot.defaults, throwRequested, coerced, bind.
  cbn [arg_preserveAcronyms arg_locale arg_normalizeDiacritics arg_throwOnInvalid
       arg_preserveNumbers arg_pascalCase preserveAcronyms locale
       normalizeDiacritics throwOnInvalid preserveNumbers pascalCase].
  rewrite !coerceFlag_wrong, coerceLocale_wrong.
  rewrite ?wrongFlag_default.
  destruct (truthy (orDefault toi (VBool false))) eqn:T;
    destruct (wrongLocale loc) eqn:L;
    repeat (progress (cbn -[orDefault truthy wrongFlag wrongLocale];
                      rewrite ?wrongLocale_default, ?wrongFlag_default, ?T, ?L));
    reflexivity.
Qed.

Lemma coerceFlag_idem (given : option value) :
  coerceFlag (coerceFlag given) = coerceFlag given.
Proof.
  destruct given as [v|]; [|reflexivity].
  simpl. destruct (isBoolean v) eqn:E; simpl; [now rewrite E | reflexivity].
Qed.

Lemma coerceLocale_idem (given : option value) :
  coerceLocale (coerceLocale given) = coerceLocale given.
Proof.
  destruct given as [v|]; [|reflexivity].
  simpl. destruct (negb (isNullish v) && negb (isString v)) eqn:E; simpl;
    [reflexivity | now rewrite E].
Qed.

Lemma coerced_idem (st : style) (o : OptionsArg) :
  coerced st (coerced st o) = coerced st o.
Proof.
  destruct o as [pa loc nd toi pn pc].
  unfold coerced; destruct st; simpl;
    now rewrite ?coerceFlag_idem, ?coerceLocale_idem.
Qed.

Lemma wrongFlag_coerceFlag (given : option value) :
  wrongFlag (coerceFlag given) = false.
Proof.
  destruct given as [v|]; [|reflexivity].
  simpl. destruct (isBoolean v) eqn:E; simpl; [now rewrite E | reflexivity].
Qed.

Lemma wrongLocale_coerceLocale (given : option value) :
  wrongLocale (coerceLocale given) = false.
Proof.
  destruct given as [v|]; [|reflexivity].
  simpl. destruct (negb (isNullish v) && negb (isString v)) eqn:E; simpl;
    [reflexivity | exact E].
Qed.

Lemma throwRequested_coerced (st : style) (o : OptionsArg) :
  throwRequested (coerced st o) = throwRequested o.
Proof.
  unfold throwRequested, coerced. destruct st; simpl; apply coerceFlag_truthy.
Qed.

Lemma defaults_throwOnInvalid (st : style) (o : OptionsArg) :
  truthy (throwOnInvalid
            (match st with
             | camel => Camel.defaults (coerced st o)
             | kebab => Kebab.defaults (coerced st o)
             | dot => Dot.defaults (coerced st o)
             end)) = throwRequested o.
Proof.
  rewrite <- (throwRequested_coerced st o). destruct st; reflexivity.
Qed.

Lemma Camel_part_text {H : Host} (part : value) :
  (if isNullish part then Return []
   else if negb (isString part) then String_ part
   else match part with VString s => Return s | _ => String_ part end)
  = elementText part.
Proof. destruct part; reflexivity. Qed.

(** What a converter returns once its options are validated. *)
Lemma convert_unfold {H : Host} (st : style) (input : value) (o : OptionsArg) :
  convert st input o =
  if throwRequested o && checkedOptionWrong st o then
    match st with
    | camel =>
        if wrongFlag (arg_preserveAcronyms o)
        then Throw (TypeError (optionMessage "preserveAcronyms" "boolean"))
        else if wrongLocale (arg_locale o)
        then Throw (TypeError (optionMessage "locale" "string"))
        else Throw (TypeError (optionMessage "normalizeDiacritics" "boolean"))
    | kebab | dot => Throw (TypeError (optionMessage "locale" "string"))
    end
  else
    let text (s : jstr) :=
      match st with
      | camel => Camel.convertText (Camel.defaults (coerced st o)) s
      | kebab => Kebab.convertText (Kebab.defaults (coerced st o)) s
      | dot => Dot.convertText (Dot.defaults (coerced st o)) s
      end in
    match input with
    | VUndefined | VNull =>
        if throwRequested o
        then Throw (TypeError "Input is null or undefined")
        else Return []
    | VArray elems =>
        texts <- mapEach elementText elems ;; text (JS.join (js " ") texts)
    | VString s => text s
    | _ =>
        if throwRequested o
        then Throw (TypeError "Input must be a string or an array of strings")
        else Return []
    end.
Proof.
  pose proof (defaults_throwOnInvalid st o) as T.
  destruct st; unfold convert, checkedOptionWrong.
  - unfold Camel.toCamelCase. rewrite Camel_validateOptions_spec.
    destruct (throwRequested o) eqn:R; cbn [andb];
      destruct (wrongFlag (arg_preserveAcronyms o)); cbn [orb bind]; try reflexivity;
      destruct (wrongLocale (arg_locale o)); cbn [orb bind]; try reflexivity;
      destruct (wrongFlag (arg_normalizeDiacritics o)); cbn [orb bind];
      try reflexivity;
      rewrite T; destruct input; try reflexivity;
      rewrite (mapEach_ext _ _ _ elementText)
        by (intros part _; apply Camel_part_text);
      reflexivity.
  - unfold Kebab.toKebabCase. rewrite Kebab_validateOptions_spec.
    destruct (throwRequested o) eqn:R; cbn [andb];
      destruct (wrongLocale (arg_locale o)); cbn [orb bind]; try reflexivity;
      rewrite T; destruct input; reflexivity.
  - unfold Dot.toDotCase. rewrite Dot_validateOptions_spec.
    destruct (throwRequested o) eqn:R; cbn [andb];
      destruct (wrongLocale (arg_locale o)); cbn [orb bind]; try reflexivity;
      rewrite T; destruct input; reflexivity.
Qed.

Lemma convertText_run {H : Host} (st : style) (o : OptionsArg) (s : jstr) :
  match st with
  | camel => Camel.convertText (Camel.defaults (coerced st o)) s
  | kebab => Kebab.convertText (Kebab.defaults (coerced st o)) s
  | dot => Dot.convertText (Dot.defaults (coerced st o)) s
  end
  = if localeRejected (validated st o) && callsLocale st (validated st o) s
    then Throw (localeError (validated st o))
    else Return (converted st (validated st o) s).
Proof.
  destruct st;
    [apply Camel_convertText_run | apply Kebab_convertText_run
     | apply Dot_convertText_run].
Qed.

(** A call, step by step: the error of the first option that is wrong,
    when errors are asked for; else the rejection of an input that is
    neither a string nor an array; else the error of the first element whose
    printing raises; else the error of the engine for the locale, when the
    conversion calls it with a tag that it rejects; else the text. *)
Lemma convert_run {H : Host} (st : style) (input : value) (o : OptionsArg) :
  convert st input o =
  if throwRequested o && checkedOptionWrong st o then Throw (optionError st o)
  else if inputRejected input then
    if throwRequested o then Throw (TypeError (inputMessage input)) else Return []
  else
    s <- textOf input ;;
    if localeRejected (validated st o) && callsLocale st (validated st o) s
    then Throw (localeError (validated st o))
    else Return (converted st (validated st o) s).
Proof.
  rewrite convert_unfold.
  destruct (throwRequested o && checkedOptionWrong st o) eqn:B.
  - apply andb_true_iff in B. destruct B as [_ B]. revert B.
    unfold checkedOptionWrong, optionError, checkedFields, firstWrong.
    destruct st; cbn [find snd];
      destruct (wrongFlag (arg_preserveAcronyms o)),
        (wrongLocale (arg_locale o)), (wrongFlag (arg_normalizeDiacritics o));
      cbn [orb]; intros B; try discriminate B; reflexivity.
  - cbv zeta. destruct input; cbn [inputRejected textOf bind]; try reflexivity.
    + apply convertText_run.
    + destruct (mapEach elementText elems); cbn [bind];
        [apply convertText_run | reflexivity].
Qed.

Lemma validated_locale (st : style) (o : OptionsArg) :
  locale (validated st o) = orDefault (coerceLocale (arg_locale o)) VUndefined.
Proof. destruct st; reflexivity. Qed.

Lemma localeRejected_none {H : Host} (opts : Opts) :
  localeTag (locale opts) = None -> localeRejected opts = false.
Proof. unfold localeRejected. now intros ->. Qed.

(** A call on a string, with options that name no locale. *)
Lemma convert_noLocale {H : Host} (st : style) (s : jstr) (o : OptionsArg) :
  localeTag (orDefault (coerceLocale (arg_locale o)) VUndefined) = None ->
  convert st (VString s) o =
  if throwRequested o && checkedOptionWrong st o then Throw (optionError st o)
  else Return (converted st (validated st o) s).
Proof.
  intros Hl. rewrite convert_run. cbn [inputRejected textOf bind].
  rewrite localeRejected_none by now rewrite validated_locale.
  reflexivity.
Qed.

(** What a call on a string returns, when it returns. *)
Lemma convert_returns {H : Host} (st : style) (s : jstr) (o : OptionsArg)
    (r : jstr) :
  convert st (VString s) o = Return r ->
  r = match st with
      | camel => CamelText.convertText (Camel.defaults (coerced st o)) s
      | kebab => KebabText.convertText (Kebab.defaults (coerced st o)) s
      | dot => DotText.convertText (Dot.defaults (coerced st o)) s
      end.
Proof.
  rewrite convert_run. cbn [inputRejected textOf bind].
  destruct (throwRequested o && checkedOptionWrong st o); [discriminate|].
  destruct (localeRejected (validated st o)
            && callsLocale st (validated st o) s); [discriminate|].
  intros [= <-]. destruct st; reflexivity.
Qed.

(** A call on a string, without options. *)
Lemma convert_default_camel {H : Host} (s : jstr) :
  convert camel (VString s) noOptions
  = Return (CamelText.convertText (Camel.defaults noOptions) s).
Proof. now rewrite convert_noLocale. Qed.

Lemma convert_default_kebab {H : Host} (s : jstr) :
  convert kebab (VString s) noOptions
  = Return (KebabText.convertText (Kebab.defaults noOptions) s).
Proof. now rewrite convert_noLocale. Qed.

Lemma convert_default_dot {H : Host} (s : jstr) :
  convert dot (VString s) noOptions
  = Return (DotText.convertText (Dot.defaults noOptions) s).
Proof. now rewrite convert_noLocale. Qed.

Lemma checkedOptionWrong_coerced (st : style) (o : OptionsArg) :
  checkedOptionWrong st (coerced st o) = false.
Proof.
  unfold checkedOptionWrong, coerced; destruct st; cbn;
    now rewrite ?wrongFlag_coerceFlag, ?wrongLocale_coerceLocale.
Qed.

Lemma checked_someOptionWrong (st : style) (o : OptionsArg) :
  checkedOptionWrong st o = true -> someOptionWrong st o = true.
Proof.
  unfold checkedOptionWrong, someOptionWrong.
  destruct st, (wrongFlag (arg_preserveAcronyms o)), (wrongLocale (arg_locale o)),
    (wrongFlag (arg_normalizeDiacritics o)), (wrongFlag (arg_throwOnInvalid o)),
    (wrongFlag (arg_preserveNumbers o)); cbn; intros E; try reflexivity;
    discriminate E.
Qed.

Lemma checkedFields_named (st : style) (o : OptionsArg) :
  checkedOptionWrong st o = true ->
  exists field kind,
    In (field, kind, true) (checkedFields st o)
    /\ optionError st o = TypeError (optionMessage field kind).
Proof.
  unfold checkedOptionWrong, optionError, checkedFields, firstWrong.
  destruct st; cbn [find snd In];
    destruct (wrongFlag (arg_preserveAcronyms o)),
      (wrongLocale (arg_locale o)), (wrongFlag (arg_normalizeDiacritics o));
    cbn [orb]; intros B; try discriminate B; eauto 8.
Qed.

Lemma validated_coerced (st : style) (o : OptionsArg) :
  validated st (coerced st o) = validated st o.
Proof. unfold validated. now rewrite coerced_idem. Qed.


(** C2, as the code has it. With throwOnInvalid truthy, a converter raises
    a TypeError when an option that it checks has a value of the wrong type,
    the error of the first such option, whose name is in the message; or
    else when the input is null, absent or neither a text nor a sequence.
    Otherwise, that is with throwOnInvalid falsy, or with an input that is a
    text or a sequence and options that all have a value of their type, the
    converter itself raises nothing: a rejected input gives the empty text,
    a sequence is accepted whatever its elements are, and the only errors
    are those of the code it calls, which it does not catch: the error of an
    element whose printing raises, and the RangeError of the engine when
    the locale is a tag that the engine rejects and the conversion puts a
    word in lower case. With throwOnInvalid falsy the call is the one with
    every value of the wrong type replaced: a flag by its truth value, a
    locale by undefined. *)
Theorem C2_error_policy {H : Host} :
  forall (st : style) (input : value) (o : OptionsArg),
    (throwRequested o = true ->
     inputRejected input = true \/ checkedOptionWrong st o = true ->
     convert st input o
     = Throw (if checkedOptionWrong st o then optionError st o
              else TypeError (inputMessage input)))
    /\ (checkedOptionWrong st o = true ->
        exists field kind,
          In (field, kind, true) (checkedFields st o)
          /\ optionError st o = TypeError (optionMessage field kind))
    /\ (throwRequested o = false
        \/ (inputRejected input = false /\ someOptionWrong st o = false) ->
        (inputRejected input = true -> convert st input o = Return [])
        /\ (forall s,
              inputRejected input = false -> textOf input = Return s ->
              if localeRejected (validated st o)
                 && callsLocale st (validated st o) s
              then convert st input o = Throw (localeError (validated st o))
              else convert st input o
                   = Return (converted st (validated st o) s))
        /\ (forall e,
              inputRejected input = false -> textOf input = Throw e ->
              convert st input o = Throw e))
    /\ (throwRequested o = false ->
        convert st input o = convert st input (coerced st o)).
Proof.
  intros st input o.
  pose proof (convert_run st input o) as U.
  refine (conj _ (conj _ (conj _ _))).
  - intros R I. rewrite U, R. cbn [andb].
    destruct (checkedOptionWrong st o); [reflexivity|].
    destruct I as [I|I]; [|discriminate I]. now rewrite I.
  - apply checkedFields_named.
  - intros C.
    assert (B : throwRequested o && checkedOptionWrong st o = false).
    { destruct C as [C|[_ C]]; [now rewrite C|].
      destruct (checkedOptionWrong st o) eqn:W; [|apply andb_false_r].
      apply checked_someOptionWrong in W. rewrite W in C. discriminate C. }
    rewrite B in U.
    refine (conj _ (conj _ _)).
    + intros I. rewrite I in U. rewrite U.
      destruct (throwRequested o) eqn:R; [|reflexivity].
      destruct C as [C|[C _]]; [discriminate C|]. rewrite C in I. discriminate I.
    + intros s I E. rewrite I, E in U. cbn [bind] in U.
      destruct (localeRejected (validated st o)
                && callsLocale st (validated st o) s); exact U.
    + intros e I E. rewrite I, E in U. exact U.
  - intros R. rewrite U, convert_run.
    rewrite throwRequested_coerced, checkedOptionWrong_coerced,
      validated_coerced, R.
    reflexivity.
Qed.



Lemma C2_witness :
  @convert asciiHost camel VNull (withThrowOnInvalid (VBool true))
  = Throw (TypeError "Input is null or undefined").
Proof.
  apply (proj1 (@C2_error_policy asciiHost camel VNull
                  (withThrowOnInvalid (VBool true)))).
  - reflexivity.
  - left. reflexivity.
Defined.

(** C2 as it is stated fails three times. A sequence whose element is a
    number is not a sequence of texts, and with throwOnInvalid true it is
    converted, not rejected. A value of the wrong type for preserveNumbers
    is replaced by its truth value, not by the default of the option: with
    0 the number token is dropped, with the default it is kept. And with
    throwOnInvalid absent an error surfaces: the locale en_US is a string,
    so the converter accepts it, and the engine, which wants en-US, raises
    a RangeError at the first word that is put in lower case. *)
Lemma C2_counterexample :
  (isTextual (VArray [VNumber 42]) = false
   /\ throwRequested (withThrowOnInvalid (VBool true)) = true
   /\ @convert asciiHost kebab (VArray [VNumber 42]) (withThrowOnInvalid (VBool true))
      = Return (js "42"))
  /\ (wrongFlag (arg_preserveNumbers (withPreserveNumbers (VNumber 0))) = true
      /\ @convert asciiHost kebab (VString (js "a 1")) (withPreserveNumbers (VNumber 0))
         = Return (js "a")
      /\ @convert asciiHost kebab (VString (js "a 1")) noOptions
         = Return (js "a-1"))
  /\ (throwRequested (withLocale (js "en_US")) = false
      /\ someOptionWrong kebab (withLocale (js "en_US")) = false
      /\ @convert asciiHost kebab (VString (js "A")) (withLocale (js "en_US"))
         = Throw (RangeError (js "en_US"))).
Proof. repeat split; vm_compute; reflexivity. Qed.

(** ** Where the characters of a result come from *)

Lemma list_pair_ind (A : Type) (P : list A -> Prop) :
  P [] -> (forall a, P [a]) ->
  (forall a b t, P t -> P (b :: t) -> P (a :: b :: t)) ->
  forall l, P l.
Proof.
  intros H0 H1 H2 l.
  enough (P l /\ forall a, P (a :: l)) by tauto.
  induction l as [|b t [IHt IHbt]]; split; auto.
Qed.

Lemma replaceRunsFrom_In (cls : char -> bool) (s : jstr) :
  forall (b : bool) (c : char),
    In c (JS.replaceRunsFrom cls b s) ->
    c = 32%N \/ (In c s /\ cls c = false).
Proof.
  induction s as [|x t IH]; intros b c; simpl; [tauto|].
  destruct (cls x) eqn:E.
  - destruct b; simpl.
    + intros Hc. apply IH in Hc. destruct Hc as [Hc|[Hc Hn]]; auto.
    + intros [Hc|Hc]; [now left|].
      apply IH in Hc. destruct Hc as [Hc|[Hc Hn]]; auto.
  - simpl. intros [Hc|Hc].
    + subst c. right. split; auto.
    + apply IH in Hc. destruct Hc as [Hc|[Hc Hn]]; auto.
Qed.

Lemma deleteCodePoints_plain (cls : N -> bool) (h : char) (t : jstr) :
  JS.isHighSurrogate h = false ->
  JS.deleteCodePoints cls (h :: t)
  = if cls h then JS.deleteCodePoints cls t else h :: JS.deleteCodePoints cls t.
Proof.
  intros E. destruct t as [|l t']; simpl; rewrite ?E; reflexivity.
Qed.

Lemma deleteCodePoints_In (cls : N -> bool) (s : jstr) :
  forall c, In c (JS.deleteCodePoints cls s) -> In c s.
Proof.
  induction s as [|a|a b t IHt IHbt] using list_pair_ind; intros c.
  - simpl. tauto.
  - simpl. destruct (cls a); simpl; tauto.
  - change (JS.deleteCodePoints cls (a :: b :: t))
      with (if JS.isHighSurrogate a && JS.isLowSurrogate b
            then if cls (JS.codePoint a b) then JS.deleteCodePoints cls t
                 else a :: b :: JS.deleteCodePoints cls t
            else if cls a then JS.deleteCodePoints cls (b :: t)
                 else a :: JS.deleteCodePoints cls (b :: t)).
    destruct (JS.isHighSurrogate a && JS.isLowSurrogate b).
    + destruct (cls (JS.codePoint a b)).
      * intros Hc. right. right. now apply IHt.
      * intros [Hc|[Hc|Hc]]; [now left | right; now left |].
        right. right. now apply IHt.
    + destruct (cls a).
      * intros Hc. right. now apply IHbt.
      * intros [Hc|Hc]; [now left|]. right. now apply IHbt.
Qed.

Lemma dropWhile_In (p : char -> bool) (s : jstr) :
  forall c, In c (JS.dropWhile p s) -> In c s.
Proof.
  induction s as [|x t IH]; intros c; simpl; [tauto|].
  destruct (p x); simpl; auto.
Qed.

Lemma trim_In (s : jstr) : forall c, In c (JS.trim s) -> In c s.
Proof.
  intros c Hc. unfold JS.trim in Hc.
  apply in_rev in Hc. apply dropWhile_In in Hc.
  apply in_rev in Hc. now apply dropWhile_In in Hc.
Qed.

Lemma split_In (sep : N) (s : jstr) :
  forall p c, In p (JS.split sep s) -> In c p -> In c s /\ c <> sep.
Proof.
  induction s as [|x t IH]; intros p c; simpl.
  - intros [<-|[]] [].
  - destruct (N.eqb_spec x sep) as [E|E].
    + intros [<-|Hp] Hc; [destruct Hc|].
      destruct (IH p c Hp Hc). auto.
    + destruct (JS.split sep t) as [|h r] eqn:S.
      * intros [<-|[]] [<-|[]]. auto.
      * intros [<-|Hp] Hc.
        -- destruct Hc as [<-|Hc]; [auto|].
           destruct (IH h c (or_introl eq_refl) Hc). auto.
        -- destruct (IH p c (or_intror Hp) Hc). auto.
Qed.

Lemma cutFrom_In (rule : char -> char -> option char -> bool) (s : jstr) :
  forall cur prev seg,
    In seg (cutFrom rule cur prev s) ->
    seg <> [] /\ forall c, In c seg -> In c (cur ++ prev :: s).
Proof.
  induction s as [|x t IH]; intros cur prev seg; simpl.
  - intros [<-|[]]. split; [now destruct cur | auto].
  - destruct (rule prev x (hd_error t)).
    + intros [<-|Hs].
      * split; [now destruct cur|].
        intros c Hc. apply in_app_iff in Hc. apply in_app_iff.
        destruct Hc as [Hc|[<-|[]]]; simpl; auto.
      * destruct (IH [] x seg Hs) as [Hn Hc]. split; [exact Hn|].
        intros c Hin. apply Hc in Hin. apply in_app_iff. right. now right.
    + intros Hs. destruct (IH (cur ++ [prev]) x seg Hs) as [Hn Hc].
      split; [exact Hn|].
      intros c Hin. apply Hc in Hin. rewrite <- app_assoc in Hin. exact Hin.
Qed.

Lemma cut_In (rule : char -> char -> option char -> bool) (token seg : jstr) :
  In seg (cut rule token) ->
  seg <> [] /\ forall c, In c seg -> In c token.
Proof.
  destruct token as [|x t]; [intros []|]. apply cutFrom_In.
Qed.

Lemma Camel_pushParts_nonempty (segs : list jstr) :
  forall words,
    Forall (fun seg => seg <> []) segs ->
    fold_left Camel.pushPart segs words = words ++ segs.
Proof.
  induction segs as [|seg segs IH]; intros words Hs; simpl.
  - now rewrite app_nil_r.
  - inversion Hs as [|? ? Hn Hrest]; subst.
    rewrite IH by exact Hrest. unfold Camel.pushPart.
    destruct seg as [|x seg']; [contradiction|].
    cbn [length Nat.eqb]. now rewrite <- app_assoc.
Qed.

(** C1, as the code has it. The declaration of line 91 applies the three
    rules of the specification and cuts the token XMLHttpRequest into XML,
    Http and Request, but no call runs it: the declaration of line 323
    replaces it. The splitters that run, the one of the kebab converter and
    the one of line 323 for the dot and the camel converters, compute
    whether the two characters are capitals and never use it: they cut
    where the case goes from lower to upper or where the digits start or
    end, and lack the rule of the acronyms. The three converters cut
    XMLHttpRequest into XMLHttp and Request. *)
Theorem C1_no_converter_runs_the_acronym_rule :
  (forall token pa,
     Camel.splitOnCaseAndNumberTransitions token pa = cut specBoundary token)
  /\ (forall token,
        Kebab.splitOnCaseAndNumberTransitions token
        = match token with [] => [[]] | _ => cut caseDigitBoundary token end
        /\ Dot.splitOnCaseAndNumberTransitions token
           = match token with [] => [[]] | _ => cut caseDigitBoundary token end)
  /\ (forall opts words token,
        token <> [] -> JS.testDigits token = false ->
        Camel.wordsStep opts words token
        = words ++ cut caseDigitBoundary token)
  /\ Camel.splitOnCaseAndNumberTransitions (js "XMLHttpRequest") false
     = [js "XML"; js "Http"; js "Request"]
  /\ Kebab.splitOnCaseAndNumberTransitions (js "XMLHttpRequest")
     = [js "XMLHttp"; js "Request"]
  /\ Dot.splitOnCaseAndNumberTransitions (js "XMLHttpRequest")
     = [js "XMLHttp"; js "Request"]
  /\ Camel.tokenize (Camel.defaults noOptions) (js "XMLHttpRequest")
     = [js "XMLHttp"; js "Request"]
  /\ @convert asciiHost kebab (VString (js "XMLHttpRequest")) noOptions
     = Return (js "xmlhttp-request")
  /\ @convert asciiHost dot (VString (js "XMLHttpRequest")) noOptions
     = Return (js "xmlhttp.request")
  /\ @convert asciiHost camel (VString (js "XMLHttpRequest")) noOptions
     = Return (js "xmlhttpRequest").
Proof.
  split; [exact Camel_split_cut|].
  split; [intros token; split; [apply Kebab_split_cut | apply Dot_split_cut]|].
  split.
  { intros opts words token Hn Hd. unfold Camel.wordsStep.
    destruct token as [|c t]; [contradiction|].
    cbn [length Nat.eqb]. rewrite Hd, Dot_split_cut.
    apply Camel_pushParts_nonempty. apply Forall_forall.
    intros seg Hs. now apply cut_In in Hs. }
  repeat split; vm_compute; reflexivity.
Qed.

Lemma C1_witness :
  Camel.wordsStep (Camel.defaults noOptions) [] (js "XMLHttpRequest")
  = [] ++ cut caseDigitBoundary (js "XMLHttpRequest").
Proof.
  apply (proj1 (proj2 (proj2 C1_no_converter_runs_the_acronym_rule)));
    [discriminate | reflexivity].
Defined.

Lemma join_In (sep : jstr) (parts : list jstr) :
  forall c, In c (JS.join sep parts) ->
            In c sep \/ exists p, In p parts /\ In c p.
Proof.
  induction parts as [|p rest IH]; intros c; [intros []|].
  destruct rest as [|q rest].
  - simpl. intros Hc. right. exists p. auto.
  - change (JS.join sep (p :: q :: rest)) with (p ++ sep ++ JS.join sep (q :: rest)).
    intros Hc. apply in_app_iff in Hc. destruct Hc as [Hc|Hc].
    + right. exists p. split; [now left | exact Hc].
    + apply in_app_iff in Hc. destruct Hc as [Hc|Hc]; [now left|].
      apply IH in Hc. destruct Hc as [Hc|[p' [Hp Hc]]]; [now left|].
      right. exists p'. split; [now right | exact Hc].
Qed.

(** ** No separator survives the cleaning, the tokenisation or a case mapping *)

Lemma noSeparator_spec (s : jstr) :
  noSeparator s = true <-> forall c, In c s -> separatorClass c = false.
Proof.
  unfold noSeparator. rewrite forallb_forall. split; intros Hs c Hc.
  - apply Hs in Hc. now apply negb_true_iff in Hc.
  - apply negb_true_iff. now apply Hs.
Qed.

Lemma noSeparator_app (a b : jstr) :
  noSeparator (a ++ b) = noSeparator a && noSeparator b.
Proof. apply forallb_app. Qed.

Lemma cleaned_chars {H : Host} (w : jstr) (c : char) :
  In c (JS.replaceRuns JS.isWhiteSpace
          (JS.trim (JS.deleteCodePoints punctuationClass
                      (JS.replaceRuns separatorClass w)))) ->
  c = 32%N \/ separatorClass c = false.
Proof.
  intros Hc. apply replaceRunsFrom_In in Hc. destruct Hc as [Hc|[Hc _]]; [now left|].
  apply trim_In, deleteCodePoints_In, replaceRunsFrom_In in Hc.
  destruct Hc as [Hc|[_ Hc]]; auto.
Qed.

Lemma rawTokens_noSeparator {H : Host} (w token : jstr) :
  In token
    (JS.split 32
       (JS.replaceRuns JS.isWhiteSpace
          (JS.trim (JS.deleteCodePoints punctuationClass
                      (JS.replaceRuns separatorClass w))))) ->
  noSeparator token = true.
Proof.
  intros Ht. apply noSeparator_spec. intros c Hc.
  destruct (split_In _ _ _ _ Ht Hc) as [Hw Hn].
  apply cleaned_chars in Hw. destruct Hw as [Hw|Hw]; [contradiction | exact Hw].
Qed.

Lemma cut_goodPart (rule : char -> char -> option char -> bool) (token seg : jstr) :
  noSeparator token = true -> In seg (cut rule token) -> goodPart seg.
Proof.
  intros Ht Hs. apply cut_In in Hs. destruct Hs as [Hn Hc]. split; [exact Hn|].
  apply noSeparator_spec. intros c Hin.
  apply (proj1 (noSeparator_spec token) Ht). now apply Hc.
Qed.

Lemma fold_left_Forall (A B : Type) (P : A -> Prop) (f : list A -> B -> list A)
    (l : list B) :
  (forall acc b, In b l -> Forall P acc -> Forall P (f acc b)) ->
  forall acc, Forall P acc -> Forall P (fold_left f l acc).
Proof.
  induction l as [|b l IH]; intros Hf acc Ha; [exact Ha|].
  simpl. apply IH.
  - intros acc' b' Hb. apply Hf. now right.
  - apply Hf; [now left | exact Ha].
Qed.

Lemma Forall_snoc (A : Type) (P : A -> Prop) (l : list A) (x : A) :
  Forall P l -> P x -> Forall P (l ++ [x]).
Proof. intros Hl Hx. apply Forall_app. split; [exact Hl | now constructor]. Qed.

Lemma testDigits_nonempty (s : jstr) : JS.testDigits s = true -> s <> [].
Proof. now destruct s. Qed.


Lemma lowered_goodPart {H : Host} {ok : HostOk H} (tag : option jstr) (part : jstr) :
  goodPart part ->
  goodPart (match tag with
            | Some l => localeLowerCase l part
            | None => toLowerCase part
            end).
Proof.
  intros [Hn Hs]. destruct tag as [l|]; split.
  - intros E. now apply localeLower_nonempty in E.
  - now apply localeLower_noSeparator.
  - intros E. now apply lower_nonempty in E.
  - now apply lower_noSeparator.
Qed.

Lemma Kebab_collectParts_good {H : Host} {ok : HostOk H} (opts : Opts)
    (tokens : list jstr) :
  (forall t, In t tokens -> noSeparator t = true) ->
  Forall goodPart (KebabText.collectParts opts tokens).
Proof.
  intros Ht. unfold KebabText.collectParts.
  apply fold_left_Forall; [|constructor].
  intros acc token Hin Hacc. unfold KebabText.tokenStep.
  destruct (length token =? 0) eqn:E0; [exact Hacc|].
  destruct (JS.testDigits token) eqn:Ed.
  - destruct (truthy (preserveNumbers opts)); [|exact Hacc].
    apply Forall_snoc; [exact Hacc|]. split; [now apply testDigits_nonempty | auto].
  - rewrite Kebab_split_cut.
    destruct token as [|x t] eqn:Et; [discriminate E0|]. rewrite <- Et in *.
    apply fold_left_Forall; [|exact Hacc].
    intros acc' part Hp Hacc'. unfold KebabText.pushPart.
    destruct (length part =? 0); [exact Hacc'|].
    apply Forall_snoc; [exact Hacc'|].
    apply lowered_goodPart. apply (cut_goodPart caseDigitBoundary token); auto.
Qed.

Lemma Dot_collectParts_good {H : Host} {ok : HostOk H} (opts : Opts)
    (tokens : list jstr) :
  (forall t, In t tokens -> noSeparator t = true) ->
  Forall goodPart (DotText.collectParts opts tokens).
Proof.
  intros Ht. unfold DotText.collectParts.
  apply fold_left_Forall; [|constructor].
  intros acc token Hin Hacc. unfold DotText.tokenStep.
  destruct (length token =? 0) eqn:E0; [exact Hacc|].
  destruct (JS.testDigits token) eqn:Ed.
  - destruct (truthy (preserveNumbers opts)); [|exact Hacc].
    apply Forall_snoc; [exact Hacc|]. split; [now apply testDigits_nonempty | auto].
  - rewrite Dot_split_cut.
    destruct token as [|x t] eqn:Et; [discriminate E0|]. rewrite <- Et in *.
    apply fold_left_Forall; [|exact Hacc].
    intros acc' part Hp Hacc'. unfold DotText.pushPart.
    destruct (length part =? 0); [exact Hacc'|].
    apply Forall_snoc; [exact Hacc'|].
    apply lowered_goodPart. apply (cut_goodPart caseDigitBoundary token); auto.
Qed.

Lemma startsWith_In (j : char) (s : jstr) : startsWith j s = true -> In j s.
Proof.
  destruct s as [|c t]; [discriminate|]. simpl. intros E.
  apply N.eqb_eq in E. now left.
Qed.

Lemma startsWith_app (j : char) (a b : jstr) :
  a <> [] -> startsWith j (a ++ b) = startsWith j a.
Proof. now destruct a. Qed.

Lemma goodPart_not_separator (j : char) (p : jstr) :
  separatorClass j = true -> goodPart p -> ~ In j p.
Proof.
  intros Hj [_ Hp] Hin.
  apply (proj1 (noSeparator_spec p) Hp) in Hin. congruence.
Qed.

Lemma join_nonempty (sep : jstr) (p : jstr) (rest : list jstr) :
  p <> [] -> JS.join sep (p :: rest) <> [].
Proof.
  intros Hp. destruct rest as [|q rest]; [exact Hp|].
  change (JS.join sep (p :: q :: rest)) with (p ++ sep ++ JS.join sep (q :: rest)).
  now destruct p.
Qed.

(** The parts joined with a separator: the joiner is the only separator of
    the text, and the text neither starts nor ends with it. *)
Lemma join_goodParts (j : char) (parts : list jstr) :
  separatorClass j = true ->
  Forall goodPart parts ->
  (forall c, In c (JS.join [j] parts) -> separatorClass c = true -> c = j)
  /\ startsWith j (JS.join [j] parts) = false
  /\ endsWith j (JS.join [j] parts) = false.
Proof.
  intros Hj Hparts. split; [|split].
  - intros c Hc Hsep. apply join_In in Hc.
    destruct Hc as [[Hc|[]]|[p [Hp Hc]]]; [now symmetry|].
    rewrite Forall_forall in Hparts. destruct (Hparts p Hp) as [_ Hns].
    apply (proj1 (noSeparator_spec p) Hns) in Hc. congruence.
  - destruct parts as [|p rest]; [reflexivity|].
    inversion Hparts as [|? ? Hp Hrest]; subst.
    destruct (startsWith j (JS.join [j] (p :: rest))) eqn:E; [|reflexivity].
    exfalso. apply (goodPart_not_separator j p Hj Hp).
    destruct rest as [|q rest].
    + now apply startsWith_In.
    + change (JS.join [j] (p :: q :: rest))
        with (p ++ [j] ++ JS.join [j] (q :: rest)) in E.
      rewrite startsWith_app in E by apply Hp. now apply startsWith_In.
  - unfold endsWith.
    induction Hparts as [|p rest Hp Hrest IH]; [reflexivity|].
    destruct rest as [|q rest].
    + destruct (startsWith j (rev (JS.join [j] [p]))) eqn:E; [|reflexivity].
      exfalso. apply (goodPart_not_separator j p Hj Hp).
      apply startsWith_In in E. now apply in_rev in E.
    + change (JS.join [j] (p :: q :: rest))
        with (p ++ [j] ++ JS.join [j] (q :: rest)).
      rewrite !rev_app_distr, <- app_assoc.
      rewrite startsWith_app; [exact IH|].
      inversion Hrest as [|? ? Hq _]; subst.
      intros E. apply (f_equal (@rev char)) in E. rewrite rev_involutive in E.
      now apply (join_nonempty [j] q rest (proj1 Hq)).
Qed.

Lemma Camel_collectWords_good (opts : Opts) (rawTokens : list jstr) :
  (forall t, In t rawTokens -> noSeparator t = true) ->
  Forall goodPart (Camel.collectWords opts rawTokens).
Proof.
  intros Ht. unfold Camel.collectWords.
  apply fold_left_Forall; [|constructor].
  intros acc token Hin Hacc. unfold Camel.wordsStep.
  destruct (length token =? 0) eqn:E0; [exact Hacc|].
  destruct (JS.testDigits token) eqn:Ed.
  - destruct (truthy (preserveNumbers opts)); [|exact Hacc].
    apply Forall_snoc; [exact Hacc|]. split; [now apply testDigits_nonempty | auto].
  - rewrite (Dot_split_nonempty token E0).
    apply fold_left_Forall; [|exact Hacc].
    intros acc' part Hp Hacc'. unfold Camel.pushPart.
    destruct (length part =? 0); [exact Hacc'|].
    apply Forall_snoc; [exact Hacc'|].
    apply (cut_goodPart caseDigitBoundary token); auto.
Qed.

Lemma firstn_In (A : Type) (n : nat) (l : list A) (x : A) :
  In x (firstn n l) -> In x l.
Proof.
  intros Hx. rewrite <- (firstn_skipn n l). apply in_or_app. now left.
Qed.

Lemma skipn_In (A : Type) (n : nat) (l : list A) (x : A) :
  In x (skipn n l) -> In x l.
Proof.
  intros Hx. rewrite <- (firstn_skipn n l). apply in_or_app. now right.
Qed.

Lemma noSeparator_firstn (n : nat) (s : jstr) :
  noSeparator s = true -> noSeparator (firstn n s) = true.
Proof.
  intros Hs. apply noSeparator_spec. intros c Hc.
  apply (proj1 (noSeparator_spec s) Hs). revert Hc. apply firstn_In.
Qed.

Lemma noSeparator_skipn (n : nat) (s : jstr) :
  noSeparator s = true -> noSeparator (skipn n s) = true.
Proof.
  intros Hs. apply noSeparator_spec. intros c Hc.
  apply (proj1 (noSeparator_spec s) Hs). revert Hc. apply skipn_In.
Qed.

Lemma Camel_lowerWithLocale_noSeparator {H : Host} {ok : HostOk H}
    (opts : Opts) (w : jstr) :
  noSeparator w = true -> noSeparator (CamelText.lowerWithLocale opts w) = true.
Proof.
  intros Hw. unfold CamelText.lowerWithLocale.
  destruct (localeTag (locale opts));
    [now apply localeLower_noSeparator | now apply lower_noSeparator].
Qed.

Lemma Camel_upperFirst_noSeparator {H : Host} {ok : HostOk H}
    (opts : Opts) (w : jstr) :
  noSeparator w = true -> noSeparator (CamelText.upperFirst opts w) = true.
Proof.
  intros Hw. unfold CamelText.upperFirst.
  destruct (length w =? 0); [exact Hw|].
  rewrite noSeparator_app. apply andb_true_iff. unfold JS.slice, JS.sliceFrom.
  split; destruct (localeTag (locale opts));
    auto using localeUpper_noSeparator, upper_noSeparator,
      localeLower_noSeparator, lower_noSeparator,
      noSeparator_firstn, noSeparator_skipn.
Qed.

Lemma nth_noSeparator (k : nat) (l : list jstr) :
  (forall w, In w l -> noSeparator w = true) -> noSeparator (nth k l []) = true.
Proof.
  intros Hl. destruct (nth_in_or_default k l []) as [Hin|E]; [auto|].
  now rewrite E.
Qed.

Lemma Camel_assemble_noSeparator {H : Host} {ok : HostOk H}
    (opts : Opts) (words : list jstr) :
  (forall w, In w words -> noSeparator w = true) ->
  noSeparator (CamelText.assemble opts words) = true.
Proof.
  intros Hw. unfold CamelText.assemble.
  set (normalizedWords :=
         map (fun w => if Camel.keptAsAcronym opts w then w
                       else CamelText.lowerWithLocale opts w) words).
  assert (Hn : forall w, In w normalizedWords -> noSeparator w = true).
  { intros w Hin. apply in_map_iff in Hin. destruct Hin as [w0 [<- Hin]].
    destruct (Camel.keptAsAcronym opts w0);
      [auto | apply Camel_lowerWithLocale_noSeparator; auto]. }
  generalize (seq 0 (length normalizedWords)) as ks.
  assert (G : forall ks acc, noSeparator acc = true ->
              noSeparator (fold_left (CamelText.assembleStep opts words normalizedWords)
                             ks acc) = true).
  { induction ks as [|k ks IH]; intros acc Ha; [exact Ha|].
    simpl. apply IH. unfold CamelText.assembleStep.
    pose proof (nth_noSeparator k words Hw) as Hk.
    pose proof (nth_noSeparator 0 words Hw) as H0.
    pose proof (nth_noSeparator k normalizedWords Hn) as Hnk.
    pose proof (Camel_upperFirst_noSeparator opts _ Hnk) as Hu.
    destruct (k =? 0);
      repeat match goal with
             | |- context [if ?b then _ else _] => destruct b
             end;
      rewrite noSeparator_app, Ha; simpl; assumption. }
  intros ks. now apply G.
Qed.

(** ** The reference engine is an engine *)

Ltac decide_comparisons :=
  repeat match goal with
         | |- context [N.leb ?a ?b] => destruct (N.leb_spec a b); try lia
         | |- context [N.eqb ?a ?b] => destruct (N.eqb_spec a b); try lia
         | |- context [N.ltb ?a ?b] => destruct (N.ltb_spec a b); try lia
         end.

Lemma separatorClass_asciiLower (c : char) :
  separatorClass c = false -> separatorClass (asciiLower c) = false.
Proof.
  unfold asciiLower, between.
  destruct (N.leb_spec 65 c); [destruct (N.leb_spec c 90)|]; simpl; auto.
  intros _. unfold separatorClass, JS.isWhiteSpace, between.
  decide_comparisons; reflexivity.
Qed.

Lemma separatorClass_asciiUpper (c : char) :
  separatorClass c = false -> separatorClass (asciiUpper c) = false.
Proof.
  unfold asciiUpper, between.
  destruct (N.leb_spec 97 c); [destruct (N.leb_spec c 122)|]; simpl; auto.
  intros _. unfold separatorClass, JS.isWhiteSpace, between.
  decide_comparisons; reflexivity.
Qed.

Lemma noSeparator_map (f : char -> char) (s : jstr) :
  (forall c, separatorClass c = false -> separatorClass (f c) = false) ->
  noSeparator s = true -> noSeparator (map f s) = true.
Proof.
  intros Hf Hs. apply noSeparator_spec. intros c Hc.
  apply in_map_iff in Hc. destruct Hc as [c0 [<- Hc]].
  apply Hf. now apply (proj1 (noSeparator_spec s) Hs).
Qed.

Lemma asciiHost_ok : HostOk asciiHost.
Proof.
  constructor; cbn; intros; try reflexivity;
    auto using noSeparator_map, separatorClass_asciiLower, separatorClass_asciiUpper;
    eauto using map_eq_nil.
Qed.

Lemma dottedLower_ascii (s : jstr) :
  allAscii s = true -> flat_map dottedLower s = map asciiLower s.
Proof.
  induction s as [|c t IH]; intros Hs; [reflexivity|].
  simpl in Hs. apply andb_true_iff in Hs. destruct Hs as [Hc Ht].
  simpl. rewrite IH by exact Ht. unfold dottedLower.
  unfold isAscii in Hc. apply N.ltb_lt in Hc.
  destruct (N.eqb_spec c 0x130); [lia | reflexivity].
Qed.

Lemma dottedLower_noSeparator (s : jstr) :
  noSeparator s = true -> noSeparator (flat_map dottedLower s) = true.
Proof.
  induction s as [|c t IH]; intros Hs; [reflexivity|].
  simpl in Hs. apply andb_true_iff in Hs. destruct Hs as [Hc Ht].
  simpl. rewrite noSeparator_app, IH by exact Ht. rewrite andb_true_r.
  unfold dottedLower. destruct (c =? 0x130)%N; [reflexivity|].
  simpl. rewrite separatorClass_asciiLower; [reflexivity|].
  now apply negb_true_iff.
Qed.

Lemma dottedLower_nonempty (s : jstr) : flat_map dottedLower s = [] -> s = [].
Proof.
  destruct s as [|c t]; [reflexivity|]. simpl. unfold dottedLower.
  destruct (c =? 0x130)%N; discriminate.
Qed.

Lemma dottedHost_ok : HostOk dottedHost.
Proof.
  constructor; cbn; intros; try reflexivity;
    auto using noSeparator_map, separatorClass_asciiUpper, dottedLower_ascii,
      dottedLower_noSeparator, dottedLower_nonempty.
  unfold isAscii in *.
  match goal with E : (_ <? _)%N = true |- _ => apply N.ltb_lt in E end.
  destruct (N.eqb_spec c 0x130); [lia | apply orb_false_r].
Qed.

(** ** Only the joiner separates *)

Lemma Kebab_convertText_separators {H : Host} {ok : HostOk H}
    (opts : Opts) (input : jstr) :
  (forall c, In c (KebabText.convertText opts input) ->
             separatorClass c = true -> c = 45%N)
  /\ startsWith 45 (KebabText.convertText opts input) = false
  /\ endsWith 45 (KebabText.convertText opts input) = false.
Proof.
  unfold KebabText.convertText.
  destruct (length (Kebab.clean opts input) =? 0).
  - repeat split. intros c [].
  - change (js "-") with [45%N]. apply join_goodParts; [reflexivity|].
    apply Kebab_collectParts_good. intros t Ht.
    now apply rawTokens_noSeparator in Ht.
Qed.

Lemma Dot_convertText_separators {H : Host} {ok : HostOk H}
    (opts : Opts) (input : jstr) :
  (forall c, In c (DotText.convertText opts input) ->
             separatorClass c = true -> c = 46%N)
  /\ startsWith 46 (DotText.convertText opts input) = false
  /\ endsWith 46 (DotText.convertText opts input) = false.
Proof.
  unfold DotText.convertText.
  destruct (length (Dot.clean opts input) =? 0).
  - repeat split. intros c [].
  - change (js ".") with [46%N]. apply join_goodParts; [reflexivity|].
    apply Dot_collectParts_good. intros t Ht.
    now apply rawTokens_noSeparator in Ht.
Qed.

Lemma Camel_convertText_separators {H : Host} {ok : HostOk H}
    (opts : Opts) (input : jstr) :
  noSeparator (CamelText.convertText opts input) = true.
Proof.
  unfold CamelText.convertText.
  destruct (length (Camel.clean opts input) =? 0); [reflexivity|].
  destruct (length (Camel.tokenize opts (Camel.clean opts input)) =? 0);
    [reflexivity|].
  apply Camel_assemble_noSeparator. intros w Hw.
  assert (G : Forall goodPart (Camel.tokenize opts (Camel.clean opts input))).
  { apply Camel_collectWords_good. intros t Ht.
    now apply rawTokens_noSeparator in Ht. }
  rewrite Forall_forall in G. now apply G.
Qed.

(** C6. Whatever the input and the options, the text a converter returns
    holds no separator (white space, underscore, hyphen, period, slash,
    backslash) other than the joiner of its style, the hyphen of kebab and
    the period of dot, the camel style having none; and the text neither
    starts nor ends with the joiner. *)
Theorem C6_only_the_joiner_separates {H : Host} {ok : HostOk H} :
  forall (st : style) (input : value) (o : OptionsArg) (s : jstr),
    convert st input o = Return s ->
    (forall c, In c s -> separatorClass c = true -> joiner st = Some c)
    /\ (forall j, joiner st = Some j ->
                  startsWith j s = false /\ endsWith j s = false).
Proof.
  intros st input o s. rewrite convert_run.
  assert (T : forall text,
             (forall c, In c (converted st (validated st o) text) ->
                        separatorClass c = true -> joiner st = Some c)
             /\ (forall j, joiner st = Some j ->
                           startsWith j (converted st (validated st o) text) = false
                           /\ endsWith j (converted st (validated st o) text) = false)).
  { intros text. destruct st; cbn [joiner converted validated].
    - pose proof (Camel_convertText_separators (Camel.defaults (coerced camel o)) text)
        as G.
      split; [|discriminate].
      intros c Hc Hs. apply (proj1 (noSeparator_spec _) G) in Hc. congruence.
    - destruct (Kebab_convertText_separators (Kebab.defaults (coerced kebab o)) text)
        as [G1 G2].
      split; [intros c Hc Hs; f_equal; symmetry; auto|].
      intros j [= <-]. exact G2.
    - destruct (Dot_convertText_separators (Dot.defaults (coerced dot o)) text)
        as [G1 G2].
      split; [intros c Hc Hs; f_equal; symmetry; auto|].
      intros j [= <-]. exact G2. }
  destruct (throwRequested o && checkedOptionWrong st o); [discriminate|].
  destruct (inputRejected input).
  - destruct (throwRequested o); [discriminate|].
    intros [= <-]. split; [intros c [] | intros j _; split; reflexivity].
  - destruct (textOf input) as [text|e]; cbn [bind]; [|discriminate].
    destruct (localeRejected (validated st o)
              && callsLocale st (validated st o) text); [discriminate|].
    intros [= <-]. apply T.
Qed.

Lemma C6_witness :
  @convert asciiHost kebab (VString (js " Hello__WORLD--test ")) noOptions
  = Return (js "hello-world-test")
  /\ startsWith 45 (js "hello-world-test") = false
  /\ endsWith 45 (js "hello-world-test") = false.
Proof.
  assert (R : @convert asciiHost kebab (VString (js " Hello__WORLD--test ")) noOptions
              = Return (js "hello-world-test")) by (vm_compute; reflexivity).
  split; [exact R|].
  exact (proj2 (@C6_only_the_joiner_separates asciiHost asciiHost_ok kebab _ _ _ R)
           45%N eq_refl).
Defined.

(** ** The dot converter is the kebab converter with another joiner *)

Lemma fold_left_ext (A B : Type) (f g : A -> B -> A) (l : list B) :
  (forall a b, f a b = g a b) ->
  forall a, fold_left f l a = fold_left g l a.
Proof.
  intros E. induction l as [|b l IH]; intros a; [reflexivity|].
  simpl. now rewrite E, IH.
Qed.

Lemma Dot_collectParts_Kebab {H : Host} (opts : Opts) (tokens : list jstr) :
  DotText.collectParts opts tokens = KebabText.collectParts opts tokens.
Proof.
  unfold DotText.collectParts, KebabText.collectParts. apply fold_left_ext.
  intros outParts token. unfold DotText.tokenStep, KebabText.tokenStep.
  now rewrite Dot_split_cut, Kebab_split_cut.
Qed.

Lemma map_hyphenToPeriod_id (p : jstr) :
  ~ In 45%N p -> map hyphenToPeriod p = p.
Proof.
  induction p as [|c p IH]; intros Hp; [reflexivity|].
  simpl. rewrite IH by (intros Hin; apply Hp; now right).
  unfold hyphenToPeriod. destruct (N.eqb_spec c 45) as [->|_]; [|reflexivity].
  exfalso. apply Hp. now left.
Qed.

Lemma join_hyphenToPeriod (parts : list jstr) :
  Forall goodPart parts ->
  map hyphenToPeriod (JS.join [45%N] parts) = JS.join [46%N] parts.
Proof.
  induction 1 as [|p rest Hp Hrest IH]; [reflexivity|].
  assert (Ep : map hyphenToPeriod p = p).
  { apply map_hyphenToPeriod_id. now apply goodPart_not_separator. }
  destruct rest as [|q rest]; [exact Ep|].
  change (JS.join [45%N] (p :: q :: rest))
    with (p ++ [45%N] ++ JS.join [45%N] (q :: rest)).
  change (JS.join [46%N] (p :: q :: rest))
    with (p ++ [46%N] ++ JS.join [46%N] (q :: rest)).
  rewrite !map_app, Ep. apply f_equal. cbn [map app]. apply f_equal. exact IH.
Qed.

Lemma Dot_convertText_Kebab {H : Host} {ok : HostOk H} (opts : Opts) (input : jstr) :
  DotText.convertText opts input = map hyphenToPeriod (KebabText.convertText opts input).
Proof.
  unfold DotText.convertText, KebabText.convertText.
  change (Dot.clean opts input) with (Kebab.clean opts input).
  destruct (length (Kebab.clean opts input) =? 0); [reflexivity|].
  unfold DotText.tokenize, KebabText.tokenize. rewrite Dot_collectParts_Kebab.
  change (js "-") with [45%N]. change (js ".") with [46%N].
  symmetry. apply join_hyphenToPeriod.
  apply Kebab_collectParts_good. intros t Ht.
  now apply rawTokens_noSeparator in Ht.
Qed.

(** C8. For every input and every options record the dot and the kebab
    converters build the same list of tokens in the same order, raise the
    same errors, and the text of toDotCase is the text of toKebabCase with
    every hyphen replaced by a period. *)
Theorem C8_dot_is_kebab_with_periods {H : Host} {ok : HostOk H} :
  (forall (opts : Opts) (working : jstr),
     Dot.tokenize opts working = Kebab.tokenize opts working)
  /\ (forall (input : value) (o : OptionsArg),
        Dot.toDotCase input o
        = mapResult (map hyphenToPeriod) (Kebab.toKebabCase input o)).
Proof.
  split.
  - intros opts working. unfold Dot.tokenize, Kebab.tokenize. cbv zeta.
    now rewrite Dot_collectParts_run, Kebab_collectParts_run,
      Dot_collectParts_Kebab.
  - intros input o.
    change (Dot.toDotCase input o) with (convert dot input o).
    change (Kebab.toKebabCase input o) with (convert kebab input o).
    rewrite !convert_run. cbn [checkedOptionWrong].
    change (optionError dot o) with (optionError kebab o).
    change (validated dot o) with (validated kebab o).
    change (callsLocale dot (validated kebab o))
      with (callsLocale kebab (validated kebab o)).
    destruct (throwRequested o && wrongLocale (arg_locale o)); [reflexivity|].
    destruct (inputRejected input); [destruct (throwRequested o); reflexivity|].
    destruct (textOf input) as [text|e]; cbn [bind mapResult]; [|reflexivity].
    destruct (localeRejected (validated kebab o)
              && callsLocale kebab (validated kebab o) text);
      cbn [mapResult]; [reflexivity|].
    f_equal. apply Dot_convertText_Kebab.
Qed.

Lemma C8_witness :
  @Dot.toDotCase asciiHost (VString (js "user-id_v2")) noOptions
  = mapResult (map hyphenToPeriod)
      (@Kebab.toKebabCase asciiHost (VString (js "user-id_v2")) noOptions).
Proof.
  exact (proj2 (@C8_dot_is_kebab_with_periods asciiHost asciiHost_ok)
           (VString (js "user-id_v2")) noOptions).
Defined.

(** ** The numbers that preserveNumbers governs *)

Lemma fold_left_snoc_steps (A B : Type) (f : list A -> B -> list A) (l : list B) :
  (forall acc b, f acc b = acc ++ f [] b) ->
  forall acc, fold_left f l acc = acc ++ concat (map (f []) l).
Proof.
  intros Hf. induction l as [|b l IH]; intros acc; simpl.
  - now rewrite app_nil_r.
  - rewrite IH, (Hf acc b), <- app_assoc. reflexivity.
Qed.

Lemma Camel_pushPart_acc (words : list jstr) (part : jstr) :
  Camel.pushPart words part = words ++ Camel.pushPart [] part.
Proof.
  unfold Camel.pushPart. destruct (length part =? 0);
    [now rewrite app_nil_r | reflexivity].
Qed.

Lemma Camel_wordsStep_acc (opts : Opts) (words : list jstr) (token : jstr) :
  Camel.wordsStep opts words token = words ++ Camel.wordsStep opts [] token.
Proof.
  unfold Camel.wordsStep.
  destruct (length token =? 0); [now rewrite app_nil_r|].
  destruct (JS.testDigits token).
  - destruct (truthy (preserveNumbers opts)); [reflexivity | now rewrite app_nil_r].
  - rewrite (fold_left_snoc_steps _ _ Camel.pushPart _ Camel_pushPart_acc words).
    rewrite (fold_left_snoc_steps _ _ Camel.pushPart _ Camel_pushPart_acc []).
    reflexivity.
Qed.

Lemma Kebab_pushPart_acc {H : Host} (opts : Opts) (outParts : list jstr) (part : jstr) :
  KebabText.pushPart opts outParts part = outParts ++ KebabText.pushPart opts [] part.
Proof.
  unfold KebabText.pushPart. destruct (length part =? 0);
    [now rewrite app_nil_r | reflexivity].
Qed.

Lemma Kebab_tokenStep_acc {H : Host} (opts : Opts) (outParts : list jstr)
    (token : jstr) :
  KebabText.tokenStep opts outParts token = outParts ++ KebabText.tokenStep opts [] token.
Proof.
  unfold KebabText.tokenStep.
  destruct (length token =? 0); [now rewrite app_nil_r|].
  destruct (JS.testDigits token).
  - destruct (truthy (preserveNumbers opts)); [reflexivity | now rewrite app_nil_r].
  - rewrite (fold_left_snoc_steps _ _ (KebabText.pushPart opts) _
               (Kebab_pushPart_acc opts) outParts).
    rewrite (fold_left_snoc_steps _ _ (KebabText.pushPart opts) _
               (Kebab_pushPart_acc opts) []).
    reflexivity.
Qed.

Lemma Kebab_collectParts_numbers {H : Host} (opts : Opts) (tokens : list jstr) :
  KebabText.collectParts (setPreserveNumbers opts (VBool false)) tokens
  = KebabText.collectParts (setPreserveNumbers opts (VBool true))
      (filter notNumber tokens).
Proof.
  unfold KebabText.collectParts. generalize (@nil jstr) as outParts.
  induction tokens as [|token tokens IH]; intros outParts; [reflexivity|].
  cbn [fold_left filter]. unfold notNumber at 1.
  destruct (JS.testDigits token) eqn:E; cbn [negb fold_left]; rewrite IH;
    f_equal; unfold KebabText.tokenStep; cbn [preserveNumbers setPreserveNumbers];
    rewrite ?E; destruct (length token =? 0); reflexivity.
Qed.

Lemma Dot_pushPart_acc {H : Host} (opts : Opts) (outParts : list jstr) (part : jstr) :
  DotText.pushPart opts outParts part = outParts ++ DotText.pushPart opts [] part.
Proof.
  unfold DotText.pushPart. destruct (length part =? 0);
    [now rewrite app_nil_r | reflexivity].
Qed.

Lemma Dot_tokenStep_acc {H : Host} (opts : Opts) (outParts : list jstr)
    (token : jstr) :
  DotText.tokenStep opts outParts token = outParts ++ DotText.tokenStep opts [] token.
Proof.
  unfold DotText.tokenStep.
  destruct (length token =? 0); [now rewrite app_nil_r|].
  destruct (JS.testDigits token).
  - destruct (truthy (preserveNumbers opts)); [reflexivity | now rewrite app_nil_r].
  - rewrite (fold_left_snoc_steps _ _ (DotText.pushPart opts) _
               (Dot_pushPart_acc opts) outParts).
    rewrite (fold_left_snoc_steps _ _ (DotText.pushPart opts) _
               (Dot_pushPart_acc opts) []).
    reflexivity.
Qed.

Lemma Dot_collectParts_numbers {H : Host} (opts : Opts) (tokens : list jstr) :
  DotText.collectParts (setPreserveNumbers opts (VBool false)) tokens
  = DotText.collectParts (setPreserveNumbers opts (VBool true))
      (filter notNumber tokens).
Proof.
  unfold DotText.collectParts. generalize (@nil jstr) as outParts.
  induction tokens as [|token tokens IH]; intros outParts; [reflexivity|].
  cbn [fold_left filter]. unfold notNumber at 1.
  destruct (JS.testDigits token) eqn:E; cbn [negb fold_left]; rewrite IH;
    f_equal; unfold DotText.tokenStep; cbn [preserveNumbers setPreserveNumbers];
    rewrite ?E; destruct (length token =? 0); reflexivity.
Qed.

Lemma Camel_collectWords_numbers (opts : Opts) (rawTokens : list jstr) :
  Camel.collectWords (setPreserveNumbers opts (VBool false)) rawTokens
  = Camel.collectWords (setPreserveNumbers opts (VBool true))
      (filter notNumber rawTokens).
Proof.
  unfold Camel.collectWords. generalize (@nil jstr) as words.
  induction rawTokens as [|token tokens IH]; intros words; [reflexivity|].
  cbn [fold_left filter]. unfold notNumber at 1.
  destruct (JS.testDigits token) eqn:E; cbn [negb fold_left]; rewrite IH;
    f_equal; unfold Camel.wordsStep; cbn [preserveNumbers setPreserveNumbers];
    rewrite ?E; destruct (length token =? 0); reflexivity.
Qed.

Lemma existsb_isWord_filter (tokens : list jstr) :
  existsb isWord (filter notNumber tokens) = existsb isWord tokens.
Proof.
  induction tokens as [|token tokens IH]; [reflexivity|].
  cbn [filter existsb]. unfold notNumber at 1.
  destruct (JS.testDigits token) eqn:E; cbn [negb existsb].
  - unfold isWord at 2. now rewrite E, andb_false_r.
  - now rewrite IH.
Qed.

Lemma Kebab_collectParts_numbers_run {H : Host} (opts : Opts)
    (tokens : list jstr) :
  Kebab.collectParts (setPreserveNumbers opts (VBool false)) tokens
  = Kebab.collectParts (setPreserveNumbers opts (VBool true))
      (filter notNumber tokens).
Proof.
  rewrite !Kebab_collectParts_run, existsb_isWord_filter,
    Kebab_collectParts_numbers.
  reflexivity.
Qed.

Lemma Dot_collectParts_numbers_run {H : Host} (opts : Opts)
    (tokens : list jstr) :
  Dot.collectParts (setPreserveNumbers opts (VBool false)) tokens
  = Dot.collectParts (setPreserveNumbers opts (VBool true))
      (filter notNumber tokens).
Proof.
  rewrite !Dot_collectParts_run, existsb_isWord_filter,
    Dot_collectParts_numbers.
  reflexivity.
Qed.

Lemma Kebab_collectParts_each {H : Host} (opts : Opts) (tokens : list jstr) :
  Kebab.collectParts opts tokens
  = (parts <- mapEach (fun t => Kebab.collectParts opts [t]) tokens ;;
     Return (concat parts)).
Proof.
  rewrite Kebab_collectParts_run.
  rewrite (mapEach_run _ _ _ (fun t => KebabText.collectParts opts [t])
             (fun t => localeRejected opts && isWord t) (localeError opts))
    by (intros t _; rewrite Kebab_collectParts_run; cbn [existsb];
        now rewrite orb_false_r).
  rewrite existsb_and.
  destruct (localeRejected opts && existsb isWord tokens); [reflexivity|].
  cbn [bind]. f_equal. unfold KebabText.collectParts. cbn [fold_left].
  apply (fold_left_snoc_steps _ _ (KebabText.tokenStep opts) _
           (Kebab_tokenStep_acc opts) []).
Qed.

Lemma Dot_collectParts_each {H : Host} (opts : Opts) (tokens : list jstr) :
  Dot.collectParts opts tokens
  = (parts <- mapEach (fun t => Dot.collectParts opts [t]) tokens ;;
     Return (concat parts)).
Proof.
  rewrite Dot_collectParts_run.
  rewrite (mapEach_run _ _ _ (fun t => DotText.collectParts opts [t])
             (fun t => localeRejected opts && isWord t) (localeError opts))
    by (intros t _; rewrite Dot_collectParts_run; cbn [existsb];
        now rewrite orb_false_r).
  rewrite existsb_and.
  destruct (localeRejected opts && existsb isWord tokens); [reflexivity|].
  cbn [bind]. f_equal. unfold DotText.collectParts. cbn [fold_left].
  apply (fold_left_snoc_steps _ _ (DotText.tokenStep opts) _
           (Dot_tokenStep_acc opts) []).
Qed.

(** C3, as the code has it. With preserveNumbers false a converter builds
    the tokens it builds with preserveNumbers true from the raw tokens, the
    ones the single spaces of the cleaned text delimit, that are not made of
    digits only: those raw tokens are removed and nothing else is. A run of
    digits cut from a raw token that has other characters is a token in both
    cases. The tokens of the output are those of the raw tokens, one raw
    token after the other, and a raw token made of digits only is a token as
    it stands when numbers are preserved. *)
Theorem C3_preserveNumbers_drops_raw_number_tokens {H : Host} :
  (forall opts rawTokens,
     Camel.collectWords (setPreserveNumbers opts (VBool false)) rawTokens
     = Camel.collectWords (setPreserveNumbers opts (VBool true))
         (filter notNumber rawTokens)
     /\ Kebab.collectParts (setPreserveNumbers opts (VBool false)) rawTokens
        = Kebab.collectParts (setPreserveNumbers opts (VBool true))
            (filter notNumber rawTokens)
     /\ Dot.collectParts (setPreserveNumbers opts (VBool false)) rawTokens
        = Dot.collectParts (setPreserveNumbers opts (VBool true))
            (filter notNumber rawTokens))
  /\ (forall opts rawTokens,
        Camel.collectWords opts rawTokens
        = concat (map (fun t => Camel.collectWords opts [t]) rawTokens)
        /\ Kebab.collectParts opts rawTokens
           = (parts <- mapEach (fun t => Kebab.collectParts opts [t]) rawTokens ;;
              Return (concat parts))
        /\ Dot.collectParts opts rawTokens
           = (parts <- mapEach (fun t => Dot.collectParts opts [t]) rawTokens ;;
              Return (concat parts)))
  /\ (forall opts token,
        JS.testDigits token = true ->
        Camel.collectWords (setPreserveNumbers opts (VBool true)) [token] = [token]
        /\ Kebab.collectParts (setPreserveNumbers opts (VBool true)) [token]
           = Return [token]
        /\ Dot.collectParts (setPreserveNumbers opts (VBool true)) [token]
           = Return [token])
  /\ (forall opts input,
        Camel.convertText (setPreserveNumbers opts (VBool false)) input
        = (let working := Camel.clean opts input in
           if length working =? 0 then Return []
           else
             let words :=
               Camel.collectWords (setPreserveNumbers opts (VBool true))
                 (filter notNumber (JS.split 32 working)) in
             if length words =? 0 then Return [] else Camel.assemble opts words)
        /\ Kebab.convertText (setPreserveNumbers opts (VBool false)) input
           = (let working := Kebab.clean opts input in
              if length working =? 0 then Return []
              else
                outParts <-
                  Kebab.collectParts (setPreserveNumbers opts (VBool true))
                    (filter notNumber (JS.split 32 working)) ;;
                Return (JS.join (js "-") outParts))
        /\ Dot.convertText (setPreserveNumbers opts (VBool false)) input
           = (let working := Dot.clean opts input in
              if length working =? 0 then Return []
              else
                outParts <-
                  Dot.collectParts (setPreserveNumbers opts (VBool true))
                    (filter notNumber (JS.split 32 working)) ;;
                Return (JS.join (js ".") outParts))).
Proof.
  split; [|split; [|split]]; cycle 3.
  { intros opts input. cbv zeta.
    unfold Camel.convertText, Kebab.convertText, Dot.convertText,
      Camel.tokenize, Kebab.tokenize, Dot.tokenize. cbv zeta.
    rewrite Camel_collectWords_numbers, Kebab_collectParts_numbers_run,
      Dot_collectParts_numbers_run.
    repeat split. }
  - intros opts rawTokens.
    auto using Camel_collectWords_numbers, Kebab_collectParts_numbers_run,
      Dot_collectParts_numbers_run.
  - intros opts rawTokens.
    refine (conj _ (conj (Kebab_collectParts_each opts rawTokens)
                      (Dot_collectParts_each opts rawTokens))).
    unfold Camel.collectWords. cbn [fold_left].
    apply (fold_left_snoc_steps _ _ (Camel.wordsStep opts) _
             (Camel_wordsStep_acc opts) []).
  - intros opts token E.
    unfold Camel.collectWords, Kebab.collectParts, Dot.collectParts,
      Camel.wordsStep, Kebab.tokenStep, Dot.tokenStep.
    cbn [fold_left forEach]. rewrite E.
    destruct token; [discriminate E|]. repeat split.
Qed.

Lemma C3_witness :
  @Kebab.collectParts asciiHost
    (setPreserveNumbers (Kebab.defaults noOptions) (VBool true)) [js "2024"]
  = Return [js "2024"].
Proof.
  exact (proj1 (proj2 (proj1 (proj2 (proj2
            (@C3_preserveNumbers_drops_raw_number_tokens asciiHost)))
            (Kebab.defaults noOptions) (js "2024") eq_refl))).
Defined.

(** C3 as it is stated fails: the text foo1 has the tokens foo and 1, the
    second one matches one or more digits, and with preserveNumbers false
    it is still a token of the output. *)
Lemma C3_counterexample :
  @Kebab.tokenize asciiHost (Kebab.defaults (withPreserveNumbers (VBool true)))
    (js "foo1") = Return [js "foo"; js "1"]
  /\ JS.testDigits (js "1") = true
  /\ @Kebab.tokenize asciiHost (Kebab.defaults (withPreserveNumbers (VBool false)))
       (js "foo1") = Return [js "foo"; js "1"]
  /\ @convert asciiHost kebab (VString (js "foo1")) (withPreserveNumbers (VBool false))
     = Return (js "foo-1")
  /\ @convert asciiHost kebab (VString (js "foo1")) (withPreserveNumbers (VBool false))
     <> (tokens <- @Kebab.tokenize asciiHost
                     (Kebab.defaults (withPreserveNumbers (VBool true)))
                     (js "foo1") ;;
         Return (JS.join (js "-") (filter notNumber tokens))).
Proof. repeat split; vm_compute; try reflexivity; discriminate. Qed.

(** ** The classes of the splitters are ranges of ASCII *)

Lemma cutFrom_first (rule : char -> char -> option char -> bool) (s : jstr) :
  forall cur prev,
    exists u rest, cutFrom rule cur prev s = (cur ++ prev :: u) :: rest.
Proof.
  induction s as [|x t IH]; intros cur prev; simpl.
  - exists [], []. reflexivity.
  - destruct (rule prev x (hd_error t)).
    + exists [], (cutFrom rule [] x t). reflexivity.
    + destruct (IH (cur ++ [prev]) x) as [u [rest E]].
      exists (x :: u), rest. rewrite E, <- app_assoc. reflexivity.
Qed.

Lemma last_snoc (cur : jstr) (prev : char) : last (cur ++ [prev]) 0%N = prev.
Proof. apply last_last. Qed.

(** Two segments that follow each other meet where the rule holds. *)
Lemma cutFrom_adjacent (rule : char -> char -> option char -> bool) (s : jstr) :
  forall cur prev pre a b post,
    cutFrom rule cur prev s = pre ++ a :: b :: post ->
    exists n, rule (last a 0%N) (hd 0%N b) n = true.
Proof.
  induction s as [|x t IH]; intros cur prev pre a b post; simpl.
  - destruct pre as [|p [|q pre]]; discriminate.
  - destruct (rule prev x (hd_error t)) eqn:R.
    + destruct pre as [|p pre].
      * intros E. injection E as Ea Eb. subst a.
        destruct (cutFrom_first rule t [] x) as [u [rest E]].
        rewrite E in Eb. injection Eb as Eb _. subst b.
        exists (hd_error t). rewrite last_snoc. exact R.
      * intros E. injection E as _ E. now apply IH in E.
    + apply IH.
Qed.

Lemma cut_adjacent (rule : char -> char -> option char -> bool) (token : jstr) :
  forall pre a b post,
    cut rule token = pre ++ a :: b :: post ->
    exists n, rule (last a 0%N) (hd 0%N b) n = true.
Proof.
  destruct token as [|x t]; intros pre a b post.
  - destruct pre; discriminate.
  - apply cutFrom_adjacent.
Qed.

Lemma cutFrom_no_boundary (rule : char -> char -> option char -> bool) (s : jstr) :
  forall cur prev,
    (forall p c n, In p (prev :: s) -> In c s -> rule p c n = false) ->
    cutFrom rule cur prev s = [cur ++ prev :: s].
Proof.
  induction s as [|x t IH]; intros cur prev Hr; simpl; [reflexivity|].
  rewrite Hr by (simpl; auto).
  rewrite IH, <- app_assoc; [reflexivity|].
  intros p c n Hp Hc. apply Hr; simpl; simpl in Hp; tauto.
Qed.

Lemma specBoundary_ascii (p c : char) (n : option char) :
  specBoundary p c n = true ->
  isAsciiDigit p || isAsciiDigit c || (isAsciiLetter p && isAsciiLetter c) = true.
Proof.
  unfold specBoundary, isAsciiLetter, isLowerLetter, isUpperLetter.
  destruct (isAsciiDigit p), (isAsciiDigit c), (between 97 122 p), (between 65 90 c),
    (between 65 90 p); simpl; auto; try discriminate.
  all: try (destruct n; simpl; discriminate).
  all: destruct (between 97 122 c); reflexivity.
Qed.

Lemma caseDigitBoundary_ascii (p c : char) (n : option char) :
  caseDigitBoundary p c n = true ->
  isAsciiDigit p || isAsciiDigit c || (isAsciiLetter p && isAsciiLetter c) = true.
Proof.
  unfold caseDigitBoundary, isAsciiLetter, isLowerLetter, isUpperLetter.
  destruct (isAsciiDigit p), (isAsciiDigit c), (between 97 122 p), (between 65 90 c);
    simpl; auto; try discriminate.
  all: destruct (between 65 90 p); reflexivity.
Qed.

Lemma not_ascii_classes (c : char) :
  isAscii c = false ->
  isAsciiDigit c = false /\ isUpperLetter c = false /\ isLowerLetter c = false.
Proof.
  unfold isAscii, isAsciiDigit, isUpperLetter, isLowerLetter, between.
  intros E. apply N.ltb_ge in E.
  repeat split; decide_comparisons; reflexivity.
Qed.

Lemma cut_not_ascii (rule : char -> char -> option char -> bool) (token : jstr) :
  (forall p c n, rule p c n = true ->
     isAsciiDigit p || isAsciiDigit c || (isAsciiLetter p && isAsciiLetter c) = true) ->
  token <> [] ->
  (forall c, In c token -> isAscii c = false) ->
  cut rule token = [token].
Proof.
  intros Hr Hn Ht. destruct token as [|x t]; [contradiction|].
  unfold cut. apply (cutFrom_no_boundary rule t [] x).
  intros p c n Hp Hc. destruct (rule p c n) eqn:R; [|reflexivity].
  apply Hr in R.
  destruct (not_ascii_classes p (Ht p Hp)) as [Dp _].
  destruct (not_ascii_classes c (Ht c (or_intror Hc))) as [Dc [Uc Lc]].
  unfold isAsciiLetter in R. fold (isUpperLetter c) (isLowerLetter c) in R.
  rewrite Dp, Dc, Uc, Lc, andb_false_r in R. discriminate R.
Qed.

Lemma testDigits_spec (token : jstr) :
  JS.testDigits token = true
  <-> token <> [] /\ forall c, In c token -> isAsciiDigit c = true.
Proof.
  unfold JS.testDigits. rewrite andb_true_iff, forallb_forall. split.
  - intros [Hn Hd]. split; [now destruct token | exact Hd].
  - intros [Hn Hd]. split; [now destruct token | exact Hd].
Qed.

(** C9, as the code has it. The splitters classify a character by the
    ranges a-z, A-Z and 0-9 of ASCII alone: two segments meet only where one
    of the two characters is an ASCII digit or both are ASCII letters, so a
    character outside these ranges is cut from its neighbour only when the
    neighbour is an ASCII digit. A token is a pure number exactly when it is
    made of ASCII digits. A token without any ASCII character, a word of
    accented capitals or of digits of another script, is never cut and never
    dropped, whatever preserveNumbers is. *)
Theorem C9_classes_are_ascii_ranges {H : Host} :
  (forall token pa pre a b post,
     Camel.splitOnCaseAndNumberTransitions token pa = pre ++ a :: b :: post ->
     isAsciiDigit (last a 0%N) || isAsciiDigit (hd 0%N b)
     || (isAsciiLetter (last a 0%N) && isAsciiLetter (hd 0%N b)) = true)
  /\ (forall token pre a b post,
        Kebab.splitOnCaseAndNumberTransitions token = pre ++ a :: b :: post ->
        isAsciiDigit (last a 0%N) || isAsciiDigit (hd 0%N b)
        || (isAsciiLetter (last a 0%N) && isAsciiLetter (hd 0%N b)) = true)
  /\ (forall token pre a b post,
        Dot.splitOnCaseAndNumberTransitions token = pre ++ a :: b :: post ->
        isAsciiDigit (last a 0%N) || isAsciiDigit (hd 0%N b)
        || (isAsciiLetter (last a 0%N) && isAsciiLetter (hd 0%N b)) = true)
  /\ (forall token,
        JS.testDigits token = true
        <-> token <> [] /\ forall c, In c token -> isAsciiDigit c = true)
  /\ (forall opts token,
        token <> [] ->
        (forall c, In c token -> isAscii c = false) ->
        Camel.collectWords opts [token] = [token]
        /\ Kebab.collectParts opts [token]
           = (lowered <- match localeTag (locale opts) with
                         | Some l => toLocaleLowerCase l token
                         | None => Return (toLowerCase token)
                         end ;;
              Return [lowered])
        /\ Dot.collectParts opts [token]
           = (lowered <- match localeTag (locale opts) with
                         | Some l => toLocaleLowerCase l token
                         | None => Return (toLowerCase token)
                         end ;;
              Return [lowered])).
Proof.
  split; [|split; [|split; [|split]]].
  - intros token pa pre a b post E. rewrite Camel_split_cut in E.
    apply cut_adjacent in E. destruct E as [n E]. now apply specBoundary_ascii in E.
  - intros token pre a b post E. rewrite Kebab_split_cut in E.
    destruct token as [|x t]; [destruct pre as [|? [|? ?]]; discriminate|].
    apply cut_adjacent in E. destruct E as [n E].
    now apply caseDigitBoundary_ascii in E.
  - intros token pre a b post E. rewrite Dot_split_cut in E.
    destruct token as [|x t]; [destruct pre as [|? [|? ?]]; discriminate|].
    apply cut_adjacent in E. destruct E as [n E].
    now apply caseDigitBoundary_ascii in E.
  - exact testDigits_spec.
  - intros opts token Hn Ht.
    assert (D : JS.testDigits token = false).
    { destruct (JS.testDigits token) eqn:D; [|reflexivity].
      apply testDigits_spec in D. destruct D as [_ D].
      destruct token as [|x t]; [contradiction|].
      destruct (not_ascii_classes x (Ht x (or_introl eq_refl))) as [Dx _].
      rewrite (D x (or_introl eq_refl)) in Dx. discriminate Dx. }
    assert (L : (length token =? 0) = false) by now destruct token.
    unfold Camel.collectWords, Kebab.collectParts, Dot.collectParts,
      Camel.wordsStep, Kebab.tokenStep, Dot.tokenStep. cbn [fold_left forEach].
    rewrite D, L, Kebab_split_cut, Dot_split_cut.
    rewrite (cut_not_ascii caseDigitBoundary token caseDigitBoundary_ascii Hn Ht).
    destruct token as [|x t]; [contradiction|].
    unfold Camel.pushPart, Kebab.pushPart, Dot.pushPart.
    cbn [fold_left forEach length Nat.eqb app].
    destruct (match localeTag (locale opts) with
              | Some l => toLocaleLowerCase l (x :: t)
              | None => Return (toLowerCase (x :: t))
              end); repeat split.
Qed.

Lemma C9_witness :
  Camel.collectWords
    (setPreserveNumbers (Camel.defaults noOptions) (VBool false))
    [[0x663; 0x661]%N]
  = [[0x663; 0x661]%N].
Proof.
  apply (proj2 (proj2 (proj2 (proj2 (@C9_classes_are_ascii_ranges asciiHost))))
           (setPreserveNumbers (Camel.defaults noOptions) (VBool false))
           [0x663; 0x661]%N).
  - discriminate.
  - intros c [<-|[<-|[]]]; reflexivity.
Defined.

(** C9 as it is stated fails: the three splitters cut the token made of
    the ASCII digit 1 and of the Arabic-Indic digit three (U+0663) between
    the two, a boundary at a character that is in none of the ASCII ranges
    and a digit transition where both characters are digits. *)
Lemma C9_counterexample :
  isAsciiAlnum 0x663 = false
  /\ Camel.splitOnCaseAndNumberTransitions [49; 0x663]%N false = [[49]; [0x663]]%N
  /\ Kebab.splitOnCaseAndNumberTransitions [49; 0x663]%N = [[49]; [0x663]]%N
  /\ Dot.splitOnCaseAndNumberTransitions [49; 0x663]%N = [[49]; [0x663]]%N.
Proof. repeat split. Qed.

(** ** On ASCII text every engine computes what the reference engine does *)

Lemma allAscii_spec (s : jstr) :
  allAscii s = true <-> forall c, In c s -> isAscii c = true.
Proof. unfold allAscii. apply forallb_forall. Qed.

Lemma isAscii_not_surrogate (c : char) :
  isAscii c = true -> JS.isHighSurrogate c = false.
Proof.
  unfold isAscii, JS.isHighSurrogate, between. intros E.
  apply N.ltb_lt in E. decide_comparisons; reflexivity.
Qed.

Lemma deleteCodePoints_ascii (cls : N -> bool) (s : jstr) :
  allAscii s = true ->
  JS.deleteCodePoints cls s = filter (fun c => negb (cls c)) s.
Proof.
  induction s as [|c t IH]; intros Hs; [reflexivity|].
  simpl in Hs. apply andb_true_iff in Hs. destruct Hs as [Hc Ht].
  rewrite deleteCodePoints_plain by now apply isAscii_not_surrogate.
  simpl. rewrite IH by exact Ht. now destruct (cls c).
Qed.

Lemma filter_agree (A : Type) (f g : A -> bool) (l : list A) :
  (forall a, In a l -> f a = g a) -> filter f l = filter g l.
Proof.
  induction l as [|a l IH]; intros E; [reflexivity|].
  simpl. rewrite (E a) by now left. rewrite IH; [reflexivity|].
  intros b Hb. apply E. now right.
Qed.

Lemma punctuationClass_ascii {H : Host} {ok : HostOk H} (c : N) :
  isAscii c = true ->
  @punctuationClass H c = @punctuationClass asciiHost c.
Proof.
  intros Hc. unfold punctuationClass. cbn.
  now rewrite L_ascii, N_ascii, Zs_ascii, Emoji_Presentation_ascii,
    Extended_Pictographic_ascii.
Qed.

Lemma replaceRuns_ascii (cls : char -> bool) (s : jstr) :
  allAscii s = true -> allAscii (JS.replaceRuns cls s) = true.
Proof.
  intros Hs. apply allAscii_spec. intros c Hc.
  apply replaceRunsFrom_In in Hc. destruct Hc as [->|[Hc _]]; [reflexivity|].
  now apply (proj1 (allAscii_spec s) Hs).
Qed.

(** The cleaning of the three converters, with the default treatment of
    diacritics. *)
Lemma cleaned_ascii_agree {H : Host} {ok : HostOk H} (s : jstr) :
  allAscii s = true ->
  JS.replaceRuns JS.isWhiteSpace
    (JS.trim (JS.deleteCodePoints (@punctuationClass H)
                (JS.replaceRuns separatorClass (@normalize_NFC H s))))
  = JS.replaceRuns JS.isWhiteSpace
      (JS.trim (JS.deleteCodePoints (@punctuationClass asciiHost)
                  (JS.replaceRuns separatorClass s))).
Proof.
  intros Hs. rewrite nfc_ascii by exact Hs.
  pose proof (replaceRuns_ascii separatorClass s Hs) as Hr.
  rewrite !deleteCodePoints_ascii by exact Hr.
  do 2 f_equal. apply filter_agree. intros c Hc. f_equal.
  apply punctuationClass_ascii. now apply (proj1 (allAscii_spec _) Hr).
Qed.

Lemma cleaned_allAscii (s : jstr) :
  allAscii s = true ->
  allAscii
    (JS.replaceRuns JS.isWhiteSpace
       (JS.trim (JS.deleteCodePoints (@punctuationClass asciiHost)
                   (JS.replaceRuns separatorClass s)))) = true.
Proof.
  intros Hs. apply replaceRuns_ascii. apply allAscii_spec. intros c Hc.
  apply trim_In, deleteCodePoints_In in Hc.
  now apply (proj1 (allAscii_spec _) (replaceRuns_ascii separatorClass s Hs)).
Qed.

Lemma split_allAscii (s token : jstr) :
  allAscii s = true -> In token (JS.split 32 s) -> allAscii token = true.
Proof.
  intros Hs Ht. apply allAscii_spec. intros c Hc.
  destruct (split_In _ _ _ _ Ht Hc) as [Hin _].
  now apply (proj1 (allAscii_spec s) Hs).
Qed.

Lemma cut_allAscii (rule : char -> char -> option char -> bool) (token seg : jstr) :
  allAscii token = true -> In seg (cut rule token) -> allAscii seg = true.
Proof.
  intros Ht Hs. apply cut_In in Hs. destruct Hs as [_ Hc].
  apply allAscii_spec. intros c Hin.
  apply (proj1 (allAscii_spec token) Ht). now apply Hc.
Qed.

Lemma fold_left_ext_in (A B : Type) (f g : A -> B -> A) (l : list B) :
  (forall a b, In b l -> f a b = g a b) ->
  forall a, fold_left f l a = fold_left g l a.
Proof.
  induction l as [|b l IH]; intros E a; [reflexivity|].
  simpl. rewrite E by now left. apply IH. intros a' b' Hb. apply E. now right.
Qed.

Lemma Kebab_collectParts_ascii {H : Host} {ok : HostOk H} (opts : Opts)
    (tokens : list jstr) :
  localeTag (locale opts) = None ->
  (forall t, In t tokens -> allAscii t = true) ->
  @KebabText.collectParts H opts tokens = @KebabText.collectParts asciiHost opts tokens.
Proof.
  intros Hl Ht. unfold KebabText.collectParts. apply fold_left_ext_in.
  intros outParts token Hin. unfold KebabText.tokenStep.
  destruct (length token =? 0); [reflexivity|].
  destruct (JS.testDigits token); [reflexivity|].
  apply fold_left_ext_in. intros acc part Hp. unfold KebabText.pushPart.
  destruct (length part =? 0); [reflexivity|].
  rewrite Hl. cbn. rewrite lower_ascii; [reflexivity|].
  rewrite Kebab_split_cut in Hp. destruct token as [|x t]; [destruct Hp as [<-|[]]; reflexivity|].
  apply (cut_allAscii caseDigitBoundary (x :: t)); auto.
Qed.

Lemma Kebab_convertText_ascii {H : Host} {ok : HostOk H} (opts : Opts) (s : jstr) :
  allAscii s = true ->
  truthy (normalizeDiacritics opts) = false ->
  localeTag (locale opts) = None ->
  @KebabText.convertText H opts s = @KebabText.convertText asciiHost opts s.
Proof.
  intros Hs Hd Hl. unfold KebabText.convertText, Kebab.clean. rewrite Hd.
  rewrite (cleaned_ascii_agree s Hs). cbn [normalize_NFC asciiHost].
  destruct (length _ =? 0); [reflexivity|].
  f_equal. unfold KebabText.tokenize. apply Kebab_collectParts_ascii; [exact Hl|].
  intros t Ht. apply (split_allAscii _ _ (cleaned_allAscii s Hs) Ht).
Qed.

Lemma Dot_collectParts_ascii {H : Host} {ok : HostOk H} (opts : Opts)
    (tokens : list jstr) :
  localeTag (locale opts) = None ->
  (forall t, In t tokens -> allAscii t = true) ->
  @DotText.collectParts H opts tokens = @DotText.collectParts asciiHost opts tokens.
Proof.
  intros Hl Ht. unfold DotText.collectParts. apply fold_left_ext_in.
  intros outParts token Hin. unfold DotText.tokenStep.
  destruct (length token =? 0); [reflexivity|].
  destruct (JS.testDigits token); [reflexivity|].
  apply fold_left_ext_in. intros acc part Hp. unfold DotText.pushPart.
  destruct (length part =? 0); [reflexivity|].
  rewrite Hl. cbn. rewrite lower_ascii; [reflexivity|].
  rewrite Dot_split_cut in Hp. destruct token as [|x t]; [destruct Hp as [<-|[]]; reflexivity|].
  apply (cut_allAscii caseDigitBoundary (x :: t)); auto.
Qed.

Lemma Dot_convertText_ascii {H : Host} {ok : HostOk H} (opts : Opts) (s : jstr) :
  allAscii s = true ->
  truthy (normalizeDiacritics opts) = false ->
  localeTag (locale opts) = None ->
  @DotText.convertText H opts s = @DotText.convertText asciiHost opts s.
Proof.
  intros Hs Hd Hl. unfold DotText.convertText, Dot.clean. rewrite Hd.
  rewrite (cleaned_ascii_agree s Hs). cbn [normalize_NFC asciiHost].
  destruct (length _ =? 0); [reflexivity|].
  f_equal. unfold DotText.tokenize. apply Dot_collectParts_ascii; [exact Hl|].
  intros t Ht. apply (split_allAscii _ _ (cleaned_allAscii s Hs) Ht).
Qed.

Lemma asciiLower_ascii (c : char) : isAscii c = true -> isAscii (asciiLower c) = true.
Proof.
  unfold isAscii, asciiLower, between. intros E. apply N.ltb_lt in E.
  destruct (N.leb_spec 65 c), (N.leb_spec c 90); simpl; apply N.ltb_lt; lia.
Qed.

Lemma map_asciiLower_allAscii (s : jstr) :
  allAscii s = true -> allAscii (map asciiLower s) = true.
Proof.
  intros Hs. apply allAscii_spec. intros c Hc.
  apply in_map_iff in Hc. destruct Hc as [c0 [<- Hc]].
  apply asciiLower_ascii. now apply (proj1 (allAscii_spec s) Hs).
Qed.

Lemma allAscii_firstn (n : nat) (s : jstr) :
  allAscii s = true -> allAscii (firstn n s) = true.
Proof.
  intros Hs. apply allAscii_spec. intros c Hc.
  apply (proj1 (allAscii_spec s) Hs). revert Hc. apply firstn_In.
Qed.

Lemma allAscii_skipn (n : nat) (s : jstr) :
  allAscii s = true -> allAscii (skipn n s) = true.
Proof.
  intros Hs. apply allAscii_spec. intros c Hc.
  apply (proj1 (allAscii_spec s) Hs). revert Hc. apply skipn_In.
Qed.

Lemma Camel_upperFirst_ascii {H : Host} {ok : HostOk H} (opts : Opts) (v : jstr) :
  localeTag (locale opts) = None ->
  allAscii v = true ->
  @CamelText.upperFirst H opts v = @CamelText.upperFirst asciiHost opts v.
Proof.
  intros Hl Hv. unfold CamelText.upperFirst. rewrite Hl.
  destruct (length v =? 0); [reflexivity|].
  unfold JS.slice, JS.sliceFrom.
  rewrite upper_ascii by now apply allAscii_firstn.
  rewrite lower_ascii by now apply allAscii_skipn.
  reflexivity.
Qed.

Lemma nth_allAscii (k : nat) (l : list jstr) :
  (forall w, In w l -> allAscii w = true) -> allAscii (nth k l []) = true.
Proof.
  intros Hl. destruct (nth_in_or_default k l []) as [Hin|E]; [auto|].
  now rewrite E.
Qed.

Lemma Camel_assemble_ascii {H : Host} {ok : HostOk H} (opts : Opts)
    (words : list jstr) :
  localeTag (locale opts) = None ->
  (forall w, In w words -> allAscii w = true) ->
  @CamelText.assemble H opts words = @CamelText.assemble asciiHost opts words.
Proof.
  intros Hl Hw. unfold CamelText.assemble.
  assert (En : map (fun w => if Camel.keptAsAcronym opts w then w
                             else @CamelText.lowerWithLocale H opts w) words
               = map (fun w => if Camel.keptAsAcronym opts w then w
                               else @CamelText.lowerWithLocale asciiHost opts w) words).
  { apply map_ext_in. intros w Hin. destruct (Camel.keptAsAcronym opts w);
      [reflexivity|]. unfold CamelText.lowerWithLocale. rewrite Hl. cbn.
    now rewrite lower_ascii by auto. }
  rewrite En.
  set (normalizedWords :=
         map (fun w => if Camel.keptAsAcronym opts w then w
                       else @CamelText.lowerWithLocale asciiHost opts w) words).
  assert (Hn : forall w, In w normalizedWords -> allAscii w = true).
  { intros w Hin. apply in_map_iff in Hin. destruct Hin as [w0 [<- Hin]].
    destruct (Camel.keptAsAcronym opts w0); [auto|].
    unfold CamelText.lowerWithLocale. rewrite Hl. cbn.
    apply map_asciiLower_allAscii. auto. }
  apply fold_left_ext. intros result k. unfold CamelText.assembleStep.
  now rewrite (Camel_upperFirst_ascii opts _ Hl (nth_allAscii k normalizedWords Hn)).
Qed.

Lemma Camel_collectWords_allAscii (opts : Opts) (rawTokens : list jstr) :
  (forall t, In t rawTokens -> allAscii t = true) ->
  forall w, In w (Camel.collectWords opts rawTokens) -> allAscii w = true.
Proof.
  intros Ht. apply Forall_forall. unfold Camel.collectWords.
  apply fold_left_Forall; [|constructor].
  intros acc token Hin Hacc. unfold Camel.wordsStep.
  destruct (length token =? 0) eqn:E0; [exact Hacc|].
  destruct (JS.testDigits token).
  - destruct (truthy (preserveNumbers opts)); [|exact Hacc].
    apply Forall_snoc; auto.
  - rewrite (Dot_split_nonempty token E0). apply fold_left_Forall; [|exact Hacc].
    intros acc' part Hp Hacc'. unfold Camel.pushPart.
    destruct (length part =? 0); [exact Hacc'|].
    apply Forall_snoc; [exact Hacc'|].
    apply (cut_allAscii caseDigitBoundary token); auto.
Qed.

Lemma Camel_convertText_ascii {H : Host} {ok : HostOk H} (opts : Opts) (s : jstr) :
  allAscii s = true ->
  truthy (normalizeDiacritics opts) = false ->
  localeTag (locale opts) = None ->
  @CamelText.convertText H opts s = @CamelText.convertText asciiHost opts s.
Proof.
  intros Hs Hd Hl. unfold CamelText.convertText, Camel.clean. rewrite Hd.
  rewrite (cleaned_ascii_agree s Hs). cbn [normalize_NFC asciiHost].
  destruct (length _ =? 0); [reflexivity|].
  destruct (length (Camel.tokenize opts _) =? 0); [reflexivity|].
  apply Camel_assemble_ascii; [exact Hl|].
  apply Camel_collectWords_allAscii.
  intros t Ht. apply (split_allAscii _ _ (cleaned_allAscii s Hs) Ht).
Qed.

(** On an ASCII text, with options that name no locale and do not ask for
    the diacritics to be stripped, a converter returns what it returns on
    the reference engine. *)
Lemma convert_ascii {H : Host} {ok : HostOk H} (st : style) (s : jstr)
    (o : OptionsArg) :
  allAscii s = true ->
  truthy (orDefault (arg_normalizeDiacritics o) (VBool false)) = false ->
  localeTag (orDefault (coerceLocale (arg_locale o)) VUndefined) = None ->
  @convert H st (VString s) o = @convert asciiHost st (VString s) o.
Proof.
  intros Hs Hd Hl.
  rewrite (@convert_noLocale H), (@convert_noLocale asciiHost) by exact Hl.
  destruct (throwRequested o && checkedOptionWrong st o); [reflexivity|].
  f_equal.
  assert (Hd' : truthy (orDefault (coerceFlag (arg_normalizeDiacritics o))
                          (VBool false)) = false)
    by now rewrite coerceFlag_truthy.
  destruct st; cbn [converted validated];
    [apply Camel_convertText_ascii | apply Kebab_convertText_ascii
     | apply Dot_convertText_ascii]; assumption.
Qed.

(** ** The assembly of the camel converter *)

Lemma Camel_assembleStep_acc {H : Host} (opts : Opts) (words nws : list jstr)
    (result : jstr) (k : nat) :
  CamelText.assembleStep opts words nws result k
  = result ++ CamelText.assembleStep opts words nws [] k.
Proof.
  unfold CamelText.assembleStep.
  destruct (k =? 0);
    repeat match goal with
           | |- context [if ?b then _ else _] => destruct b
           end; reflexivity.
Qed.

Lemma Camel_assembleStep_prefix {H : Host} (opts : Opts) (f : jstr -> jstr)
    (pre : list jstr) (w : jstr) (result : jstr) (k : nat) :
  k < length pre ->
  CamelText.assembleStep opts (pre ++ [w]) (map f (pre ++ [w])) result k
  = CamelText.assembleStep opts pre (map f pre) result k.
Proof.
  intros Hk. unfold CamelText.assembleStep.
  rewrite map_app.
  rewrite !(app_nth1 pre [w] []) by lia.
  rewrite (app_nth1 (map f pre) (map f [w]) []) by (rewrite length_map; lia).
  reflexivity.
Qed.

Lemma Camel_assemble_snoc {H : Host} (opts : Opts) (pre : list jstr) (w : jstr) :
  CamelText.assemble opts (pre ++ [w])
  = CamelText.assemble opts pre
    ++ CamelText.assembleStep opts (pre ++ [w])
         (map (fun w => if Camel.keptAsAcronym opts w then w
                        else CamelText.lowerWithLocale opts w) (pre ++ [w]))
         [] (length pre).
Proof.
  unfold CamelText.assemble.
  rewrite !length_map, length_app. cbn [length].
  rewrite seq_app, fold_left_app. cbn [seq fold_left Nat.add].
  rewrite Camel_assembleStep_acc. f_equal.
  apply fold_left_ext_in. intros result k Hk.
  apply Camel_assembleStep_prefix. apply in_seq in Hk. lia.
Qed.

Lemma Camel_assembleStep_acronym {H : Host} (opts : Opts) (pre : list jstr)
    (w : jstr) (nws : list jstr) :
  Camel.keptAsAcronym opts w = true ->
  CamelText.assembleStep opts (pre ++ [w]) nws [] (length pre) = w.
Proof.
  intros Hw. unfold CamelText.assembleStep.
  assert (E : nth (length pre) (pre ++ [w]) [] = w).
  { rewrite app_nth2 by lia. now rewrite Nat.sub_diag. }
  destruct (length pre =? 0) eqn:E0.
  - apply Nat.eqb_eq in E0. rewrite E0 in E. now rewrite E, Hw.
  - now rewrite E, Hw.
Qed.

(** A word kept as an acronym goes to the output with its own characters,
    wherever it stands. *)
Lemma Camel_assemble_acronym {H : Host} (opts : Opts) (pre : list jstr) (w : jstr)
    (post : list jstr) :
  Camel.keptAsAcronym opts w = true ->
  exists rest,
    CamelText.assemble opts (pre ++ w :: post) = CamelText.assemble opts pre ++ w ++ rest.
Proof.
  intros Hw. induction post as [|z post IH] using rev_ind.
  - exists []. rewrite Camel_assemble_snoc, Camel_assembleStep_acronym by exact Hw.
    now rewrite app_nil_r.
  - destruct IH as [rest IH].
    replace (pre ++ w :: post ++ [z]) with ((pre ++ w :: post) ++ [z])
      by now rewrite <- app_assoc.
    rewrite Camel_assemble_snoc, IH. eexists. rewrite <- !app_assoc. reflexivity.
Qed.

(** C4. toCamelCase maps hello world to helloWorld; it maps
    XML_http_request to XMLHttpRequest when preserveAcronyms and pascalCase
    are true; it maps null to the empty text when throwOnInvalid is false;
    and with preserveAcronyms a token of more than one character, all of
    them capitals or digits, goes to the output with its characters
    unchanged, the first token as any other. *)
Theorem C4_camel_scenarios {H : Host} {ok : HostOk H} :
  Camel.toCamelCase (VString (js "hello world")) noOptions
  = Return (js "helloWorld")
  /\ Camel.toCamelCase (VString (js "XML_http_request")) acronymsAndPascal
     = Return (js "XMLHttpRequest")
  /\ Camel.toCamelCase VNull (withThrowOnInvalid (VBool false)) = Return []
  /\ (forall opts pre w post,
        truthy (preserveAcronyms opts) = true ->
        JS.testUpperOrDigits w = true ->
        1 < length w ->
        (localeRejected opts = false ->
         exists r, Camel.assemble opts (pre ++ w :: post) = Return r)
        /\ (forall r,
              Camel.assemble opts (pre ++ w :: post) = Return r ->
              exists before rest,
                Camel.assemble opts pre = Return before
                /\ r = before ++ w ++ rest)).
Proof.
  split; [|split; [|split]].
  - change (Camel.toCamelCase (VString (js "hello world")) noOptions)
      with (convert camel (VString (js "hello world")) noOptions).
    rewrite convert_ascii by reflexivity. vm_compute. reflexivity.
  - change (Camel.toCamelCase (VString (js "XML_http_request")) acronymsAndPascal)
      with (convert camel (VString (js "XML_http_request")) acronymsAndPascal).
    rewrite convert_ascii by reflexivity. vm_compute. reflexivity.
  - reflexivity.
  - intros opts pre w post Ha Hu Hl.
    assert (K : Camel.keptAsAcronym opts w = true).
    { unfold Camel.keptAsAcronym. rewrite Ha, Hu. cbn [andb].
      now apply Nat.ltb_lt. }
    rewrite !Camel_assemble_run. split.
    + intros R. rewrite R. cbn [andb]. eauto.
    + intros r.
      destruct (localeRejected opts
                && existsb (fun w0 => negb (Camel.keptAsAcronym opts w0))
                     (pre ++ w :: post)) eqn:B; [discriminate|].
      intros [= <-].
      destruct (Camel_assemble_acronym opts pre w post K) as [rest E].
      exists (CamelText.assemble opts pre), rest. split; [|exact E].
      rewrite existsb_app in B.
      destruct (localeRejected opts); [|reflexivity].
      cbn [andb] in B |- *. apply orb_false_iff in B. destruct B as [B _].
      now rewrite B.
Qed.

Lemma C4_witness :
  exists before rest,
    @Camel.assemble asciiHost (Camel.defaults acronymsAndPascal) []
    = Return before
    /\ js "XMLHttpRequest" = before ++ js "XML" ++ rest.
Proof.
  apply (proj2 (proj2 (proj2 (proj2 (@C4_camel_scenarios asciiHost asciiHost_ok)))
                  (Camel.defaults acronymsAndPascal) [] (js "XML")
                  [js "http"; js "request"]
                  eq_refl eq_refl ltac:(simpl; lia))).
  reflexivity.
Defined.

(** ** The parts of the kebab and dot outputs on ASCII text *)

Lemma cutFrom_homogeneous (rule : char -> char -> option char -> bool) (s : jstr) :
  (forall p c n, xorb (isAsciiDigit p) (isAsciiDigit c) = true -> rule p c n = true) ->
  forall cur prev seg,
    (forall x, In x cur -> isAsciiDigit x = isAsciiDigit prev) ->
    In seg (cutFrom rule cur prev s) ->
    exists b, forall x, In x seg -> isAsciiDigit x = b.
Proof.
  intros Hr. induction s as [|x t IH]; intros cur prev seg Hcur; simpl.
  - intros [<-|[]]. exists (isAsciiDigit prev). intros y Hy.
    apply in_app_iff in Hy. destruct Hy as [Hy|[<-|[]]]; auto.
  - destruct (rule prev x (hd_error t)) eqn:R.
    + intros [<-|Hs].
      * exists (isAsciiDigit prev). intros y Hy.
        apply in_app_iff in Hy. destruct Hy as [Hy|[<-|[]]]; auto.
      * apply (IH [] x seg); [intros y []| exact Hs].
    + apply IH. intros y Hy.
      assert (E : isAsciiDigit prev = isAsciiDigit x).
      { destruct (xorb (isAsciiDigit prev) (isAsciiDigit x)) eqn:X.
        - rewrite (Hr _ _ _ X) in R. discriminate R.
        - now apply xorb_eq in X. }
      apply in_app_iff in Hy. destruct Hy as [Hy|[<-|[]]]; [|exact E].
      rewrite <- E. now apply Hcur.
Qed.

Lemma asciiLower_digit (c : char) :
  isAsciiDigit c = true -> asciiLower c = c.
Proof.
  unfold isAsciiDigit, asciiLower, between. intros E.
  apply andb_true_iff in E. destruct E as [E1 E2].
  apply N.leb_le in E1, E2.
  destruct (N.leb_spec 65 c); [lia | reflexivity].
Qed.

Lemma asciiLower_letter (c : char) :
  isAsciiAlnum c = true -> isAsciiDigit c = false ->
  isLowerLetter (asciiLower c) = true.
Proof.
  unfold isAsciiAlnum, isAsciiLetter. intros E D. rewrite D, orb_false_r in E.
  unfold asciiLower, isLowerLetter, between in *.
  destruct (N.leb_spec 65 c), (N.leb_spec c 90); simpl in *;
    try exact E; decide_comparisons; reflexivity.
Qed.

Lemma lowered_stable (part : jstr) :
  part <> [] ->
  (forall c, In c part -> isAsciiAlnum c = true) ->
  (exists b, forall c, In c part -> isAsciiDigit c = b) ->
  stablePart (map asciiLower part).
Proof.
  intros Hn Ha [b Hb]. split; [now destruct part|].
  destruct b; [left | right]; apply forallb_forall; intros c Hc;
    apply in_map_iff in Hc; destruct Hc as [c0 [<- Hc]].
  - rewrite asciiLower_digit; auto.
  - apply asciiLower_letter; auto.
Qed.

Lemma cleaned_ascii_chars (s : jstr) (c : char) :
  allAscii s = true ->
  In c (JS.replaceRuns JS.isWhiteSpace
          (JS.trim (JS.deleteCodePoints (@punctuationClass asciiHost)
                      (JS.replaceRuns separatorClass s)))) ->
  c = 32%N \/ isAsciiAlnum c = true.
Proof.
  intros Hs Hc. apply replaceRunsFrom_In in Hc. destruct Hc as [Hc|[Hc _]]; [now left|].
  apply trim_In in Hc.
  rewrite deleteCodePoints_ascii in Hc by now apply replaceRuns_ascii.
  apply filter_In in Hc. destruct Hc as [_ Hc]. apply negb_true_iff in Hc.
  unfold punctuationClass in Hc.
  cbn [is_L is_N is_Zs is_Emoji_Presentation is_Extended_Pictographic asciiHost]
    in Hc.
  apply negb_false_iff in Hc. unfold isAsciiAlnum.
  destruct (isAsciiLetter c), (isAsciiDigit c); auto.
  left. apply N.eqb_eq. revert Hc. cbn [orb].
  destruct (c =? 32)%N; [reflexivity | discriminate].
Qed.

Lemma Kebab_collectParts_stable (opts : Opts) (tokens : list jstr) :
  (forall t c, In t tokens -> In c t -> isAsciiAlnum c = true) ->
  Forall stablePart (@KebabText.collectParts asciiHost opts tokens).
Proof.
  intros Ht. unfold KebabText.collectParts.
  apply fold_left_Forall; [|constructor].
  intros acc token Hin Hacc. unfold KebabText.tokenStep.
  destruct (length token =? 0) eqn:E0; [exact Hacc|].
  destruct (JS.testDigits token) eqn:Ed.
  - destruct (truthy (preserveNumbers opts)); [|exact Hacc].
    apply Forall_snoc; [exact Hacc|].
    split; [now apply testDigits_nonempty|]. left.
    unfold JS.testDigits in Ed. now apply andb_true_iff in Ed.
  - rewrite Kebab_split_cut.
    destruct token as [|x t] eqn:Et; [discriminate E0|]. rewrite <- Et in *.
    apply fold_left_Forall; [|exact Hacc].
    intros acc' part Hp Hacc'. unfold KebabText.pushPart.
    destruct (length part =? 0); [exact Hacc'|].
    apply Forall_snoc; [exact Hacc'|].
    assert (L : forall tag : option jstr,
               match tag with
               | Some l => @localeLowerCase asciiHost l part
               | None => @toLowerCase asciiHost part
               end = map asciiLower part) by (intros [l|]; reflexivity).
    rewrite L.
    destruct (cut_In _ _ _ Hp) as [Hn Hc].
    apply lowered_stable; [exact Hn | intros c Hin'; apply (Ht token); auto |].
    rewrite Et in Hp. unfold cut in Hp.
    apply (cutFrom_homogeneous caseDigitBoundary t) with (cur := []) (prev := x);
      [|intros y []| exact Hp].
    intros p c n X. unfold caseDigitBoundary. rewrite X. apply orb_true_r.
Qed.

Lemma Dot_collectParts_stable (opts : Opts) (tokens : list jstr) :
  (forall t c, In t tokens -> In c t -> isAsciiAlnum c = true) ->
  Forall stablePart (@DotText.collectParts asciiHost opts tokens).
Proof.
  intros Ht. unfold DotText.collectParts.
  apply fold_left_Forall; [|constructor].
  intros acc token Hin Hacc. unfold DotText.tokenStep.
  destruct (length token =? 0) eqn:E0; [exact Hacc|].
  destruct (JS.testDigits token) eqn:Ed.
  - destruct (truthy (preserveNumbers opts)); [|exact Hacc].
    apply Forall_snoc; [exact Hacc|].
    split; [now apply testDigits_nonempty|]. left.
    unfold JS.testDigits in Ed. now apply andb_true_iff in Ed.
  - rewrite Dot_split_cut.
    destruct token as [|x t] eqn:Et; [discriminate E0|]. rewrite <- Et in *.
    apply fold_left_Forall; [|exact Hacc].
    intros acc' part Hp Hacc'. unfold DotText.pushPart.
    destruct (length part =? 0); [exact Hacc'|].
    apply Forall_snoc; [exact Hacc'|].
    assert (L : forall tag : option jstr,
               match tag with
               | Some l => @localeLowerCase asciiHost l part
               | None => @toLowerCase asciiHost part
               end = map asciiLower part) by (intros [l|]; reflexivity).
    rewrite L.
    destruct (cut_In _ _ _ Hp) as [Hn Hc].
    apply lowered_stable; [exact Hn | intros c Hin'; apply (Ht token); auto |].
    rewrite Et in Hp. unfold cut in Hp.
    apply (cutFrom_homogeneous caseDigitBoundary t) with (cur := []) (prev := x);
      [|intros y []| exact Hp].
    intros p c n X. unfold caseDigitBoundary. rewrite X. apply orb_true_r.
Qed.

(** ** A second run on the output of the kebab and dot converters *)

Lemma replaceRunsFrom_free (cls : char -> bool) (p rest : jstr) :
  (forall c, In c p -> cls c = false) ->
  JS.replaceRunsFrom cls false (p ++ rest) = p ++ JS.replaceRunsFrom cls false rest.
Proof.
  induction p as [|c p IH]; intros Hp; [reflexivity|].
  simpl. rewrite (Hp c) by now left. rewrite IH; [reflexivity|].
  intros d Hd. apply Hp. now right.
Qed.

Lemma replaceRunsFrom_join (cls : char -> bool) (j : char) (parts : list jstr) :
  cls j = true ->
  Forall (fun p => p <> [] /\ forall c, In c p -> cls c = false) parts ->
  JS.replaceRunsFrom cls false (JS.join [j] parts) = JS.join [32%N] parts.
Proof.
  intros Hj. induction 1 as [|p rest [Hn Hp] Hrest IH]; [reflexivity|].
  destruct rest as [|q rest].
  - cbn [JS.join]. rewrite <- (app_nil_r p) at 1.
    rewrite replaceRunsFrom_free by exact Hp. cbn. now rewrite app_nil_r.
  - change (JS.join [j] (p :: q :: rest))
      with (p ++ j :: JS.join [j] (q :: rest)).
    change (JS.join [32%N] (p :: q :: rest))
      with (p ++ 32%N :: JS.join [32%N] (q :: rest)).
    rewrite replaceRunsFrom_free by exact Hp. f_equal.
    cbn [JS.replaceRunsFrom]. rewrite Hj. f_equal.
    rewrite <- IH.
    inversion Hrest as [|? ? [Hq Hqc] _]; subst.
    destruct q as [|c q]; [contradiction|].
    destruct rest as [|q' rest];
      [cbn [JS.join] | change (JS.join [j] ((c :: q) :: q' :: rest))
                         with (c :: (q ++ j :: JS.join [j] (q' :: rest)))];
      cbn [JS.replaceRunsFrom]; now rewrite (Hqc c) by now left.
Qed.

Lemma join_first (R : char -> Prop) (sep : jstr) (parts : list jstr) :
  Forall (fun p => p <> [] /\ forall c, In c p -> R c) parts ->
  parts <> [] ->
  exists c s', JS.join sep parts = c :: s' /\ R c.
Proof.
  intros Hp Hn. destruct parts as [|p rest]; [contradiction|].
  inversion Hp as [|? ? [Hpn Hpc] _]; subst.
  destruct p as [|c p]; [contradiction|].
  destruct rest as [|q rest].
  - exists c, p. split; [reflexivity | apply Hpc; now left].
  - exists c, (p ++ sep ++ JS.join sep (q :: rest)).
    split; [reflexivity | apply Hpc; now left].
Qed.

Lemma join_last (R : char -> Prop) (sep : jstr) (parts : list jstr) :
  Forall (fun p => p <> [] /\ forall c, In c p -> R c) parts ->
  parts <> [] ->
  exists s' d, JS.join sep parts = s' ++ [d] /\ R d.
Proof.
  induction 1 as [|p rest [Hpn Hpc] Hrest IH]; intros Hn; [contradiction|].
  destruct rest as [|q rest].
  - destruct (exists_last Hpn) as [p' [d E]]. exists p', d.
    split; [exact E | apply Hpc; rewrite E; apply in_app_iff; right; now left].
  - destruct IH as [s' [d [E Hd]]]; [discriminate|].
    exists (p ++ sep ++ s'), d. split; [|exact Hd].
    change (JS.join sep (p :: q :: rest)) with (p ++ sep ++ JS.join sep (q :: rest)).
    rewrite E, <- !app_assoc. reflexivity.
Qed.

Lemma trim_id (s : jstr) :
  (exists c s', s = c :: s' /\ JS.isWhiteSpace c = false) ->
  (exists s' d, s = s' ++ [d] /\ JS.isWhiteSpace d = false) ->
  JS.trim s = s.
Proof.
  intros [c [s1 [E1 Hc]]] [s2 [d [E2 Hd]]]. unfold JS.trim.
  assert (D1 : JS.dropWhile JS.isWhiteSpace s = s)
    by (rewrite E1; simpl; now rewrite Hc).
  rewrite D1. rewrite E2 at 1. rewrite rev_app_distr. simpl. rewrite Hd.
  change (d :: rev s2) with (rev [d] ++ rev s2).
  now rewrite <- rev_app_distr, rev_involutive, <- E2.
Qed.

Lemma split_free (sep : N) (p : jstr) :
  (forall c, In c p -> c <> sep) -> JS.split sep p = [p].
Proof.
  induction p as [|c p IH]; intros Hp; [reflexivity|].
  simpl. destruct (N.eqb_spec c sep) as [E|_].
  - exfalso. apply (Hp c); [now left | exact E].
  - rewrite IH; [reflexivity|]. intros d Hd. apply Hp. now right.
Qed.

Lemma split_app_sep (sep : N) (p rest : jstr) :
  (forall c, In c p -> c <> sep) ->
  JS.split sep (p ++ sep :: rest) = p :: JS.split sep rest.
Proof.
  induction p as [|c p IH]; intros Hp.
  - simpl. now rewrite N.eqb_refl.
  - simpl. destruct (N.eqb_spec c sep) as [E|_].
    + exfalso. apply (Hp c); [now left | exact E].
    + rewrite IH; [reflexivity|]. intros d Hd. apply Hp. now right.
Qed.

Lemma split_join (sep : N) (parts : list jstr) :
  Forall (fun p => p <> [] /\ forall c, In c p -> c <> sep) parts ->
  parts <> [] ->
  JS.split sep (JS.join [sep] parts) = parts.
Proof.
  induction 1 as [|p rest [Hpn Hpc] Hrest IH]; intros Hn; [contradiction|].
  destruct rest as [|q rest].
  - now apply split_free.
  - change (JS.join [sep] (p :: q :: rest))
      with (p ++ sep :: JS.join [sep] (q :: rest)).
    rewrite split_app_sep by exact Hpc. f_equal. apply IH. discriminate.
Qed.

Lemma stablePart_chars (p : jstr) :
  stablePart p ->
  forall c, In c p -> isAsciiDigit c = true \/ isLowerLetter c = true.
Proof.
  intros [_ [Hd|Hl]] c Hc; [left | right];
    [apply (proj1 (forallb_forall _ _) Hd) | apply (proj1 (forallb_forall _ _) Hl)];
    exact Hc.
Qed.

Lemma stable_char_facts (c : char) :
  isAsciiDigit c = true \/ isLowerLetter c = true ->
  separatorClass c = false /\ JS.isWhiteSpace c = false /\ c <> 32%N
  /\ isAscii c = true /\ @punctuationClass asciiHost c = false.
Proof.
  intros Hc.
  assert (R : (48 <= c <= 57)%N \/ (97 <= c <= 122)%N).
  { unfold isAsciiDigit, isLowerLetter, between in Hc.
    destruct Hc as [Hc|Hc]; apply andb_true_iff in Hc; destruct Hc as [A B];
      apply N.leb_le in A, B; lia. }
  clear Hc.
  assert (S : separatorClass c = false).
  { unfold separatorClass, JS.isWhiteSpace, between.
    decide_comparisons; reflexivity. }
  split; [exact S|].
  split; [unfold separatorClass in S;
          do 5 (apply orb_false_iff in S; destruct S as [S _]); exact S|].
  split; [lia|].
  split; [unfold isAscii; apply N.ltb_lt; lia|].
  unfold punctuationClass.
  cbn [is_L is_N is_Zs is_Emoji_Presentation is_Extended_Pictographic asciiHost].
  unfold isAsciiLetter, isAsciiDigit, between.
  decide_comparisons; reflexivity.
Qed.

Lemma stablePart_allAscii (p : jstr) : stablePart p -> allAscii p = true.
Proof.
  intros Hp. apply allAscii_spec. intros c Hc.
  apply (stable_char_facts c). now apply (stablePart_chars p).
Qed.

Lemma join_allAscii (j : char) (parts : list jstr) :
  isAscii j = true ->
  Forall stablePart parts ->
  allAscii (JS.join [j] parts) = true.
Proof.
  intros Hj Hp. apply allAscii_spec. intros c Hc.
  apply join_In in Hc. destruct Hc as [[<-|[]]|[p [Hin Hc]]]; [exact Hj|].
  rewrite Forall_forall in Hp.
  apply (proj1 (allAscii_spec p) (stablePart_allAscii p (Hp p Hin))). exact Hc.
Qed.

Lemma stableParts_free (cls : char -> Prop) (parts : list jstr) :
  (forall c, isAsciiDigit c = true \/ isLowerLetter c = true -> cls c) ->
  Forall stablePart parts ->
  Forall (fun p => p <> [] /\ forall c, In c p -> cls c) parts.
Proof.
  intros Hcls Hp. apply Forall_forall. intros p Hin.
  rewrite Forall_forall in Hp. specialize (Hp p Hin).
  split; [apply Hp|]. intros c Hc. apply Hcls. now apply (stablePart_chars p).
Qed.

(** The cleaning, on parts joined by one separator: the parts joined by
    one space. *)
Lemma cleaned_join_stable (j : char) (parts : list jstr) :
  separatorClass j = true -> isAscii j = true ->
  Forall stablePart parts ->
  JS.replaceRuns JS.isWhiteSpace
    (JS.trim (JS.deleteCodePoints (@punctuationClass asciiHost)
                (JS.replaceRuns separatorClass (JS.join [j] parts))))
  = JS.join [32%N] parts.
Proof.
  intros Hj Ha Hp. unfold JS.replaceRuns.
  rewrite (replaceRunsFrom_join separatorClass j parts Hj)
    by (apply (stableParts_free (fun c => separatorClass c = false));
        [intros c Hc; apply (stable_char_facts c Hc) | exact Hp]).
  rewrite deleteCodePoints_ascii by now apply join_allAscii.
  assert (F : filter (fun c => negb (@punctuationClass asciiHost c))
                (JS.join [32%N] parts) = JS.join [32%N] parts).
  { apply forallb_filter_id. apply forallb_forall. intros c Hc.
    apply join_In in Hc. destruct Hc as [[<-|[]]|[p [Hin Hc]]]; [reflexivity|].
    rewrite Forall_forall in Hp. apply negb_true_iff.
    apply (stable_char_facts c). now apply (stablePart_chars p (Hp p Hin)). }
  rewrite F.
  assert (W : Forall (fun p => p <> [] /\ forall c, In c p -> JS.isWhiteSpace c = false)
                parts).
  { apply (stableParts_free (fun c => JS.isWhiteSpace c = false));
      [intros c Hc; apply (stable_char_facts c Hc) | exact Hp]. }
  destruct parts as [|p rest]; [reflexivity|].
  rewrite trim_id.
  - now apply replaceRunsFrom_join.
  - apply (join_first (fun c => JS.isWhiteSpace c = false)); [exact W | discriminate].
  - apply (join_last (fun c => JS.isWhiteSpace c = false)); [exact W | discriminate].
Qed.

Lemma caseDigitBoundary_lower (a b : char) (n : option char) :
  isLowerLetter a = true -> isLowerLetter b = true ->
  caseDigitBoundary a b n = false.
Proof.
  unfold caseDigitBoundary, isLowerLetter, isUpperLetter, isAsciiDigit, between.
  intros A B. apply andb_true_iff in A, B. destruct A as [A1 A2], B as [B1 B2].
  apply N.leb_le in A1, A2, B1, B2.
  decide_comparisons; reflexivity.
Qed.

Lemma asciiLower_lower (c : char) : isLowerLetter c = true -> asciiLower c = c.
Proof.
  unfold isLowerLetter, asciiLower, between. intros E.
  apply andb_true_iff in E. destruct E as [E1 E2]. apply N.leb_le in E1, E2.
  destruct (N.leb_spec 65 c), (N.leb_spec c 90); simpl; try reflexivity; lia.
Qed.

Lemma Kebab_tokenStep_stable (opts : Opts) (outParts : list jstr) (p : jstr) :
  truthy (preserveNumbers opts) = true ->
  stablePart p ->
  @KebabText.tokenStep asciiHost opts outParts p = outParts ++ [p].
Proof.
  intros Hpn [Hn Hp]. unfold KebabText.tokenStep.
  assert (L : (length p =? 0) = false) by now destruct p.
  rewrite L.
  destruct (JS.testDigits p) eqn:D; [now rewrite Hpn|].
  destruct Hp as [Hd|Hl].
  { assert (T : JS.testDigits p = true)
      by (apply testDigits_spec; split;
          [exact Hn | apply (proj1 (forallb_forall _ _) Hd)]).
    rewrite T in D. discriminate D. }
  rewrite Kebab_split_cut.
  assert (C : cut caseDigitBoundary p = [p]).
  { destruct p as [|x t]; [contradiction|].
    apply (cutFrom_no_boundary caseDigitBoundary t [] x).
    intros a b n Ha Hb.
    apply caseDigitBoundary_lower;
      [apply (proj1 (forallb_forall _ _) Hl a Ha)
      | apply (proj1 (forallb_forall _ _) Hl b); now right]. }
  destruct p as [|x t] eqn:Ep; [contradiction|]. rewrite <- Ep in *.
  rewrite C. cbn [fold_left]. unfold KebabText.pushPart. rewrite L.
  assert (M : map asciiLower p = p).
  { rewrite <- (map_id p) at 2. apply map_ext_in. intros c Hc.
    apply asciiLower_lower. apply (proj1 (forallb_forall _ _) Hl c Hc). }
  destruct (localeTag (locale opts)); cbn [localeLowerCase toLowerCase asciiHost];
    now rewrite M.
Qed.

Lemma Kebab_collectParts_on_stable (opts : Opts) (parts : list jstr) :
  truthy (preserveNumbers opts) = true ->
  Forall stablePart parts ->
  @KebabText.collectParts asciiHost opts parts = parts.
Proof.
  intros Hpn Hp. unfold KebabText.collectParts.
  assert (G : forall acc, fold_left (@KebabText.tokenStep asciiHost opts) parts acc
                          = acc ++ parts).
  { induction Hp as [|p rest Hs Hrest IH]; intros acc; simpl.
    - now rewrite app_nil_r.
    - rewrite (Kebab_tokenStep_stable opts acc p Hpn Hs), IH, <- app_assoc.
      reflexivity. }
  apply (G []).
Qed.

(** The converter, on stable parts joined by one separator, gives the parts
    joined by its joiner. *)
Lemma Kebab_convertText_on_stable (opts : Opts) (j : char) (parts : list jstr) :
  truthy (normalizeDiacritics opts) = false ->
  truthy (preserveNumbers opts) = true ->
  separatorClass j = true -> isAscii j = true ->
  Forall stablePart parts ->
  @KebabText.convertText asciiHost opts (JS.join [j] parts) = JS.join [45%N] parts.
Proof.
  intros Hd Hpn Hj Ha Hp. unfold KebabText.convertText, Kebab.clean. rewrite Hd.
  cbn [normalize_NFC asciiHost].
  rewrite (cleaned_join_stable j parts Hj Ha Hp).
  destruct parts as [|p rest]; [reflexivity|].
  assert (N0 : (length (JS.join [32%N] (p :: rest)) =? 0) = false).
  { inversion Hp as [|? ? [Hn _] _]; subst.
    pose proof (join_nonempty [32%N] p rest Hn) as J.
    now destruct (JS.join [32%N] (p :: rest)). }
  rewrite N0. unfold KebabText.tokenize.
  rewrite split_join;
    [| apply (stableParts_free (fun c => c <> 32%N));
       [intros c Hc; apply (stable_char_facts c Hc) | exact Hp]
     | discriminate].
  now rewrite Kebab_collectParts_on_stable.
Qed.

(** On ASCII text the output of the converter is made of stable parts. *)
Lemma Kebab_convertText_shape (opts : Opts) (s : jstr) :
  allAscii s = true ->
  truthy (normalizeDiacritics opts) = false ->
  exists parts,
    Forall stablePart parts
    /\ @KebabText.convertText asciiHost opts s = JS.join [45%N] parts.
Proof.
  intros Hs Hd. unfold KebabText.convertText, Kebab.clean. rewrite Hd.
  cbn [normalize_NFC asciiHost].
  destruct (length _ =? 0).
  - exists []. split; [constructor | reflexivity].
  - eexists. split; [|reflexivity].
    apply Kebab_collectParts_stable. intros t c Ht Hc.
    destruct (split_In _ _ _ _ Ht Hc) as [Hin Hne].
    apply cleaned_ascii_chars in Hin; [|exact Hs].
    destruct Hin as [Hin|Hin]; [contradiction | exact Hin].
Qed.

Lemma Dot_tokenStep_stable (opts : Opts) (outParts : list jstr) (p : jstr) :
  truthy (preserveNumbers opts) = true ->
  stablePart p ->
  @DotText.tokenStep asciiHost opts outParts p = outParts ++ [p].
Proof.
  intros Hpn [Hn Hp]. unfold DotText.tokenStep.
  assert (L : (length p =? 0) = false) by now destruct p.
  rewrite L.
  destruct (JS.testDigits p) eqn:D; [now rewrite Hpn|].
  destruct Hp as [Hd|Hl].
  { assert (T : JS.testDigits p = true)
      by (apply testDigits_spec; split;
          [exact Hn | apply (proj1 (forallb_forall _ _) Hd)]).
    rewrite T in D. discriminate D. }
  rewrite Dot_split_cut.
  assert (C : cut caseDigitBoundary p = [p]).
  { destruct p as [|x t]; [contradiction|].
    apply (cutFrom_no_boundary caseDigitBoundary t [] x).
    intros a b n Ha Hb.
    apply caseDigitBoundary_lower;
      [apply (proj1 (forallb_forall _ _) Hl a Ha)
      | apply (proj1 (forallb_forall _ _) Hl b); now right]. }
  destruct p as [|x t] eqn:Ep; [contradiction|]. rewrite <- Ep in *.
  rewrite C. cbn [fold_left]. unfold DotText.pushPart. rewrite L.
  assert (M : map asciiLower p = p).
  { rewrite <- (map_id p) at 2. apply map_ext_in. intros c Hc.
    apply asciiLower_lower. apply (proj1 (forallb_forall _ _) Hl c Hc). }
  destruct (localeTag (locale opts)); cbn [localeLowerCase toLowerCase asciiHost];
    now rewrite M.
Qed.

Lemma Dot_collectParts_on_stable (opts : Opts) (parts : list jstr) :
  truthy (preserveNumbers opts) = true ->
  Forall stablePart parts ->
  @DotText.collectParts asciiHost opts parts = parts.
Proof.
  intros Hpn Hp. unfold DotText.collectParts.
  assert (G : forall acc, fold_left (@DotText.tokenStep asciiHost opts) parts acc
                          = acc ++ parts).
  { induction Hp as [|p rest Hs Hrest IH]; intros acc; simpl.
    - now rewrite app_nil_r.
    - rewrite (Dot_tokenStep_stable opts acc p Hpn Hs), IH, <- app_assoc.
      reflexivity. }
  apply (G []).
Qed.

(** The converter, on stable parts joined by one separator, gives the parts
    joined by its joiner. *)
Lemma Dot_convertText_on_stable (opts : Opts) (j : char) (parts : list jstr) :
  truthy (normalizeDiacritics opts) = false ->
  truthy (preserveNumbers opts) = true ->
  separatorClass j = true -> isAscii j = true ->
  Forall stablePart parts ->
  @DotText.convertText asciiHost opts (JS.join [j] parts) = JS.join [46%N] parts.
Proof.
  intros Hd Hpn Hj Ha Hp. unfold DotText.convertText, Dot.clean. rewrite Hd.
  cbn [normalize_NFC asciiHost].
  rewrite (cleaned_join_stable j parts Hj Ha Hp).
  destruct parts as [|p rest]; [reflexivity|].
  assert (N0 : (length (JS.join [32%N] (p :: rest)) =? 0) = false).
  { inversion Hp as [|? ? [Hn _] _]; subst.
    pose proof (join_nonempty [32%N] p rest Hn) as J.
    now destruct (JS.join [32%N] (p :: rest)). }
  rewrite N0. unfold DotText.tokenize.
  rewrite split_join;
    [| apply (stableParts_free (fun c => c <> 32%N));
       [intros c Hc; apply (stable_char_facts c Hc) | exact Hp]
     | discriminate].
  now rewrite Dot_collectParts_on_stable.
Qed.

(** On ASCII text the output of the converter is made of stable parts. *)
Lemma Dot_convertText_shape (opts : Opts) (s : jstr) :
  allAscii s = true ->
  truthy (normalizeDiacritics opts) = false ->
  exists parts,
    Forall stablePart parts
    /\ @DotText.convertText asciiHost opts s = JS.join [46%N] parts.
Proof.
  intros Hs Hd. unfold DotText.convertText, Dot.clean. rewrite Hd.
  cbn [normalize_NFC asciiHost].
  destruct (length _ =? 0).
  - exists []. split; [constructor | reflexivity].
  - eexists. split; [|reflexivity].
    apply Dot_collectParts_stable. intros t c Ht Hc.
    destruct (split_In _ _ _ _ Ht Hc) as [Hin Hne].
    apply cleaned_ascii_chars in Hin; [|exact Hs].
    destruct Hin as [Hin|Hin]; [contradiction | exact Hin].
Qed.

(** ** Idempotence *)

(** C5, as the code has it. On ASCII text and with the default options the
    kebab and the dot converters are idempotent: converting the output
    again gives the output. Nothing of the kind is stated of the camel
    converter. *)
Theorem C5_kebab_dot_idempotent_on_ascii {H : Host} {ok : HostOk H} :
  forall (st : style) (x r : jstr),
    st <> camel ->
    allAscii x = true ->
    convert st (VString x) noOptions = Return r ->
    convert st (VString r) noOptions = Return r.
Proof.
  intros st x r Hst Hx. destruct st; [contradiction| |].
  - rewrite convert_ascii by (assumption || reflexivity).
    rewrite (@convert_default_kebab asciiHost x).
    destruct (Kebab_convertText_shape (Kebab.defaults noOptions) x Hx eq_refl)
      as [parts [Hp E]].
    rewrite E. intros [= <-].
    rewrite convert_ascii;
      [| now apply join_allAscii | reflexivity | reflexivity].
    rewrite (@convert_default_kebab asciiHost ((JS.join [45%N] parts))).
    now rewrite Kebab_convertText_on_stable.
  - rewrite convert_ascii by (assumption || reflexivity).
    rewrite (@convert_default_dot asciiHost x).
    destruct (Dot_convertText_shape (Dot.defaults noOptions) x Hx eq_refl)
      as [parts [Hp E]].
    rewrite E. intros [= <-].
    rewrite convert_ascii;
      [| now apply join_allAscii | reflexivity | reflexivity].
    rewrite (@convert_default_dot asciiHost ((JS.join [46%N] parts))).
    now rewrite Dot_convertText_on_stable.
Qed.

Lemma C5_witness :
  @convert asciiHost kebab (VString (js "hello-world-test")) noOptions
  = Return (js "hello-world-test").
Proof.
  apply (@C5_kebab_dot_idempotent_on_ascii asciiHost asciiHost_ok kebab
           (js " Hello__WORLD--test ") (js "hello-world-test")).
  - discriminate.
  - reflexivity.
  - vm_compute. reflexivity.
Defined.

(** C5 as it is stated fails. For the camel converter: a b c becomes aBC,
    and aBC, whose two capitals are one word for the splitter, becomes aBc.
    For the kebab converter outside ASCII: the capital I with a dot above
    becomes i followed by the combining dot above, and a second run deletes
    the combining dot, which is no letter. *)
Lemma C5_counterexample :
  (@convert asciiHost camel (VString (js "a b c")) noOptions = Return (js "aBC")
   /\ @convert asciiHost camel (VString (js "aBC")) noOptions = Return (js "aBc")
   /\ @convert asciiHost camel (VString (js "aBC")) noOptions
      <> @convert asciiHost camel (VString (js "a b c")) noOptions)
  /\ (HostOk dottedHost
      /\ @convert dottedHost kebab (VString [0x130]%N) noOptions
         = Return [0x69; 0x307]%N
      /\ @convert dottedHost kebab (VString [0x69; 0x307]%N) noOptions
         = Return [0x69]%N).
Proof.
  split; [|split; [exact dottedHost_ok|]];
    repeat split; vm_compute; try reflexivity; discriminate.
Qed.

(** * Further properties of the converters *)

(** ** The splitters lose nothing *)

Lemma cutFrom_concat (rule : char -> char -> option char -> bool) (s : jstr) :
  forall cur prev, concat (cutFrom rule cur prev s) = cur ++ prev :: s.
Proof.
  induction s as [|x t IH]; intros cur prev; simpl.
  - now rewrite app_nil_r.
  - destruct (rule prev x (hd_error t)); simpl; rewrite IH;
      now rewrite <- app_assoc.
Qed.

Lemma cut_concat (rule : char -> char -> option char -> bool) (token : jstr) :
  concat (cut rule token) = token.
Proof.
  destruct token as [|x t]; [reflexivity|]. apply (cutFrom_concat rule t [] x).
Qed.

Lemma cut_nonempty (rule : char -> char -> option char -> bool) (token : jstr) :
  Forall (fun seg => seg <> []) (cut rule token).
Proof.
  apply Forall_forall. intros seg Hs. now apply cut_In in Hs.
Qed.

(** X1. The three splitters lose, add and move no character: the segments
    of a token, put end to end, are the token. The camel splitter never
    returns an empty segment; the kebab and dot splitters return one only
    for the empty token, whose only segment is empty. *)
Theorem X1_splitters_partition_the_token :
  forall token : jstr,
    (forall pa,
       concat (Camel.splitOnCaseAndNumberTransitions token pa) = token
       /\ Forall (fun seg => seg <> [])
            (Camel.splitOnCaseAndNumberTransitions token pa))
    /\ concat (Kebab.splitOnCaseAndNumberTransitions token) = token
    /\ concat (Dot.splitOnCaseAndNumberTransitions token) = token
    /\ (Forall (fun seg => seg <> []) (Kebab.splitOnCaseAndNumberTransitions token)
        <-> token <> [])
    /\ (Forall (fun seg => seg <> []) (Dot.splitOnCaseAndNumberTransitions token)
        <-> token <> [])
    /\ Kebab.splitOnCaseAndNumberTransitions [] = [[]]
    /\ Dot.splitOnCaseAndNumberTransitions [] = [[]].
Proof.
  intros token. rewrite Kebab_split_cut, Dot_split_cut.
  split; [|split; [|split; [|split; [|split]]]].
  - intros pa. rewrite Camel_split_cut. split; [apply cut_concat | apply cut_nonempty].
  - destruct token; [reflexivity | apply cut_concat].
  - destruct token; [reflexivity | apply cut_concat].
  - destruct token as [|x t].
    + split; [intros F; inversion F; congruence | congruence].
    + split; [discriminate | intros _; apply cut_nonempty].
  - destruct token as [|x t].
    + split; [intros F; inversion F; congruence | congruence].
    + split; [discriminate | intros _; apply cut_nonempty].
  - split; reflexivity.
Qed.

(** ** Where the kebab and dot splitters agree with the camel splitter *)

Lemma cutFrom_noCapitalPair (s : jstr) :
  forall cur prev,
    noCapitalPair (prev :: s) = true ->
    cutFrom specBoundary cur prev s = cutFrom caseDigitBoundary cur prev s.
Proof.
  induction s as [|x t IH]; intros cur prev Hn; [reflexivity|].
  change (noCapitalPair (prev :: x :: t))
    with (negb (isUpperLetter prev && isUpperLetter x) && noCapitalPair (x :: t))
    in Hn.
  apply andb_true_iff in Hn. destruct Hn as [Hp Ht].
  apply negb_true_iff in Hp.
  cbn [cutFrom].
  assert (E : specBoundary prev x (hd_error t)
              = caseDigitBoundary prev x (hd_error t)).
  { unfold specBoundary, caseDigitBoundary. rewrite Hp. cbn [andb].
    apply orb_false_r. }
  rewrite E. destruct (caseDigitBoundary prev x (hd_error t)); now rewrite IH.
Qed.

(** X2. On a token in which no two capitals follow each other the kebab
    and dot splitters return what the camel splitter returns: the three
    differ on runs of capitals only. *)
Theorem X2_splitters_agree_without_capital_runs :
  forall (token : jstr) (pa : bool),
    token <> [] ->
    noCapitalPair token = true ->
    Kebab.splitOnCaseAndNumberTransitions token
    = Camel.splitOnCaseAndNumberTransitions token pa
    /\ Dot.splitOnCaseAndNumberTransitions token
       = Camel.splitOnCaseAndNumberTransitions token pa.
Proof.
  intros token pa Hn Hc.
  rewrite Kebab_split_cut, Dot_split_cut, Camel_split_cut.
  destruct token as [|x t]; [contradiction|].
  unfold cut. now rewrite (cutFrom_noCapitalPair t [] x Hc).
Qed.

Lemma X2_witness :
  Kebab.splitOnCaseAndNumberTransitions (js "userId2Name")
  = Camel.splitOnCaseAndNumberTransitions (js "userId2Name") false
  /\ Dot.splitOnCaseAndNumberTransitions (js "userId2Name")
     = Camel.splitOnCaseAndNumberTransitions (js "userId2Name") false.
Proof.
  apply (X2_splitters_agree_without_capital_runs (js "userId2Name") false).
  - discriminate.
  - reflexivity.
Defined.

(** ** The options after their validation *)

Lemma isBoolean_VBool (b : bool) : isBoolean (VBool b) = true.
Proof. reflexivity. Qed.

Lemma isNullish_VUndefined : isNullish VUndefined = true.
Proof. reflexivity. Qed.

Ltac norm_options_in E :=
  repeat (progress (cbn -[isBoolean isNullish isString truthy] in E;
                    rewrite ?isBoolean_VBool, ?isNullish_VUndefined in E)).

Ltac norm_options :=
  repeat (progress (cbn -[isBoolean isNullish isString truthy];
                    rewrite ?isBoolean_VBool, ?isNullish_VUndefined)).

Lemma Camel_validateOptions_typed (opts opts' : Opts) :
  Camel.validateOptions opts = Return opts' ->
  wellTyped camel opts' = true /\ Camel.validateOptions opts' = Return opts'.
Proof.
  intros E. destruct opts as [pa loc nd toi pn pc].
  unfold Camel.validateOptions, bind in E.
  destruct (isBoolean pa) eqn:Bpa, (truthy toi) eqn:Ttoi,
    (isNullish loc) eqn:Nloc, (isString loc) eqn:Sloc, (isBoolean nd) eqn:Bnd,
    (isBoolean toi) eqn:Btoi, (isBoolean pn) eqn:Bpn, (isBoolean pc) eqn:Bpc;
    repeat (progress (norm_options_in E;
                      rewrite ?Bpa, ?Nloc, ?Sloc, ?Bnd, ?Btoi, ?Bpn, ?Bpc, ?Ttoi in E));
    try discriminate E; injection E as <-;
    (split; [unfold wellTyped | unfold Camel.validateOptions, bind];
     repeat (progress (norm_options;
                       rewrite ?Bpa, ?Nloc, ?Sloc, ?Bnd, ?Btoi, ?Bpn, ?Bpc, ?Ttoi));
     reflexivity).
Qed.

Lemma Kebab_validateOptions_typed (opts opts' : Opts) :
  Kebab.validateOptions opts = Return opts' ->
  wellTyped kebab opts' = true /\ Kebab.validateOptions opts' = Return opts'.
Proof.
  intros E. destruct opts as [pa loc nd toi pn pc].
  unfold Kebab.validateOptions, bind in E.
  destruct (truthy toi) eqn:Ttoi,
    (isNullish loc) eqn:Nloc, (isString loc) eqn:Sloc, (isBoolean nd) eqn:Bnd,
    (isBoolean toi) eqn:Btoi, (isBoolean pn) eqn:Bpn;
    repeat (progress (norm_options_in E;
                      rewrite ?Nloc, ?Sloc, ?Bnd, ?Btoi, ?Bpn, ?Ttoi in E));
    try discriminate E; injection E as <-;
    (split; [unfold wellTyped | unfold Kebab.validateOptions, bind];
     repeat (progress (norm_options;
                       rewrite ?Nloc, ?Sloc, ?Bnd, ?Btoi, ?Bpn, ?Ttoi));
     reflexivity).
Qed.

Lemma Dot_validateOptions_typed (opts opts' : Opts) :
  Dot.validateOptions opts = Return opts' ->
  wellTyped dot opts' = true /\ Dot.validateOptions opts' = Return opts'.
Proof.
  intros E. destruct opts as [pa loc nd toi pn pc].
  unfold Dot.validateOptions, bind in E.
  destruct (truthy toi) eqn:Ttoi,
    (isNullish loc) eqn:Nloc, (isString loc) eqn:Sloc, (isBoolean nd) eqn:Bnd,
    (isBoolean toi) eqn:Btoi, (isBoolean pn) eqn:Bpn;
    repeat (progress (norm_options_in E;
                      rewrite ?Nloc, ?Sloc, ?Bnd, ?Btoi, ?Bpn, ?Ttoi in E));
    try discriminate E; injection E as <-;
    (split; [unfold wellTyped | unfold Dot.validateOptions, bind];
     repeat (progress (norm_options;
                       rewrite ?Nloc, ?Sloc, ?Bnd, ?Btoi, ?Bpn, ?Ttoi));
     reflexivity).
Qed.

(** X3. When the validation of the options raises nothing, every option the
    converter reads afterwards has a value of its type, a boolean for a
    flag and a string, null or undefined for the locale; and validating the
    validated options again changes nothing. *)
Theorem X3_validated_options_are_typed :
  forall opts opts' : Opts,
    (Camel.validateOptions opts = Return opts' ->
     wellTyped camel opts' = true /\ Camel.validateOptions opts' = Return opts')
    /\ (Kebab.validateOptions opts = Return opts' ->
        wellTyped kebab opts' = true /\ Kebab.validateOptions opts' = Return opts')
    /\ (Dot.validateOptions opts = Return opts' ->
        wellTyped dot opts' = true /\ Dot.validateOptions opts' = Return opts').
Proof.
  intros opts opts'.
  split; [apply Camel_validateOptions_typed|].
  split; [apply Kebab_validateOptions_typed | apply Dot_validateOptions_typed].
Qed.

Lemma X3_witness :
  wellTyped camel
    {| preserveAcronyms := VBool true; locale := VUndefined;
       normalizeDiacritics := VBool false; throwOnInvalid := VBool false;
       preserveNumbers := VBool true; pascalCase := VBool false |} = true.
Proof.
  apply (proj1 (X3_validated_options_are_typed
                  (Camel.defaults
                     {| arg_preserveAcronyms := Some (VString (js "yes"));
                        arg_locale := Some (VNumber 7);
                        arg_normalizeDiacritics := Some VNull;
                        arg_throwOnInvalid := Some (VNumber 0);
                        arg_preserveNumbers := Some (VObject (Return (js "[object Object]")));
                        arg_pascalCase := Some VNaN |})
                  _)).
  reflexivity.
Defined.

(** ** The keys of the camel converter in the two other converters *)

(** X4. The kebab and dot converters never read preserveAcronyms and
    pascalCase: whatever these two keys hold, values of the wrong type
    included and throwOnInvalid being true or not, the call returns or
    raises what it does without them. *)
Theorem X4_kebab_dot_ignore_camel_keys {H : Host} :
  forall (input : value) (o : OptionsArg) (pa pc : option value),
    Kebab.toKebabCase input (withCamelKeys o pa pc) = Kebab.toKebabCase input o
    /\ Dot.toDotCase input (withCamelKeys o pa pc) = Dot.toDotCase input o.
Proof.
  intros input o pa pc. split.
  - change (convert kebab input (withCamelKeys o pa pc) = convert kebab input o).
    rewrite !convert_unfold. reflexivity.
  - change (convert dot input (withCamelKeys o pa pc) = convert dot input o).
    rewrite !convert_unfold. reflexivity.
Qed.

(** ** Separators are worth one another *)

Lemma replaceRunsFrom_other (cls : char -> bool) (a a' : char) (pre post : jstr) :
  cls a = true -> cls a' = true ->
  forall b,
    JS.replaceRunsFrom cls b (pre ++ a :: post)
    = JS.replaceRunsFrom cls b (pre ++ a' :: post).
Proof.
  intros Ha Ha'. induction pre as [|c pre IH]; intros b; simpl.
  - now rewrite Ha, Ha'.
  - destruct (cls c); [destruct b|]; now rewrite IH.
Qed.

Lemma replaceRunsFrom_twice (cls : char -> bool) (a a' : char) (pre post : jstr) :
  cls a = true -> cls a' = true ->
  forall b,
    JS.replaceRunsFrom cls b (pre ++ a :: a' :: post)
    = JS.replaceRunsFrom cls b (pre ++ a :: post).
Proof.
  intros Ha Ha'. induction pre as [|c pre IH]; intros b; simpl.
  - now rewrite Ha, Ha'.
  - destruct (cls c); [destruct b|]; now rewrite IH.
Qed.

(** Two ASCII texts that the first replacement makes equal are converted
    to the same text. *)
Lemma convert_same_separators {H : Host} {ok : HostOk H} (st : style)
    (s1 s2 : jstr) (o : OptionsArg) :
  allAscii s1 = true -> allAscii s2 = true ->
  truthy (orDefault (arg_normalizeDiacritics o) (VBool false)) = false ->
  JS.replaceRuns separatorClass s1 = JS.replaceRuns separatorClass s2 ->
  convert st (VString s1) o = convert st (VString s2) o.
Proof.
  intros H1 H2 Hd E. rewrite !convert_run. cbn [inputRejected textOf bind].
  destruct (throwRequested o && checkedOptionWrong st o); [reflexivity|].
  assert (Hd' : truthy (orDefault (coerceFlag (arg_normalizeDiacritics o))
                          (VBool false)) = false)
    by now rewrite coerceFlag_truthy.
  assert (C : callsLocale st (validated st o) s1
              = callsLocale st (validated st o) s2
              /\ converted st (validated st o) s1
                 = converted st (validated st o) s2).
  { destruct st;
      unfold callsLocale, converted, validated, CamelText.convertText,
        KebabText.convertText, DotText.convertText,
        Camel.clean, Kebab.clean, Dot.clean;
      cbn [normalizeDiacritics Camel.defaults Kebab.defaults Dot.defaults coerced
           arg_normalizeDiacritics];
      rewrite Hd', !nfc_ascii, E by assumption; split; reflexivity. }
  destruct C as [C1 C2]. now rewrite C1, C2.
Qed.

(** X5. In an ASCII text, with options that do not ask for the diacritics
    to be stripped, the separators are worth one another and a run of them
    is worth one: replacing a separator by another one, or writing a second
    separator after one, changes nothing to what a converter returns. *)
Theorem X5_separators_are_equivalent {H : Host} {ok : HostOk H} :
  forall (st : style) (o : OptionsArg) (pre post : jstr) (a a' : char),
    allAscii pre = true -> allAscii post = true ->
    isAscii a = true -> isAscii a' = true ->
    separatorClass a = true -> separatorClass a' = true ->
    truthy (orDefault (arg_normalizeDiacritics o) (VBool false)) = false ->
    convert st (VString (pre ++ a' :: post)) o
    = convert st (VString (pre ++ a :: post)) o
    /\ convert st (VString (pre ++ a :: a' :: post)) o
       = convert st (VString (pre ++ a :: post)) o.
Proof.
  intros st o pre post a a' Hpre Hpost Ha Ha' Sa Sa' Hd.
  assert (A : forall x rest, isAscii x = true -> allAscii rest = true ->
                             allAscii (pre ++ x :: rest) = true).
  { intros x rest Hx Hr. unfold allAscii in *. rewrite forallb_app. simpl.
    now rewrite Hpre, Hx, Hr. }
  split; apply convert_same_separators; try exact Hd; try (apply A; assumption).
  - apply replaceRunsFrom_other; assumption.
  - apply A; [assumption|]. unfold allAscii in *. simpl. now rewrite Ha', Hpost.
  - apply replaceRunsFrom_twice; assumption.
Qed.

Lemma X5_witness :
  @convert asciiHost camel (VString (js "user" ++ 45%N :: js "id")) noOptions
  = @convert asciiHost camel (VString (js "user" ++ 95%N :: js "id")) noOptions
  /\ @convert asciiHost camel (VString (js "user" ++ 95%N :: 45%N :: js "id")) noOptions
     = @convert asciiHost camel (VString (js "user" ++ 95%N :: js "id")) noOptions.
Proof.
  apply (@X5_separators_are_equivalent asciiHost asciiHost_ok camel noOptions
           (js "user") (js "id") 95%N 45%N); reflexivity.
Defined.

(** ** Texts without a letter or a digit *)

Lemma dropWhile_all (p : char -> bool) (s : jstr) :
  (forall c, In c s -> p c = true) -> JS.dropWhile p s = [].
Proof.
  induction s as [|c t IH]; intros Hs; [reflexivity|].
  simpl. rewrite (Hs c) by now left. apply IH. intros d Hd. apply Hs. now right.
Qed.

Lemma cleaned_without_alnum (s : jstr) :
  allAscii s = true ->
  (forall c, In c s -> isAsciiAlnum c = false) ->
  JS.replaceRuns JS.isWhiteSpace
    (JS.trim (JS.deleteCodePoints (@punctuationClass asciiHost)
                (JS.replaceRuns separatorClass s))) = [].
Proof.
  intros Hs Hn.
  assert (W : forall c,
             In c (JS.deleteCodePoints (@punctuationClass asciiHost)
                     (JS.replaceRuns separatorClass s)) ->
             JS.isWhiteSpace c = true).
  { intros c Hc.
    assert (Hc' := Hc).
    rewrite deleteCodePoints_ascii in Hc' by now apply replaceRuns_ascii.
    apply filter_In in Hc'. destruct Hc' as [Hr Hk].
    apply replaceRunsFrom_In in Hr. destruct Hr as [->|[Hin _]]; [reflexivity|].
    apply negb_true_iff in Hk. unfold punctuationClass in Hk.
    cbn [is_L is_N is_Zs is_Emoji_Presentation is_Extended_Pictographic asciiHost]
      in Hk.
    apply negb_false_iff in Hk. specialize (Hn c Hin). unfold isAsciiAlnum in Hn.
    apply orb_false_iff in Hn. destruct Hn as [Hl Hdg]. rewrite Hl, Hdg in Hk.
    cbn [orb] in Hk. rewrite orb_false_r in Hk.
    destruct (N.eqb_spec c 32) as [->|]; [reflexivity | discriminate Hk]. }
  unfold JS.trim. rewrite (dropWhile_all _ _ W). reflexivity.
Qed.

(** X6. An ASCII text without any letter or digit, the empty text, a text
    of spaces, of separators or of punctuation, is converted to the empty
    text by the three converters, with options that do not ask for the
    diacritics to be stripped. *)
Theorem X6_no_letter_no_digit_gives_empty {H : Host} {ok : HostOk H} :
  forall (st : style) (s : jstr) (o : OptionsArg) (r : jstr),
    allAscii s = true ->
    (forall c, In c s -> isAsciiAlnum c = false) ->
    truthy (orDefault (arg_normalizeDiacritics o) (VBool false)) = false ->
    convert st (VString s) o = Return r ->
    r = [].
Proof.
  intros st s o r Hs Hn Hd. intros R. apply convert_returns in R. subst r.
  assert (Hd' : truthy (orDefault (coerceFlag (arg_normalizeDiacritics o))
                          (VBool false)) = false)
    by now rewrite coerceFlag_truthy.
  destruct st;
    unfold CamelText.convertText, KebabText.convertText, DotText.convertText,
      Camel.clean, Kebab.clean, Dot.clean;
    cbn [normalizeDiacritics Camel.defaults Kebab.defaults Dot.defaults coerced
         arg_normalizeDiacritics];
    rewrite Hd', (cleaned_ascii_agree s Hs), (cleaned_without_alnum s Hs Hn);
    reflexivity.
Qed.

Lemma X6_witness :
  exists r,
    @convert asciiHost dot (VString (js " -- __ !? ")) noOptions = Return r
    /\ r = [].
Proof.
  exists []. split; [vm_compute; reflexivity|].
  apply (@X6_no_letter_no_digit_gives_empty asciiHost asciiHost_ok dot
           (js " -- __ !? ") noOptions []).
  - reflexivity.
  - intros c Hc. simpl in Hc.
    repeat (destruct Hc as [<-|Hc]; [reflexivity|]). destruct Hc.
  - reflexivity.
  - vm_compute. reflexivity.
Defined.

(** ** The shape of the kebab and dot outputs *)

(** X7. On an ASCII text, with options that name no locale and do not ask
    for the diacritics to be stripped, the text that the kebab or the dot
    converter returns is made of parts joined by the joiner, one joiner
    between two parts, and each part is not empty and made either of ASCII
    digits only or of lowercase ASCII letters only. *)
Theorem X7_kebab_dot_output_shape {H : Host} {ok : HostOk H} :
  forall (st : style) (j : char) (s : jstr) (o : OptionsArg) (r : jstr),
    joiner st = Some j ->
    allAscii s = true ->
    truthy (orDefault (arg_normalizeDiacritics o) (VBool false)) = false ->
    arg_locale o = None ->
    convert st (VString s) o = Return r ->
    exists parts, Forall stablePart parts /\ r = JS.join [j] parts.
Proof.
  intros st j s o r Hj Hs Hd Hl.
  rewrite convert_ascii by (try assumption; now rewrite Hl).
  intros R. apply convert_returns in R. subst r.
  assert (Hd' : truthy (orDefault (coerceFlag (arg_normalizeDiacritics o))
                          (VBool false)) = false)
    by now rewrite coerceFlag_truthy.
  destruct st; [discriminate Hj | |]; injection Hj as <-.
  - apply Kebab_convertText_shape; assumption.
  - apply Dot_convertText_shape; assumption.
Qed.

Lemma X7_witness :
  exists parts,
    Forall stablePart parts /\ js "get-2-nd-item" = JS.join [45%N] parts.
Proof.
  apply (@X7_kebab_dot_output_shape asciiHost asciiHost_ok kebab 45%N
           (js "get2ndItem") noOptions (js "get-2-nd-item")).
  - reflexivity.
  - reflexivity.
  - reflexivity.
  - reflexivity.
  - vm_compute. reflexivity.
Defined.

(** ** The assembly of the camel converter, word by word *)

Lemma renderAll_snoc {H : Host} (opts : Opts) (pre : list jstr) (w : jstr) :
  forall k,
    CamelText.renderAll opts k (pre ++ [w])
    = CamelText.renderAll opts k pre ++ CamelText.renderWord opts (k + length pre) w.
Proof.
  induction pre as [|p pre IH]; intros k; simpl.
  - now rewrite app_nil_r, Nat.add_0_r.
  - rewrite IH, <- app_assoc. do 3 f_equal. lia.
Qed.

Lemma Camel_assembleStep_render {H : Host} (opts : Opts) (pre : list jstr)
    (w : jstr) :
  CamelText.assembleStep opts (pre ++ [w])
    (map (fun w => if Camel.keptAsAcronym opts w then w
                   else CamelText.lowerWithLocale opts w) (pre ++ [w]))
    [] (length pre)
  = CamelText.renderWord opts (length pre) w.
Proof.
  unfold CamelText.assembleStep, CamelText.renderWord.
  assert (E : nth (length pre) (pre ++ [w]) [] = w).
  { rewrite app_nth2 by lia. now rewrite Nat.sub_diag. }
  assert (En : nth (length pre)
                 (map (fun w => if Camel.keptAsAcronym opts w then w
                                else CamelText.lowerWithLocale opts w) (pre ++ [w])) []
               = if Camel.keptAsAcronym opts w then w
                 else CamelText.lowerWithLocale opts w).
  { rewrite map_app, app_nth2 by (rewrite length_map; lia).
    now rewrite length_map, Nat.sub_diag. }
  rewrite E, En.
  destruct (length pre =? 0) eqn:E0.
  - apply Nat.eqb_eq in E0. rewrite E0 in E. rewrite E.
    destruct (Camel.keptAsAcronym opts w); [reflexivity|].
    destruct (truthy (pascalCase opts)); reflexivity.
  - destruct (Camel.keptAsAcronym opts w); reflexivity.
Qed.

Lemma Camel_assemble_renderAll {H : Host} (opts : Opts) (words : list jstr) :
  CamelText.assemble opts words = CamelText.renderAll opts 0 words.
Proof.
  induction words as [|w pre IH] using rev_ind; [reflexivity|].
  rewrite Camel_assemble_snoc, Camel_assembleStep_render, IH, renderAll_snoc.
  reflexivity.
Qed.

Lemma renderWord_run {H : Host} (opts : Opts) (k : nat) (w : jstr) :
  renderWord opts k w
  = if localeRejected opts && negb (Camel.keptAsAcronym opts w)
    then Throw (localeError opts)
    else Return (CamelText.renderWord opts k w).
Proof.
  unfold renderWord, CamelText.renderWord.
  destruct (Camel.keptAsAcronym opts w); [now rewrite andb_false_r|].
  rewrite Camel_lowerWithLocale_run, andb_true_r.
  destruct (localeRejected opts) eqn:R;
    [destruct ((k =? 0) && negb (truthy (pascalCase opts))); reflexivity|].
  destruct ((k =? 0) && negb (truthy (pascalCase opts))); [reflexivity|].
  cbn [bind]. now rewrite Camel_upperFirst_run, R.
Qed.

Lemma renderAll_run {H : Host} (opts : Opts) (words : list jstr) :
  forall k,
    renderAll opts k words
    = if localeRejected opts
         && existsb (fun w => negb (Camel.keptAsAcronym opts w)) words
      then Throw (localeError opts)
      else Return (CamelText.renderAll opts k words).
Proof.
  induction words as [|w rest IH]; intros k.
  - cbn. now rewrite andb_false_r.
  - cbn [renderAll CamelText.renderAll existsb]. rewrite renderWord_run, IH.
    destruct (localeRejected opts); [|reflexivity]. cbn [andb].
    destruct (Camel.keptAsAcronym opts w); cbn [negb orb bind]; [|reflexivity].
    destruct (existsb _ rest); reflexivity.
Qed.

(** X8. The text that the assembly of the camel converter builds is the
    renderings of the words put end to end in the order of the words, one
    rendering for each word: the rendering of a word depends on the word
    and, through the casing of its first letter, on whether it is the first
    one. *)
Theorem X8_camel_assembly_word_by_word {H : Host} :
  forall (opts : Opts) (words : list jstr),
    Camel.assemble opts words = renderAll opts 0 words.
Proof.
  intros opts words.
  now rewrite Camel_assemble_run, renderAll_run, Camel_assemble_renderAll.
Qed.

(** ** The first character of the camel output *)

Lemma asciiLower_not_upper (x : char) : isUpperLetter (asciiLower x) = false.
Proof.
  unfold isUpperLetter, asciiLower, between.
  destruct (N.leb_spec 65 x), (N.leb_spec x 90); simpl;
    decide_comparisons; reflexivity.
Qed.

Lemma asciiUpper_not_lower (x : char) : isLowerLetter (asciiUpper x) = false.
Proof.
  unfold isLowerLetter, asciiUpper, between.
  destruct (N.leb_spec 97 x), (N.leb_spec x 122); simpl;
    decide_comparisons; reflexivity.
Qed.

Lemma upperOrDigit_not_lower (x : char) :
  between 65 90 x || between 48 57 x = true -> isLowerLetter x = false.
Proof.
  unfold isLowerLetter, between. intros E.
  apply orb_true_iff in E. destruct E as [E|E];
    apply andb_true_iff in E; destruct E as [E1 E2]; apply N.leb_le in E1, E2;
    decide_comparisons; reflexivity.
Qed.

Lemma Camel_convertText_first (opts : Opts) (s : jstr) (c : char) (r : jstr) :
  @CamelText.convertText asciiHost opts s = c :: r ->
  (truthy (pascalCase opts) = true -> isLowerLetter c = false)
  /\ (truthy (pascalCase opts) = false ->
      truthy (preserveAcronyms opts) = false -> isUpperLetter c = false).
Proof.
  unfold CamelText.convertText.
  set (working := @Camel.clean asciiHost opts s).
  destruct (length working =? 0); [discriminate|].
  destruct (length (Camel.tokenize opts working) =? 0) eqn:L; [discriminate|].
  assert (G : Forall goodPart (Camel.tokenize opts working)).
  { apply Camel_collectWords_good. intros t Ht.
    now apply (@rawTokens_noSeparator asciiHost) in Ht. }
  destruct (Camel.tokenize opts working) as [|w rest]; [discriminate L|].
  inversion G as [|? ? [Hw _] _]; subst.
  destruct w as [|x w']; [contradiction|].
  rewrite Camel_assemble_renderAll. cbn [CamelText.renderAll]. unfold CamelText.renderWord.
  assert (Lw : forall v, @CamelText.lowerWithLocale asciiHost opts v = map asciiLower v)
    by (intros v; unfold CamelText.lowerWithLocale;
        destruct (localeTag (locale opts)); reflexivity).
  assert (Uf : @CamelText.upperFirst asciiHost opts (map asciiLower (x :: w'))
               = asciiUpper (asciiLower x) :: map asciiLower (map asciiLower w'))
    by (unfold CamelText.upperFirst; destruct (localeTag (locale opts)); reflexivity).
  rewrite Lw, Uf.
  destruct (Camel.keptAsAcronym opts (x :: w')) eqn:K.
  - intros [= <- _]. unfold Camel.keptAsAcronym in K.
    apply andb_true_iff in K. destruct K as [K _].
    apply andb_true_iff in K. destruct K as [Ka K].
    split; [|intros _ Hpa; rewrite Hpa in Ka; discriminate Ka].
    intros _. unfold JS.testUpperOrDigits in K. apply andb_true_iff in K.
    destruct K as [_ K]. simpl in K. apply andb_true_iff in K.
    now apply upperOrDigit_not_lower.
  - destruct (truthy (pascalCase opts)); cbn [Nat.eqb andb negb];
      intros [= <- _]; (split; [intros E | intros E _]);
      try discriminate E;
      [apply asciiUpper_not_lower | apply asciiLower_not_upper].
Qed.

(** X9. On an ASCII text, with options that name no locale and do not ask
    for the diacritics to be stripped, the text toCamelCase returns is in
    the case it is asked in: with pascalCase it never starts with a
    lowercase letter, and without pascalCase and preserveAcronyms it never
    starts with a capital. *)
Theorem X9_camel_first_character {H : Host} {ok : HostOk H} :
  forall (s : jstr) (o : OptionsArg) (c : char) (r : jstr),
    allAscii s = true ->
    truthy (orDefault (arg_normalizeDiacritics o) (VBool false)) = false ->
    arg_locale o = None ->
    Camel.toCamelCase (VString s) o = Return (c :: r) ->
    (truthy (orDefault (arg_pascalCase o) (VBool false)) = true ->
     isLowerLetter c = false)
    /\ (truthy (orDefault (arg_pascalCase o) (VBool false)) = false ->
        truthy (orDefault (arg_preserveAcronyms o) (VBool false)) = false ->
        isUpperLetter c = false).
Proof.
  intros s o c r Hs Hd Hl.
  change (Camel.toCamelCase (VString s) o) with (convert camel (VString s) o).
  rewrite convert_ascii by (try assumption; now rewrite Hl).
  intros E. apply convert_returns in E. symmetry in E.
  apply Camel_convertText_first in E.
  cbn [pascalCase preserveAcronyms Camel.defaults coerced arg_pascalCase
       arg_preserveAcronyms] in E.
  now rewrite !coerceFlag_truthy in E.
Qed.

Lemma X9_witness :
  @Camel.toCamelCase asciiHost (VString (js "User_ID card")) noOptions
  = Return (js "userIdCard")
  /\ isUpperLetter 117 = false.
Proof.
  split; [vm_compute; reflexivity|].
  apply (proj2 (@X9_camel_first_character asciiHost asciiHost_ok
                  (js "User_ID card") noOptions 117%N (js "serIdCard")
                  eq_refl eq_refl eq_refl
                  ltac:(vm_compute; reflexivity)));
    reflexivity.
Defined.

(** ** The letters and digits of the input are those of the output *)

Lemma alnum_not_separator (c : char) :
  isAsciiAlnum c = true -> separatorClass c = false.
Proof.
  intros Hc.
  assert (R : (48 <= c <= 57)%N \/ (65 <= c <= 90)%N \/ (97 <= c <= 122)%N).
  { unfold isAsciiAlnum, isAsciiLetter, isAsciiDigit, between in Hc.
    apply orb_true_iff in Hc. destruct Hc as [Hc|Hc];
      [apply orb_true_iff in Hc; destruct Hc as [Hc|Hc]|];
      apply andb_true_iff in Hc; destruct Hc as [A B];
      apply N.leb_le in A, B; lia. }
  clear Hc. unfold separatorClass, JS.isWhiteSpace, between.
  decide_comparisons; reflexivity.
Qed.

Lemma filter_replaceRunsFrom (q cls : char -> bool) (s : jstr) :
  (forall c, cls c = true -> q c = false) -> q 32%N = false ->
  forall b, filter q (JS.replaceRunsFrom cls b s) = filter q s.
Proof.
  intros Hq H32. induction s as [|c t IH]; intros b; [reflexivity|].
  simpl. destruct (cls c) eqn:E.
  - rewrite (Hq c E). destruct b; simpl; rewrite ?H32; apply IH.
  - simpl. now rewrite IH.
Qed.

Lemma filter_dropWhile (q p : char -> bool) (s : jstr) :
  (forall c, p c = true -> q c = false) ->
  filter q (JS.dropWhile p s) = filter q s.
Proof.
  intros Hq. induction s as [|c t IH]; [reflexivity|].
  simpl. destruct (p c) eqn:E; [now rewrite (Hq c E) | reflexivity].
Qed.

Lemma filter_trim (q : char -> bool) (s : jstr) :
  (forall c, JS.isWhiteSpace c = true -> q c = false) ->
  filter q (JS.trim s) = filter q s.
Proof.
  intros Hq. unfold JS.trim.
  rewrite filter_rev, filter_dropWhile, filter_rev, rev_involutive by exact Hq.
  now apply filter_dropWhile.
Qed.

Lemma filter_filter_weaker (A : Type) (q k : A -> bool) (l : list A) :
  (forall a, q a = true -> k a = true) ->
  filter q (filter k l) = filter q l.
Proof.
  intros Hk. induction l as [|a l IH]; [reflexivity|].
  simpl. destruct (k a) eqn:E; simpl; rewrite IH; [reflexivity|].
  destruct (q a) eqn:Q; [|reflexivity]. rewrite (Hk a Q) in E. discriminate E.
Qed.

Lemma whiteSpace_not_alnum (c : char) :
  JS.isWhiteSpace c = true -> isAsciiAlnum c = false.
Proof.
  intros W. destruct (isAsciiAlnum c) eqn:A; [|reflexivity].
  apply alnum_not_separator in A. unfold separatorClass in A.
  rewrite W in A. discriminate A.
Qed.

Lemma separator_not_alnum (c : char) :
  separatorClass c = true -> isAsciiAlnum c = false.
Proof.
  intros S. destruct (isAsciiAlnum c) eqn:A; [|reflexivity].
  apply alnum_not_separator in A. congruence.
Qed.

(** The cleaning keeps the letters and digits of an ASCII text, in their
    order. *)
Lemma cleaned_alnum (s : jstr) :
  allAscii s = true ->
  filter isAsciiAlnum
    (JS.replaceRuns JS.isWhiteSpace
       (JS.trim (JS.deleteCodePoints (@punctuationClass asciiHost)
                   (JS.replaceRuns separatorClass s))))
  = filter isAsciiAlnum s.
Proof.
  intros Hs. unfold JS.replaceRuns.
  rewrite filter_replaceRunsFrom by (auto using whiteSpace_not_alnum).
  rewrite filter_trim by apply whiteSpace_not_alnum.
  rewrite deleteCodePoints_ascii by now apply replaceRuns_ascii.
  rewrite filter_filter_weaker.
  - apply filter_replaceRunsFrom; auto using separator_not_alnum.
  - intros c Hc. unfold punctuationClass.
    cbn [is_L is_N is_Zs is_Emoji_Presentation is_Extended_Pictographic asciiHost].
    unfold isAsciiAlnum in Hc. rewrite negb_involutive.
    destruct (isAsciiLetter c), (isAsciiDigit c); try reflexivity.
    discriminate Hc.
Qed.

Lemma split_concat (sep : N) (s : jstr) :
  concat (JS.split sep s) = filter (fun c => negb (c =? sep)%N) s.
Proof.
  induction s as [|c t IH]; [reflexivity|].
  simpl. destruct (c =? sep)%N; simpl; [exact IH|].
  destruct (JS.split sep t) as [|h r]; simpl in *; now rewrite <- IH.
Qed.

(** The raw tokens of an ASCII text, put end to end, are its letters and
    digits. *)
Lemma rawTokens_alnum (s : jstr) :
  allAscii s = true ->
  concat (JS.split 32
            (JS.replaceRuns JS.isWhiteSpace
               (JS.trim (JS.deleteCodePoints (@punctuationClass asciiHost)
                           (JS.replaceRuns separatorClass s)))))
  = filter isAsciiAlnum s.
Proof.
  intros Hs. rewrite split_concat, <- (cleaned_alnum s Hs).
  apply filter_agree. intros c Hc.
  apply cleaned_ascii_chars in Hc; [|exact Hs].
  destruct Hc as [->|Hc]; [reflexivity|]. rewrite Hc.
  destruct (N.eqb_spec c 32) as [->|]; [discriminate Hc | reflexivity].
Qed.

Lemma Kebab_pushPart_concat (opts : Opts) (sub : list jstr) :
  forall acc,
    concat (fold_left (@KebabText.pushPart asciiHost opts) sub acc)
    = concat acc ++ map asciiLower (concat sub).
Proof.
  induction sub as [|part sub IH]; intros acc; simpl.
  - now rewrite app_nil_r.
  - rewrite IH, map_app, app_assoc. f_equal.
    unfold KebabText.pushPart. destruct part as [|x part']; [now rewrite app_nil_r|].
    cbn [length Nat.eqb]. rewrite concat_app. f_equal.
    destruct (localeTag (locale opts)); cbn; now rewrite app_nil_r.
Qed.

Lemma Kebab_collectParts_concat (opts : Opts) (tokens : list jstr) :
  truthy (preserveNumbers opts) = true ->
  concat (@KebabText.collectParts asciiHost opts tokens)
  = map asciiLower (concat tokens).
Proof.
  intros Hpn. unfold KebabText.collectParts.
  assert (G : forall acc,
             concat (fold_left (@KebabText.tokenStep asciiHost opts) tokens acc)
             = concat acc ++ map asciiLower (concat tokens)).
  { induction tokens as [|token tokens IH]; intros acc; simpl.
    - now rewrite app_nil_r.
    - rewrite IH, map_app, app_assoc. f_equal.
      unfold KebabText.tokenStep.
      destruct (length token =? 0) eqn:E0.
      { destruct token; [now rewrite app_nil_r | discriminate E0]. }
      destruct (JS.testDigits token) eqn:D.
      + rewrite Hpn, concat_app. simpl. rewrite app_nil_r. f_equal.
        rewrite <- (map_id token) at 1. apply map_ext_in. intros c Hc.
        symmetry. apply asciiLower_digit.
        apply testDigits_spec in D. now apply D.
      + rewrite Kebab_pushPart_concat, Kebab_split_cut. f_equal. f_equal.
        destruct token; [discriminate E0 | apply cut_concat]. }
  apply (G []).
Qed.

Lemma Dot_pushPart_concat (opts : Opts) (sub : list jstr) :
  forall acc,
    concat (fold_left (@DotText.pushPart asciiHost opts) sub acc)
    = concat acc ++ map asciiLower (concat sub).
Proof.
  induction sub as [|part sub IH]; intros acc; simpl.
  - now rewrite app_nil_r.
  - rewrite IH, map_app, app_assoc. f_equal.
    unfold DotText.pushPart. destruct part as [|x part']; [now rewrite app_nil_r|].
    cbn [length Nat.eqb]. rewrite concat_app. f_equal.
    destruct (localeTag (locale opts)); cbn; now rewrite app_nil_r.
Qed.

Lemma Dot_collectParts_concat (opts : Opts) (tokens : list jstr) :
  truthy (preserveNumbers opts) = true ->
  concat (@DotText.collectParts asciiHost opts tokens)
  = map asciiLower (concat tokens).
Proof.
  intros Hpn. unfold DotText.collectParts.
  assert (G : forall acc,
             concat (fold_left (@DotText.tokenStep asciiHost opts) tokens acc)
             = concat acc ++ map asciiLower (concat tokens)).
  { induction tokens as [|token tokens IH]; intros acc; simpl.
    - now rewrite app_nil_r.
    - rewrite IH, map_app, app_assoc. f_equal.
      unfold DotText.tokenStep.
      destruct (length token =? 0) eqn:E0.
      { destruct token; [now rewrite app_nil_r | discriminate E0]. }
      destruct (JS.testDigits token) eqn:D.
      + rewrite Hpn, concat_app. simpl. rewrite app_nil_r. f_equal.
        rewrite <- (map_id token) at 1. apply map_ext_in. intros c Hc.
        symmetry. apply asciiLower_digit.
        apply testDigits_spec in D. now apply D.
      + rewrite Dot_pushPart_concat, Dot_split_cut. f_equal. f_equal.
        destruct token; [discriminate E0 | apply cut_concat]. }
  apply (G []).
Qed.

Lemma Camel_pushPart_concat (sub : list jstr) :
  forall acc,
    concat (fold_left Camel.pushPart sub acc) = concat acc ++ concat sub.
Proof.
  induction sub as [|part sub IH]; intros acc; simpl.
  - now rewrite app_nil_r.
  - rewrite IH, app_assoc. f_equal.
    unfold Camel.pushPart. destruct part as [|x part']; [now rewrite app_nil_r|].
    cbn [length Nat.eqb]. rewrite concat_app. simpl. now rewrite app_nil_r.
Qed.

Lemma Camel_collectWords_concat (opts : Opts) (tokens : list jstr) :
  truthy (preserveNumbers opts) = true ->
  concat (Camel.collectWords opts tokens) = concat tokens.
Proof.
  intros Hpn. unfold Camel.collectWords.
  assert (G : forall acc,
             concat (fold_left (Camel.wordsStep opts) tokens acc)
             = concat acc ++ concat tokens).
  { induction tokens as [|token tokens IH]; intros acc; simpl.
    - now rewrite app_nil_r.
    - rewrite IH, app_assoc. f_equal.
      unfold Camel.wordsStep.
      destruct (length token =? 0) eqn:E0.
      { destruct token; [now rewrite app_nil_r | discriminate E0]. }
      destruct (JS.testDigits token).
      + rewrite Hpn, concat_app. simpl. now rewrite app_nil_r.
      + rewrite Camel_pushPart_concat, (Dot_split_nonempty token E0). f_equal.
        apply cut_concat. }
  apply (G []).
Qed.

Lemma join_alnum (j : char) (parts : list jstr) :
  isAsciiAlnum j = false ->
  Forall stablePart parts ->
  filter isAsciiAlnum (JS.join [j] parts) = concat parts.
Proof.
  intros Hj. induction 1 as [|p rest Hp Hrest IH]; [reflexivity|].
  assert (Ep : filter isAsciiAlnum p = p).
  { apply forallb_filter_id. apply forallb_forall. intros c Hc.
    apply (stablePart_chars p Hp) in Hc. unfold isAsciiAlnum, isAsciiLetter.
    fold (isLowerLetter c). destruct Hc as [-> | ->];
      [apply orb_true_r | now rewrite orb_true_r]. }
  destruct rest as [|q rest].
  - simpl. now rewrite app_nil_r.
  - change (JS.join [j] (p :: q :: rest))
      with (p ++ j :: JS.join [j] (q :: rest)).
    rewrite filter_app, Ep. cbn [filter concat]. rewrite Hj. f_equal. exact IH.
Qed.

Lemma asciiLower_idem (c : char) : asciiLower (asciiLower c) = asciiLower c.
Proof.
  unfold asciiLower at 2. unfold between.
  destruct (N.leb_spec 65 c), (N.leb_spec c 90); simpl; try reflexivity;
    unfold asciiLower, between; decide_comparisons; reflexivity.
Qed.

Lemma asciiLower_asciiUpper (c : char) : asciiLower (asciiUpper c) = asciiLower c.
Proof.
  unfold asciiUpper, between.
  destruct (N.leb_spec 97 c), (N.leb_spec c 122); simpl; try reflexivity.
  unfold asciiLower, between. decide_comparisons; simpl; try reflexivity; lia.
Qed.

Lemma renderWord_lower (opts : Opts) (k : nat) (w : jstr) :
  map asciiLower (@CamelText.renderWord asciiHost opts k w) = map asciiLower w.
Proof.
  unfold CamelText.renderWord.
  assert (Lw : forall v, @CamelText.lowerWithLocale asciiHost opts v = map asciiLower v)
    by (intros v; unfold CamelText.lowerWithLocale;
        destruct (localeTag (locale opts)); reflexivity).
  assert (M : map asciiLower (map asciiLower w) = map asciiLower w).
  { rewrite map_map. apply map_ext. apply asciiLower_idem. }
  destruct (Camel.keptAsAcronym opts w); [reflexivity|].
  rewrite Lw.
  destruct ((k =? 0) && negb (truthy (pascalCase opts))); [exact M|].
  destruct w as [|x w']; [reflexivity|].
  assert (Uf : @CamelText.upperFirst asciiHost opts (map asciiLower (x :: w'))
               = asciiUpper (asciiLower x) :: map asciiLower (map asciiLower w'))
    by (unfold CamelText.upperFirst; destruct (localeTag (locale opts)); reflexivity).
  rewrite Uf. cbn [map]. rewrite asciiLower_asciiUpper, asciiLower_idem.
  f_equal. rewrite !map_map. apply map_ext. intros c.
  now rewrite !asciiLower_idem.
Qed.

Lemma renderAll_lower (opts : Opts) (words : list jstr) :
  forall k,
    map asciiLower (@CamelText.renderAll asciiHost opts k words)
    = map asciiLower (concat words).
Proof.
  induction words as [|w rest IH]; intros k; [reflexivity|].
  cbn [CamelText.renderAll concat]. now rewrite !map_app, renderWord_lower, IH.
Qed.

(** On the reference engine: what a converter keeps of an ASCII text. *)
Lemma convertText_content (st : style) (opts : Opts) (s : jstr) :
  allAscii s = true ->
  truthy (normalizeDiacritics opts) = false ->
  truthy (preserveNumbers opts) = true ->
  match st with
  | camel => map asciiLower (@CamelText.convertText asciiHost opts s)
  | kebab => filter isAsciiAlnum (@KebabText.convertText asciiHost opts s)
  | dot => filter isAsciiAlnum (@DotText.convertText asciiHost opts s)
  end = map asciiLower (filter isAsciiAlnum s).
Proof.
  intros Hs Hd Hpn. rewrite <- (rawTokens_alnum s Hs).
  destruct st.
  - unfold CamelText.convertText, Camel.clean. rewrite Hd.
    cbn [normalize_NFC asciiHost].
    set (working := JS.replaceRuns JS.isWhiteSpace _).
    rewrite <- (Camel_collectWords_concat opts (JS.split 32 working) Hpn).
    fold (Camel.tokenize opts working).
    destruct working as [|c w] eqn:Ew; [reflexivity|]. cbn [length Nat.eqb].
    destruct (Camel.tokenize opts (c :: w)) as [|w0 rest] eqn:Et; [reflexivity|].
    cbn [length Nat.eqb].
    rewrite Camel_assemble_renderAll. apply renderAll_lower.
  - destruct (Kebab_convertText_shape opts s Hs Hd) as [parts [Hp E]].
    unfold KebabText.convertText, Kebab.clean in *. rewrite Hd in *.
    cbn [normalize_NFC asciiHost] in *.
    set (working := JS.replaceRuns JS.isWhiteSpace _) in *.
    rewrite <- (Kebab_collectParts_concat opts (JS.split 32 working) Hpn).
    fold (@KebabText.tokenize asciiHost opts working) in *.
    destruct working as [|c w] eqn:Ew; [reflexivity|]. cbn [length Nat.eqb] in *.
    change (js "-") with [45%N] in *.
    apply join_alnum; [reflexivity|].
    apply Kebab_collectParts_stable. intros t x Ht Hx.
    destruct (split_In _ _ _ _ Ht Hx) as [Hin Hne].
    rewrite <- Ew in Hin. apply cleaned_ascii_chars in Hin; [|exact Hs].
    destruct Hin as [Hin|Hin]; [contradiction | exact Hin].
  - destruct (Dot_convertText_shape opts s Hs Hd) as [parts [Hp E]].
    unfold DotText.convertText, Dot.clean in *. rewrite Hd in *.
    cbn [normalize_NFC asciiHost] in *.
    set (working := JS.replaceRuns JS.isWhiteSpace _) in *.
    rewrite <- (Dot_collectParts_concat opts (JS.split 32 working) Hpn).
    fold (@DotText.tokenize asciiHost opts working) in *.
    destruct working as [|c w] eqn:Ew; [reflexivity|]. cbn [length Nat.eqb] in *.
    change (js ".") with [46%N] in *.
    apply join_alnum; [reflexivity|].
    apply Dot_collectParts_stable. intros t x Ht Hx.
    destruct (split_In _ _ _ _ Ht Hx) as [Hin Hne].
    rewrite <- Ew in Hin. apply cleaned_ascii_chars in Hin; [|exact Hs].
    destruct Hin as [Hin|Hin]; [contradiction | exact Hin].
Qed.

(** X10. On an ASCII text, with options that keep the numbers, name no
    locale and do not ask for the diacritics to be stripped, a converter
    loses, adds and moves no letter and no digit: the letters and digits of
    the kebab or dot output are those of the input in lowercase and in the
    same order, and the camel output, read in lowercase, is the letters and
    digits of the input in lowercase and in the same order. *)
Theorem X10_letters_and_digits_are_kept {H : Host} {ok : HostOk H} :
  forall (st : style) (s : jstr) (o : OptionsArg) (r : jstr),
    allAscii s = true ->
    truthy (orDefault (arg_normalizeDiacritics o) (VBool false)) = false ->
    arg_locale o = None ->
    truthy (orDefault (arg_preserveNumbers o) (VBool true)) = true ->
    convert st (VString s) o = Return r ->
    match st with
    | camel => map asciiLower r
    | kebab | dot => filter isAsciiAlnum r
    end = map asciiLower (filter isAsciiAlnum s).
Proof.
  intros st s o r Hs Hd Hl Hpn.
  rewrite convert_ascii by (try assumption; now rewrite Hl).
  intros R. apply convert_returns in R. subst r.
  assert (Hd' : truthy (orDefault (coerceFlag (arg_normalizeDiacritics o))
                          (VBool false)) = false)
    by now rewrite coerceFlag_truthy.
  assert (Hpn' : truthy (orDefault (coerceFlag (arg_preserveNumbers o))
                           (VBool true)) = true)
    by now rewrite coerceFlag_truthy.
  destruct st.
  - apply (convertText_content camel (Camel.defaults (coerced camel o)) s);
      assumption.
  - apply (convertText_content kebab (Kebab.defaults (coerced kebab o)) s);
      assumption.
  - apply (convertText_content dot (Dot.defaults (coerced dot o)) s);
      assumption.
Qed.

Lemma X10_witness :
  filter isAsciiAlnum (js "parse-http-2-response")
  = map asciiLower (filter isAsciiAlnum (js "parse HTTP2_response!")).
Proof.
  apply (@X10_letters_and_digits_are_kept asciiHost asciiHost_ok kebab
           (js "parse HTTP2_response!") noOptions (js "parse-http-2-response"));
    [reflexivity | reflexivity | reflexivity | reflexivity
    | vm_compute; reflexivity].
Defined.

(** ** The raw tokens of a cleaned text *)

Lemma dropWhile_hd (p : char -> bool) (s : jstr) :
  JS.dropWhile p s = [] \/ p (hd 0%N (JS.dropWhile p s)) = false.
Proof.
  induction s as [|c t IH]; [now left|].
  simpl. destruct (p c) eqn:E; [exact IH | right; exact E].
Qed.

Lemma dropWhile_suffix (p : char -> bool) (s : jstr) :
  exists d, s = d ++ JS.dropWhile p s.
Proof.
  induction s as [|c t [d IH]]; [now exists []|].
  simpl. destruct (p c); [|now exists []].
  exists (c :: d). simpl. now rewrite <- IH.
Qed.

Lemma last_rev (z : jstr) : last (rev z) 0%N = hd 0%N z.
Proof.
  destruct z as [|c z]; [reflexivity|]. simpl. apply last_last.
Qed.

(** A trimmed text is empty, or starts and ends with characters that are
    not white space. *)
Lemma trim_ends (x : jstr) :
  JS.trim x = []
  \/ (JS.isWhiteSpace (hd 0%N (JS.trim x)) = false
      /\ JS.isWhiteSpace (last (JS.trim x) 0%N) = false).
Proof.
  unfold JS.trim.
  set (x1 := JS.dropWhile JS.isWhiteSpace x).
  set (z := JS.dropWhile JS.isWhiteSpace (rev x1)).
  destruct (dropWhile_hd JS.isWhiteSpace (rev x1)) as [E|E]; fold z in E.
  - left. now rewrite E.
  - right. split; [|now rewrite last_rev].
    destruct (dropWhile_suffix JS.isWhiteSpace (rev x1)) as [d Hd]. fold z in Hd.
    assert (X : x1 = rev z ++ rev d).
    { rewrite <- (rev_involutive x1), Hd, rev_app_distr. reflexivity. }
    destruct (rev z) as [|c y] eqn:R.
    + apply (f_equal (@rev N)) in R. rewrite rev_involutive in R. simpl in R.
      rewrite R in E. simpl in E. unfold z in R.
      (* the text is empty: its first character is the default one *)
      exact E.
    + simpl. destruct (dropWhile_hd JS.isWhiteSpace x) as [E1|E1]; fold x1 in E1.
      * rewrite X in E1. discriminate E1.
      * rewrite X in E1. exact E1.
Qed.

Lemma split_replaceRunsFrom (cls : char -> bool) (y : jstr) :
  cls 32%N = true ->
  forall b,
    y <> [] ->
    cls (last y 0%N) = false ->
    b = true \/ cls (hd 0%N y) = false ->
    Forall (fun t => t <> []) (JS.split 32 (JS.replaceRunsFrom cls b y)).
Proof.
  intros H32. induction y as [|c t IH]; intros b Hn Hl Hb; [contradiction|].
  cbn [JS.replaceRunsFrom]. destruct (cls c) eqn:C.
  - destruct Hb as [->|Hb]; [|simpl in Hb; congruence].
    destruct t as [|c' t']; [simpl in Hl; congruence|].
    apply IH; [discriminate | exact Hl | now left].
  - assert (N32 : (c =? 32)%N = false).
    { destruct (N.eqb_spec c 32) as [->|]; [congruence | reflexivity]. }
    destruct t as [|c' t'].
    + simpl. rewrite N32. repeat constructor. discriminate.
    + assert (Hl' : cls (last (c' :: t') 0%N) = false) by exact Hl.
      cbn [JS.split]. rewrite N32.
      destruct (cls c') eqn:C'.
      * cbn [JS.replaceRunsFrom]. rewrite C'. cbn [JS.split]. rewrite N.eqb_refl.
        constructor; [discriminate|].
        specialize (IH true ltac:(discriminate) Hl' (or_introl eq_refl)).
        cbn [JS.replaceRunsFrom] in IH. rewrite C' in IH. exact IH.
      * specialize (IH false ltac:(discriminate) Hl' (or_intror C')).
        destruct (JS.split 32 (JS.replaceRunsFrom cls false (c' :: t')))
          as [|h r]; [repeat constructor; discriminate|].
        inversion IH; subst. constructor; [discriminate | assumption].
Qed.

Lemma rawTokens_nonempty (w : jstr) :
  JS.replaceRuns JS.isWhiteSpace (JS.trim w) <> [] ->
  Forall (fun t => t <> [])
    (JS.split 32 (JS.replaceRuns JS.isWhiteSpace (JS.trim w))).
Proof.
  intros Hn. destruct (trim_ends w) as [E|[Eh El]].
  - rewrite E in Hn. contradiction.
  - apply split_replaceRunsFrom; [reflexivity | | exact El | now right].
    intros E. rewrite E in Hn. contradiction.
Qed.

(** X11. The cleaned text of the three converters, when it is not empty,
    neither starts nor ends with a space and holds no two spaces in a row:
    none of the raw tokens that its spaces delimit is empty, so the test of
    the raw tokens for the empty text never succeeds. *)
Theorem X11_raw_tokens_are_not_empty {H : Host} :
  forall (opts : Opts) (input : jstr),
    (Camel.clean opts input <> [] ->
     Forall (fun t => t <> []) (JS.split 32 (Camel.clean opts input)))
    /\ (Kebab.clean opts input <> [] ->
        Forall (fun t => t <> []) (JS.split 32 (Kebab.clean opts input)))
    /\ (Dot.clean opts input <> [] ->
        Forall (fun t => t <> []) (JS.split 32 (Dot.clean opts input))).
Proof.
  intros opts input. repeat split; apply rawTokens_nonempty.
Qed.

Lemma X11_witness :
  Forall (fun t => t <> [])
    (JS.split 32 (@Kebab.clean asciiHost (Kebab.defaults noOptions)
                    (js "  a -- b__c  "))).
Proof.
  apply (proj1 (proj2 (@X11_raw_tokens_are_not_empty asciiHost
                         (Kebab.defaults noOptions) (js "  a -- b__c  ")))).
  vm_compute. discriminate.
Defined.

(** * The first toCamelCase *)

(** ** The class of its separators and the case of ASCII *)

Lemma Basic_separator_asciiLower (c : char) :
  Basic.separatorClass (asciiLower c) = Basic.separatorClass c.
Proof.
  unfold asciiLower, between.
  destruct (N.leb_spec 65 c); [destruct (N.leb_spec c 90)|]; simpl; auto.
  unfold Basic.separatorClass, JS.isWhiteSpace, between.
  decide_comparisons; reflexivity.
Qed.

Lemma Basic_separator_asciiUpper (c : char) :
  Basic.separatorClass c = false -> Basic.separatorClass (asciiUpper c) = false.
Proof.
  unfold asciiUpper, between.
  destruct (N.leb_spec 97 c); [destruct (N.leb_spec c 122)|]; simpl; auto.
  intros _. unfold Basic.separatorClass, JS.isWhiteSpace, between.
  decide_comparisons; reflexivity.
Qed.

Lemma Basic_separator_lowered (c : char) :
  Basic.separatorClass c = true -> asciiLower c = c.
Proof.
  unfold asciiLower, between.
  destruct (N.leb_spec 65 c); [destruct (N.leb_spec c 90)|]; simpl; auto.
  unfold Basic.separatorClass, JS.isWhiteSpace, between.
  decide_comparisons; discriminate.
Qed.

Lemma Basic_separator_refined (c : char) :
  Basic.separatorClass c = true -> separatorClass c = true.
Proof.
  unfold Basic.separatorClass, separatorClass. intros E.
  apply orb_true_iff in E. destruct E as [E|E];
    [apply orb_true_iff in E; destruct E as [E|E]|]; rewrite E;
    repeat (reflexivity || rewrite orb_true_r || rewrite orb_true_l).
Qed.

Lemma map_asciiLower_free (s : jstr) :
  (forall c, In c s -> Basic.separatorClass c = false) ->
  forall c, In c (map asciiLower s) -> Basic.separatorClass c = false.
Proof.
  intros Hs c Hc. apply in_map_iff in Hc. destruct Hc as [c0 [<- Hc]].
  rewrite Basic_separator_asciiLower. now apply Hs.
Qed.

(** ** On ASCII text every engine gives what the reference engine gives *)

Lemma Basic_replaceAtEnd_ascii {H : Host} {ok : HostOk H} (run : jstr) :
  allAscii run = true ->
  @Basic.replaceAtEnd H run = @Basic.replaceAtEnd asciiHost run.
Proof.
  intros Hr. unfold Basic.replaceAtEnd.
  destruct run as [|first others]; [reflexivity|].
  destruct (JS.dropWhile Basic.isLineTerminator (rev others)) as [|char rest] eqn:E;
    [reflexivity|].
  f_equal. cbn [toUpperCase asciiHost]. apply upper_ascii.
  simpl. rewrite andb_true_r.
  apply (proj1 (allAscii_spec (first :: others)) Hr). right.
  apply in_rev. apply (dropWhile_In Basic.isLineTerminator). rewrite E. now left.
Qed.

Lemma Basic_replaceFrom_ascii {H : Host} {ok : HostOk H} (s : jstr) :
  forall run,
    allAscii run = true -> allAscii s = true ->
    @Basic.replaceFrom H run s = @Basic.replaceFrom asciiHost run s.
Proof.
  induction s as [|c t IH]; intros run Hr Hs.
  - now apply Basic_replaceAtEnd_ascii.
  - simpl in Hs. apply andb_true_iff in Hs. destruct Hs as [Hc Ht].
    cbn [Basic.replaceFrom].
    destruct (Basic.separatorClass c).
    + apply IH; [|exact Ht]. unfold allAscii. rewrite forallb_app.
      fold (allAscii run). rewrite Hr. simpl. now rewrite Hc.
    + destruct run as [|r run].
      * f_equal. now apply IH.
      * rewrite (IH [] eq_refl Ht). f_equal.
        cbn [toUpperCase asciiHost]. apply upper_ascii. simpl. now rewrite Hc.
Qed.

Lemma Basic_toCamelCase_ascii {H : Host} {ok : HostOk H} (s : jstr) :
  allAscii s = true ->
  @Basic.toCamelCase H s = @Basic.replaceFrom asciiHost [] (map asciiLower s).
Proof.
  intros Hs. unfold Basic.toCamelCase. rewrite (lower_ascii s Hs).
  apply Basic_replaceFrom_ascii; [reflexivity|].
  now apply map_asciiLower_allAscii.
Qed.

(** ** What is left of the separators *)

Lemma Basic_replaceFrom_free (s : jstr) :
  forall run,
    s <> [] -> Basic.separatorClass (last s 0%N) = false ->
    forall c, In c (@Basic.replaceFrom asciiHost run s) ->
              Basic.separatorClass c = false.
Proof.
  induction s as [|x t IH]; intros run Hn Hl c; [contradiction|].
  cbn [Basic.replaceFrom].
  destruct (Basic.separatorClass x) eqn:Ex.
  - destruct t as [|y t']; [simpl in Hl; congruence|].
    apply IH; [discriminate | exact Hl].
  - assert (T : forall d, In d (@Basic.replaceFrom asciiHost [] t) ->
                          Basic.separatorClass d = false).
    { destruct t as [|y t']; [intros d []|]. apply IH; [discriminate | exact Hl]. }
    destruct run as [|r run]; cbn [toUpperCase asciiHost map app];
      intros [<-|Hc]; auto.
    now apply Basic_separator_asciiUpper.
Qed.

Lemma last_map_asciiLower (s : jstr) :
  last (map asciiLower s) 0%N = asciiLower (last s 0%N).
Proof.
  induction s as [|x [|y t] IH]; [reflexivity | reflexivity | exact IH].
Qed.

(** X12. On an ASCII text that does not end with a character of the class
    [[_\s-]], the first toCamelCase leaves no character of the class: each
    run of them is consumed with the character that follows it. *)
Theorem X12_basic_consumes_the_separators {H : Host} {ok : HostOk H} :
  forall (str : jstr),
    allAscii str = true ->
    Basic.separatorClass (last str 0%N) = false ->
    forall c, In c (Basic.toCamelCase str) -> Basic.separatorClass c = false.
Proof.
  intros str Hs Hl c. rewrite (Basic_toCamelCase_ascii str Hs).
  destruct str as [|x t]; [intros []|].
  apply Basic_replaceFrom_free; [discriminate|].
  now rewrite last_map_asciiLower, Basic_separator_asciiLower.
Qed.

Lemma X12_witness :
  Forall (fun c => Basic.separatorClass c = false)
    (@Basic.toCamelCase asciiHost (js "hello - big_world")).
Proof.
  apply Forall_forall.
  apply (@X12_basic_consumes_the_separators asciiHost asciiHost_ok
           (js "hello - big_world")); reflexivity.
Defined.

(** ** The ends of the text *)

Lemma Basic_replaceFrom_plain (s rest : jstr) :
  (forall c, In c s -> Basic.separatorClass c = false) ->
  @Basic.replaceFrom asciiHost [] (s ++ rest)
  = s ++ @Basic.replaceFrom asciiHost [] rest.
Proof.
  induction s as [|c s IH]; intros Hs; [reflexivity|].
  cbn [app Basic.replaceFrom]. rewrite (Hs c) by now left.
  rewrite IH; [reflexivity|]. intros d Hd. apply Hs. now right.
Qed.

(** X13. The first toCamelCase at the ends of an ASCII text. A text without
    any character of the class [[_\s-]] is returned in lower case, the
    capitals inside it included. One character of the class at the end of
    such a text is kept: no character follows it for the expression to
    match. One at the start is removed and the character after it is put in
    upper case. *)
Theorem X13_basic_ends_of_the_text {H : Host} {ok : HostOk H} :
  forall (s : jstr) (j : char),
    allAscii s = true ->
    (forall c, In c s -> Basic.separatorClass c = false) ->
    isAscii j = true ->
    Basic.separatorClass j = true ->
    Basic.toCamelCase s = map asciiLower s
    /\ Basic.toCamelCase (s ++ [j]) = map asciiLower s ++ [j]
    /\ Basic.toCamelCase (j :: s)
       = match s with
         | [] => [j]
         | x :: t => asciiUpper (asciiLower x) :: map asciiLower t
         end.
Proof.
  intros s j Hs Hf Hj Hc.
  pose proof (map_asciiLower_free s Hf) as Hf'.
  refine (conj _ (conj _ _)).
  - rewrite (Basic_toCamelCase_ascii s Hs).
    rewrite <- (app_nil_r (map asciiLower s)) at 1.
    rewrite Basic_replaceFrom_plain by exact Hf'. apply app_nil_r.
  - rewrite Basic_toCamelCase_ascii
      by (unfold allAscii; rewrite forallb_app; fold (allAscii s);
          rewrite Hs; simpl; now rewrite Hj).
    rewrite map_app. cbn [map]. rewrite (Basic_separator_lowered j Hc).
    rewrite Basic_replaceFrom_plain by exact Hf'.
    cbn [Basic.replaceFrom]. rewrite Hc. reflexivity.
  - rewrite Basic_toCamelCase_ascii by (simpl; now rewrite Hj).
    cbn [map]. rewrite (Basic_separator_lowered j Hc).
    cbn [Basic.replaceFrom]. rewrite Hc.
    destruct s as [|x t]; [reflexivity|].
    cbn [map app Basic.replaceFrom].
    rewrite (Hf' (asciiLower x)) by now left.
    cbn [toUpperCase asciiHost map app]. f_equal.
    rewrite <- (app_nil_r (map asciiLower t)) at 1.
    rewrite Basic_replaceFrom_plain by (intros d Hd; apply Hf'; now right).
    apply app_nil_r.
Qed.

Lemma X13_witness :
  @Basic.toCamelCase asciiHost (js "fooBar") = js "foobar"
  /\ @Basic.toCamelCase asciiHost (js "fooBar_") = js "foobar_"
  /\ @Basic.toCamelCase asciiHost (js "_fooBar") = js "Foobar".
Proof.
  apply (@X13_basic_ends_of_the_text asciiHost asciiHost_ok (js "fooBar") 95%N).
  - reflexivity.
  - intros c Hc. vm_compute in Hc.
    repeat (destruct Hc as [<-|Hc]; [reflexivity|]). destruct Hc.
  - reflexivity.
  - reflexivity.
Defined.

(** ** The first toCamelCase and the refined one *)

Lemma map_asciiLower_stable (p : jstr) :
  stablePart p -> map asciiLower p = p.
Proof.
  intros Hp. rewrite <- (map_id p) at 2. apply map_ext_in. intros c Hc.
  destruct (stablePart_chars p Hp c Hc) as [D|L];
    [now apply asciiLower_digit | now apply asciiLower_lower].
Qed.

Lemma Camel_wordsStep_stable (opts : Opts) (words : list jstr) (p : jstr) :
  truthy (preserveNumbers opts) = true ->
  stablePart p ->
  Camel.wordsStep opts words p = words ++ [p].
Proof.
  intros Hpn [Hn Hp]. unfold Camel.wordsStep.
  assert (L : (length p =? 0) = false) by now destruct p.
  rewrite L.
  destruct (JS.testDigits p) eqn:D; [now rewrite Hpn|].
  destruct Hp as [Hd|Hl].
  { assert (T : JS.testDigits p = true)
      by (apply testDigits_spec; split;
          [exact Hn | apply (proj1 (forallb_forall _ _) Hd)]).
    rewrite T in D. discriminate D. }
  rewrite (Dot_split_nonempty p L).
  assert (C : cut caseDigitBoundary p = [p]).
  { destruct p as [|x t]; [contradiction|].
    apply (cutFrom_no_boundary caseDigitBoundary t [] x).
    intros a b n Ha Hb.
    apply caseDigitBoundary_lower;
      [apply (proj1 (forallb_forall _ _) Hl a Ha)
      | apply (proj1 (forallb_forall _ _) Hl b); now right]. }
  rewrite C. cbn [fold_left]. unfold Camel.pushPart. now rewrite L.
Qed.

Lemma Camel_collectWords_on_stable (opts : Opts) (parts : list jstr) :
  truthy (preserveNumbers opts) = true ->
  Forall stablePart parts ->
  Camel.collectWords opts parts = parts.
Proof.
  intros Hpn Hp. unfold Camel.collectWords.
  assert (G : forall acc, fold_left (Camel.wordsStep opts) parts acc = acc ++ parts).
  { induction Hp as [|p rest Hs Hrest IH]; intros acc; simpl.
    - now rewrite app_nil_r.
    - rewrite (Camel_wordsStep_stable opts acc p Hpn Hs), IH, <- app_assoc.
      reflexivity. }
  apply (G []).
Qed.

(** The rendering of a stable word by the assembly, with the options left
    to their defaults: the word, with its first character in upper case
    unless it is the first word. *)
Lemma renderWord_stable (k : nat) (x : char) (w : jstr) :
  stablePart (x :: w) ->
  @CamelText.renderWord asciiHost (Camel.defaults noOptions) k (x :: w)
  = if k =? 0 then x :: w else asciiUpper x :: w.
Proof.
  intros Hp. pose proof (map_asciiLower_stable (x :: w) Hp) as M.
  unfold CamelText.renderWord.
  change (Camel.keptAsAcronym (Camel.defaults noOptions) (x :: w)) with false.
  change (@CamelText.lowerWithLocale asciiHost (Camel.defaults noOptions) (x :: w))
    with (map asciiLower (x :: w)).
  rewrite M.
  change (@CamelText.upperFirst asciiHost (Camel.defaults noOptions) (x :: w))
    with (asciiUpper x :: map asciiLower w).
  injection M as _ M. rewrite M.
  destruct (k =? 0); reflexivity.
Qed.

Lemma Basic_replaceFrom_words (j : char) (words : list jstr) :
  Basic.separatorClass j = true ->
  Forall stablePart words ->
  words <> [] ->
  forall k,
    @Basic.replaceFrom asciiHost [j] (JS.join [j] words)
    = @CamelText.renderAll asciiHost (Camel.defaults noOptions) (S k) words.
Proof.
  intros Hj. induction 1 as [|p rest Hp Hrest IH]; intros Hn k; [contradiction|].
  assert (Hf : forall c, In c p -> Basic.separatorClass c = false).
  { intros c Hc. destruct (Basic.separatorClass c) eqn:E; [|reflexivity].
    apply Basic_separator_refined in E.
    rewrite (proj1 (stable_char_facts c (stablePart_chars p Hp c Hc))) in E.
    discriminate E. }
  destruct p as [|x w]; [now destruct Hp|].
  cbn [CamelText.renderAll]. rewrite (renderWord_stable (S k) x w Hp). cbn [Nat.eqb].
  assert (Hw : forall c, In c w -> Basic.separatorClass c = false)
    by (intros c Hc; apply Hf; now right).
  destruct rest as [|q rest].
  - cbn [JS.join CamelText.renderAll Basic.replaceFrom]. rewrite (Hf x) by now left.
    cbn [toUpperCase asciiHost map app]. f_equal.
    rewrite <- (app_nil_r w) at 1.
    now rewrite Basic_replaceFrom_plain by exact Hw.
  - change (JS.join [j] ((x :: w) :: q :: rest))
      with (x :: (w ++ j :: JS.join [j] (q :: rest))).
    cbn [Basic.replaceFrom]. rewrite (Hf x) by now left.
    cbn [toUpperCase asciiHost map app]. f_equal.
    rewrite Basic_replaceFrom_plain by exact Hw. f_equal.
    cbn [Basic.replaceFrom]. rewrite Hj. cbn [app].
    apply IH. discriminate.
Qed.

Lemma Basic_replaceFrom_text (j : char) (words : list jstr) :
  Basic.separatorClass j = true ->
  Forall stablePart words ->
  @Basic.replaceFrom asciiHost [] (JS.join [j] words)
  = @CamelText.renderAll asciiHost (Camel.defaults noOptions) 0 words.
Proof.
  intros Hj Hp. destruct words as [|p rest]; [reflexivity|].
  inversion Hp as [|? ? Hs Hrest]; subst.
  assert (Hf : forall c, In c p -> Basic.separatorClass c = false).
  { intros c Hc. destruct (Basic.separatorClass c) eqn:E; [|reflexivity].
    apply Basic_separator_refined in E.
    rewrite (proj1 (stable_char_facts c (stablePart_chars p Hs c Hc))) in E.
    discriminate E. }
  destruct p as [|x w]; [now destruct Hs|].
  cbn [CamelText.renderAll]. rewrite (renderWord_stable 0 x w Hs). cbn [Nat.eqb].
  destruct rest as [|q rest].
  - cbn [JS.join CamelText.renderAll]. rewrite <- (app_nil_r (x :: w)) at 1.
    now rewrite Basic_replaceFrom_plain by exact Hf.
  - change (JS.join [j] ((x :: w) :: q :: rest))
      with ((x :: w) ++ j :: JS.join [j] (q :: rest)).
    rewrite Basic_replaceFrom_plain by exact Hf. f_equal.
    cbn [Basic.replaceFrom]. rewrite Hj. cbn [app].
    apply Basic_replaceFrom_words; [exact Hj | exact Hrest | discriminate].
Qed.

Lemma map_asciiLower_join (j : char) (words : list jstr) :
  Basic.separatorClass j = true ->
  Forall stablePart words ->
  map asciiLower (JS.join [j] words) = JS.join [j] words.
Proof.
  intros Hj Hp. rewrite <- (map_id (JS.join [j] words)) at 2.
  apply map_ext_in. intros c Hc.
  apply join_In in Hc. destruct Hc as [[<-|[]]|[p [Hin Hc]]];
    [now apply Basic_separator_lowered|].
  rewrite Forall_forall in Hp.
  destruct (stablePart_chars p (Hp p Hin) c Hc) as [D|L];
    [now apply asciiLower_digit | now apply asciiLower_lower].
Qed.

(** X14. The two versions of toCamelCase agree on words written in
    lowercase ASCII letters, or in ASCII digits, that one character of the
    class [[_\s-]] separates: the refined one, without options, returns the
    text that the first one returns. *)
Theorem X14_basic_and_refined_agree {H : Host} {ok : HostOk H} :
  forall (j : char) (words : list jstr),
    isAscii j = true ->
    Basic.separatorClass j = true ->
    Forall stablePart words ->
    Camel.toCamelCase (VString (JS.join [j] words)) noOptions
    = Return (Basic.toCamelCase (JS.join [j] words)).
Proof.
  intros j words Ha Hj Hp.
  pose proof (Basic_separator_refined j Hj) as Hs.
  pose proof (join_allAscii j words Ha Hp) as Hall.
  change (Camel.toCamelCase (VString (JS.join [j] words)) noOptions)
    with (convert camel (VString (JS.join [j] words)) noOptions).
  rewrite convert_ascii by (try exact Hall; reflexivity).
  rewrite (@convert_default_camel asciiHost). f_equal.
  rewrite (Basic_toCamelCase_ascii _ Hall), (map_asciiLower_join j words Hj Hp).
  rewrite (Basic_replaceFrom_text j words Hj Hp).
  unfold CamelText.convertText, Camel.clean.
  change (truthy (normalizeDiacritics (Camel.defaults noOptions))) with false.
  cbv iota. cbn [normalize_NFC asciiHost].
  rewrite (cleaned_join_stable j words Hs Ha Hp).
  destruct words as [|p rest]; [reflexivity|].
  assert (N0 : (length (JS.join [32%N] (p :: rest)) =? 0) = false).
  { inversion Hp as [|? ? [Hn _] _]; subst.
    pose proof (join_nonempty [32%N] p rest Hn) as J.
    now destruct (JS.join [32%N] (p :: rest)). }
  rewrite N0. unfold Camel.tokenize.
  rewrite split_join;
    [| apply (stableParts_free (fun c => c <> 32%N));
       [intros c Hc; apply (stable_char_facts c Hc) | exact Hp]
     | discriminate].
  rewrite Camel_collectWords_on_stable by (try exact Hp; reflexivity).
  cbn [length Nat.eqb]. apply Camel_assemble_renderAll.
Qed.

Lemma X14_witness :
  @Camel.toCamelCase asciiHost (VString (js "user_id_2_name")) noOptions
  = Return (@Basic.toCamelCase asciiHost (js "user_id_2_name")).
Proof.
  apply (@X14_basic_and_refined_agree asciiHost asciiHost_ok 95%N
           [js "user"; js "id"; js "2"; js "name"] eq_refl eq_refl).
  repeat constructor; try discriminate; (left; reflexivity) || (right; reflexivity).
Defined.

(** ** PascalCase and camelCase *)

Lemma asciiUpper_upperOrDigit (x : char) :
  between 65 90 x || between 48 57 x = true -> asciiUpper x = x.
Proof.
  unfold asciiUpper, between. intros E.
  apply orb_true_iff in E. destruct E as [E|E];
    apply andb_true_iff in E; destruct E as [E1 E2]; apply N.leb_le in E1, E2;
    decide_comparisons; reflexivity.
Qed.

Lemma renderAll_pascal (base : Opts) (v1 v2 : value) (words : list jstr) :
  forall k,
    @CamelText.renderAll asciiHost (setPascalCase base v1) (S k) words
    = @CamelText.renderAll asciiHost (setPascalCase base v2) (S k) words.
Proof.
  induction words as [|w rest IH]; intros k; [reflexivity|].
  cbn [CamelText.renderAll]. rewrite IH. reflexivity.
Qed.

Lemma Camel_convertText_pascal (base : Opts) (v1 v2 : value) (s : jstr) :
  truthy v1 = true -> truthy v2 = false ->
  @CamelText.convertText asciiHost (setPascalCase base v1) s
  = capitalised (@CamelText.convertText asciiHost (setPascalCase base v2) s).
Proof.
  intros H1 H2. unfold CamelText.convertText.
  change (@Camel.clean asciiHost (setPascalCase base v1) s)
    with (@Camel.clean asciiHost base s).
  change (@Camel.clean asciiHost (setPascalCase base v2) s)
    with (@Camel.clean asciiHost base s).
  set (working := @Camel.clean asciiHost base s).
  change (Camel.tokenize (setPascalCase base v1) working)
    with (Camel.tokenize base working).
  change (Camel.tokenize (setPascalCase base v2) working)
    with (Camel.tokenize base working).
  destruct (length working =? 0); [reflexivity|].
  assert (G : Forall goodPart (Camel.tokenize base working)).
  { apply Camel_collectWords_good. intros t Ht.
    now apply (@rawTokens_noSeparator asciiHost) in Ht. }
  destruct (Camel.tokenize base working) as [|w rest]; [reflexivity|].
  cbn [length Nat.eqb]. rewrite !Camel_assemble_renderAll. cbn [CamelText.renderAll].
  rewrite (renderAll_pascal base v1 v2 rest 0).
  inversion G as [|? ? [Hw _] _]; subst.
  destruct w as [|x w']; [contradiction|].
  unfold CamelText.renderWord. cbn [Nat.eqb andb pascalCase setPascalCase].
  rewrite H1, H2. cbn [negb].
  change (Camel.keptAsAcronym (setPascalCase base v1) (x :: w'))
    with (Camel.keptAsAcronym base (x :: w')).
  change (Camel.keptAsAcronym (setPascalCase base v2) (x :: w'))
    with (Camel.keptAsAcronym base (x :: w')).
  destruct (Camel.keptAsAcronym base (x :: w')) eqn:K.
  - cbn [app capitalised]. f_equal.
    unfold Camel.keptAsAcronym in K.
    apply andb_true_iff in K. destruct K as [K _].
    apply andb_true_iff in K. destruct K as [_ K].
    unfold JS.testUpperOrDigits in K. apply andb_true_iff in K.
    destruct K as [_ K]. simpl in K. apply andb_true_iff in K.
    symmetry. now apply asciiUpper_upperOrDigit.
  - assert (Lw : forall opts v,
               @CamelText.lowerWithLocale asciiHost opts v = map asciiLower v)
      by (intros opts v; unfold CamelText.lowerWithLocale;
          destruct (localeTag (locale opts)); reflexivity).
    assert (Uf : forall opts,
               @CamelText.upperFirst asciiHost opts (map asciiLower (x :: w'))
               = asciiUpper (asciiLower x) :: map asciiLower (map asciiLower w'))
      by (intros opts; unfold CamelText.upperFirst;
          destruct (localeTag (locale opts)); reflexivity).
    rewrite !Lw, Uf. cbn [map app capitalised]. do 2 f_equal.
    rewrite map_map. apply map_ext. apply asciiLower_idem.
Qed.

(** X15. On an ASCII text, with options that name no locale and do not ask
    for the diacritics to be stripped, pascalCase changes the first
    character of what toCamelCase returns and nothing else: the text
    returned with pascalCase is the text returned without it, with its
    first character in upper case; and the error raised, if any, is the
    same. *)
Theorem X15_pascal_capitalises_camel {H : Host} {ok : HostOk H} :
  forall (s : jstr) (o : OptionsArg) (on off : option value),
    allAscii s = true ->
    truthy (orDefault (arg_normalizeDiacritics o) (VBool false)) = false ->
    arg_locale o = None ->
    truthy (orDefault on (VBool false)) = true ->
    truthy (orDefault off (VBool false)) = false ->
    Camel.toCamelCase (VString s) (withCamelKeys o (arg_preserveAcronyms o) on)
    = mapResult capitalised
        (Camel.toCamelCase (VString s)
           (withCamelKeys o (arg_preserveAcronyms o) off)).
Proof.
  intros s o on off Hs Hd Hl Hon Hoff.
  change (Camel.toCamelCase (VString s) ?x) with (convert camel (VString s) x).
  rewrite (@convert_ascii H ok camel s
             (withCamelKeys o (arg_preserveAcronyms o) on)),
    (@convert_ascii H ok camel s (withCamelKeys o (arg_preserveAcronyms o) off))
    by (cbn [withCamelKeys arg_normalizeDiacritics arg_locale];
        try assumption; now rewrite Hl).
  rewrite (@convert_noLocale asciiHost camel s
             (withCamelKeys o (arg_preserveAcronyms o) on)),
    (@convert_noLocale asciiHost camel s
       (withCamelKeys o (arg_preserveAcronyms o) off))
    by (cbn [withCamelKeys arg_locale]; now rewrite Hl).
  unfold throwRequested, checkedOptionWrong.
  cbn [withCamelKeys arg_preserveAcronyms arg_locale arg_normalizeDiacritics
       arg_throwOnInvalid].
  destruct (truthy (orDefault (arg_throwOnInvalid o) (VBool false))
            && (wrongFlag (arg_preserveAcronyms o) || wrongLocale (arg_locale o)
                || wrongFlag (arg_normalizeDiacritics o))); [reflexivity|].
  cbn [mapResult converted validated]. f_equal.
  change (Camel.defaults (coerced camel (withCamelKeys o (arg_preserveAcronyms o) on)))
    with (setPascalCase (Camel.defaults (coerced camel o))
            (orDefault (coerceFlag on) (VBool false))).
  change (Camel.defaults (coerced camel (withCamelKeys o (arg_preserveAcronyms o) off)))
    with (setPascalCase (Camel.defaults (coerced camel o))
            (orDefault (coerceFlag off) (VBool false))).
  apply Camel_convertText_pascal; now rewrite coerceFlag_truthy.
Qed.

Lemma X15_witness :
  @Camel.toCamelCase asciiHost (VString (js "user_id card"))
    (withCamelKeys noOptions None (Some (VBool true)))
  = mapResult capitalised
      (@Camel.toCamelCase asciiHost (VString (js "user_id card"))
         (withCamelKeys noOptions None None)).
Proof.
  apply (@X15_pascal_capitalises_camel asciiHost asciiHost_ok
           (js "user_id card") noOptions (Some (VBool true)) None);
    reflexivity.
Defined.

(** ** From one convention to the other *)

Lemma stablePart_goodPart (p : jstr) : stablePart p -> goodPart p.
Proof.
  intros Hp. split; [apply Hp|]. apply noSeparator_spec. intros c Hc.
  apply (stable_char_facts c). now apply (stablePart_chars p).
Qed.

(** On the reference engine the two converters give the same parts, joined
    by the hyphen and by the period. *)
Lemma Kebab_Dot_same_parts (x : jstr) :
  allAscii x = true ->
  exists parts,
    Forall stablePart parts
    /\ @KebabText.convertText asciiHost (Kebab.defaults noOptions) x
       = JS.join [45%N] parts
    /\ @DotText.convertText asciiHost (Dot.defaults noOptions) x
       = JS.join [46%N] parts.
Proof.
  intros Hx.
  destruct (Kebab_convertText_shape (Kebab.defaults noOptions) x Hx eq_refl)
    as [parts [Hp E]].
  exists parts. split; [exact Hp|]. split; [exact E|].
  rewrite (@Dot_convertText_Kebab asciiHost asciiHost_ok).
  change (Dot.defaults noOptions) with (Kebab.defaults noOptions).
  rewrite E. apply join_hyphenToPeriod.
  apply Forall_forall. intros p Hin. rewrite Forall_forall in Hp.
  apply stablePart_goodPart. now apply Hp.
Qed.

(** X16. On ASCII text and with the default options, a text goes from one
    of the two conventions kebab and dot to the other without loss:
    converting what one of the two converters returns, with either of them,
    gives what that one returns on the text itself. *)
Theorem X16_kebab_and_dot_compose {H : Host} {ok : HostOk H} :
  forall (st1 st2 : style) (x r : jstr),
    st1 <> camel -> st2 <> camel ->
    allAscii x = true ->
    convert st1 (VString x) noOptions = Return r ->
    convert st2 (VString r) noOptions = convert st2 (VString x) noOptions.
Proof.
  intros st1 st2 x r H1 H2 Hx.
  destruct (Kebab_Dot_same_parts x Hx) as [parts [Hp [K D]]].
  rewrite (convert_ascii st1 x), (convert_ascii st2 x)
    by (assumption || reflexivity).
  assert (E1 : @convert asciiHost st1 (VString x) noOptions = Return r ->
               exists j, separatorClass j = true /\ isAscii j = true
                         /\ r = JS.join [j] parts).
  { destruct st1; [contradiction| |].
    - rewrite (@convert_default_kebab asciiHost x).
      rewrite K. intros [= <-]. exists 45%N. now repeat split.
    - rewrite (@convert_default_dot asciiHost x).
      rewrite D. intros [= <-]. exists 46%N. now repeat split. }
  intros E. destruct (E1 E) as [j [Hj [Ha ->]]].
  rewrite convert_ascii; [| now apply join_allAscii | reflexivity | reflexivity].
  destruct st2; [contradiction| |].
  - rewrite !(@convert_default_kebab asciiHost).
    rewrite K. f_equal. now apply Kebab_convertText_on_stable.
  - rewrite !(@convert_default_dot asciiHost).
    rewrite D. f_equal. now apply Dot_convertText_on_stable.
Qed.

Lemma X16_witness :
  @convert asciiHost dot (VString (js "get-2-nd-item")) noOptions
  = @convert asciiHost dot (VString (js "get2ndItem")) noOptions.
Proof.
  apply (@X16_kebab_and_dot_compose asciiHost asciiHost_ok kebab dot
           (js "get2ndItem") (js "get-2-nd-item")).
  - discriminate.
  - discriminate.
  - reflexivity.
  - vm_compute. reflexivity.
Defined.
